(** * Qualify Tool backend: a shallow embedding of [backend/main.py]

    The backend classifies a use case described by fifteen 0/1 answers into
    one of four archetypes and reports a Wilson score interval around the
    confidence of the chosen label.

    Python [float]s are IEEE 754 binary64 numbers: they are modelled by the
    primitive type [float], whose operations round to nearest, ties to even,
    and whose bit-level meaning is given by [Prim2SF].  Python [int]s are
    unbounded and are modelled by [Z].  Exceptions are explicit: every
    operation that can raise returns a [result]. *)

From Stdlib Require Import ZArith QArith List String Bool Lia Floats.
Import ListNotations.

(* Decimal literals of the source (0.70, 1.96) denote the nearest binary64
   number, exactly as the Python parser reads them. *)
Set Warnings "-inexact-float".

Local Open Scope Z_scope.

(** ** Exceptions and results *)

Inductive exn : Set :=
| ZeroDivisionError
| OverflowError
| TypeError
| IndexError
| ValueError
| UnpicklingError.

Inductive result (A : Type) : Type :=
| Ok (a : A)
| Raise (e : exn).

Arguments Ok {A} a.
Arguments Raise {A} e.

Definition bind {A B : Type} (c : result A) (k : A -> result B) : result B :=
  match c with
  | Ok a => k a
  | Raise e => Raise e
  end.

Notation "x <- c ;; k" := (bind c (fun x => k))
  (at level 61, c at next level, right associativity).
Notation "' pat <- c ;; k" := (bind c (fun x => match x with pat => k end))
  (at level 61, pat pattern, c at next level, right associativity).

(** ** Python numbers *)

Module Py.

(** [float(n)] for a Python int, before the overflow test: the integer
    rounded to nearest-even in binary64 (infinite when it is too large). *)
Definition float_of_Z (n : Z) : float :=
  SF2Prim (binary_normalize prec emax n 0 false).

(** Implicit conversion of an int operand in mixed arithmetic
    ([PyLong_AsDouble]): "int too large to convert to float". *)
Definition float_of_int (n : Z) : result float :=
  let f := float_of_Z n in
  if is_infinity f then Raise OverflowError else Ok f.

(** [a / b] on floats: raises on a zero divisor of either sign. *)
Definition truediv (a b : float) : result float :=
  if (b =? 0)%float then Raise ZeroDivisionError else Ok (a / b)%float.

(** [a / n] with an int right operand: the operand is converted first,
    then tested for zero. *)
Definition truediv_int (a : float) (n : Z) : result float :=
  b <- float_of_int n ;; truediv a b.

(** [x ** 2] ([float_pow] with exponent 2.0): nan and the infinities are
    answered before libm is called; otherwise libm's [pow], here the
    correctly rounded one (an arbitrary one is [pow2_with] below), and an
    infinite result from a finite base is reported as OverflowError. *)
Definition pow2 (x : float) : result float :=
  if is_nan x then Ok x
  else if is_infinity x then Ok infinity
  else
    let r := (x * x)%float in
    if is_infinity r then Raise OverflowError else Ok r.

(** A float or a complex number.  Only the fact that a value is complex
    is observable in this program (it makes [max] raise), so the complex
    value itself is not represented. *)
Inductive num : Set :=
| Real (f : float)
| Complex.

(** [x ** 0.5] ([float_pow] with exponent 0.5): nan, the infinities and
    the zeros are answered first (both infinities give [inf], both zeros
    give [0.0]); a negative base yields a complex number; otherwise
    libm's [pow], here the correctly rounded square root (an arbitrary one
    is [pow_half_with] below). *)
Definition pow_half (x : float) : num :=
  if is_nan x then Real x
  else if is_infinity x then Real infinity
  else if (x =? 0)%float then Real 0%float
  else if (x <? 0)%float then Complex
  else Real (sqrt x).

Definition mul (a : float) (b : num) : num :=
  match b with
  | Real f => Real (a * f)%float
  | Complex => Complex
  end.

Definition div (a : num) (b : float) : result num :=
  match a with
  | Real f => r <- truediv f b ;; Ok (Real r)
  | Complex => if (b =? 0)%float then Raise ZeroDivisionError else Ok Complex
  end.

Definition sub (a : float) (b : num) : num :=
  match b with
  | Real f => Real (a - f)%float
  | Complex => Complex
  end.

Definition add (a : float) (b : num) : num :=
  match b with
  | Real f => Real (a + f)%float
  | Complex => Complex
  end.

(** [max(a, b)] keeps [a] unless [b > a]; ordering a complex number
    raises TypeError. *)
Definition max (a : float) (b : num) : result float :=
  match b with
  | Real f => Ok (if (a <? f)%float then f else a)
  | Complex => Raise TypeError
  end.

(** [min(a, b)] keeps [a] unless [b < a]. *)
Definition min (a : float) (b : num) : result float :=
  match b with
  | Real f => Ok (if (f <? a)%float then f else a)
  | Complex => Raise TypeError
  end.

(** [l[i]] on a list: negative indices count from the end. *)
Definition index {A : Type} (l : list A) (i : Z) : result A :=
  let len := Z.of_nat (List.length l) in
  let j := if i <? 0 then i + len else i in
  if (0 <=? j) && (j <? len) then
    match nth_error l (Z.to_nat j) with
    | Some a => Ok a
    | None => Raise IndexError
    end
  else Raise IndexError.

(** Truth value of an int. *)
Definition truthy (n : Z) : bool := negb (n =? 0).

End Py.

(** [np.argmax] on a one-dimensional float array: the first maximal entry,
    a nan counting as maximal; an empty array raises ValueError. *)
Fixpoint argmax_from (best : float) (besti i : Z) (l : list float) : Z :=
  match l with
  | [] => besti
  | x :: tl =>
      if (x <=? best)%float then argmax_from best besti (i + 1) tl
      else if is_nan x then i
      else argmax_from x i (i + 1) tl
  end.

Definition np_argmax (l : list float) : result Z :=
  match l with
  | [] => Raise ValueError
  | x :: tl => Ok (if is_nan x then 0 else argmax_from x 0 1 tl)
  end.

(** ** Request and response models *)

Record PredictRequest : Set := {
  use_case_name : string;
  is_process_simple : Z;
  can_specify_business_rules : Z;
  will_occasional_errors_be_tolerated : Z;
  will_error_be_propagated : Z;
  is_use_case_transactional_in_nature : Z;
  are_you_building_learning_system : Z;
  high_stakes_environment : Z;
  hyper_personalization : Z;
  unstructured_text_input : Z;
  is_input_data_multi_modal : Z;
  language_generation : Z;
  are_autonomous_decisions_required : Z;
  is_reasoning_required : Z;
  tool_integration : Z;
  dynamic_goals : Z
}.

(** [conint(ge=0, le=1)] *)
Definition bit (n : Z) : Prop := n = 0 \/ n = 1.

(** The fifteen answers in the order of [vectorize]. *)
Definition fields (req : PredictRequest) : list Z :=
  [ is_process_simple req;
    can_specify_business_rules req;
    will_occasional_errors_be_tolerated req;
    will_error_be_propagated req;
    is_use_case_transactional_in_nature req;
    are_you_building_learning_system req;
    high_stakes_environment req;
    hyper_personalization req;
    unstructured_text_input req;
    is_input_data_multi_modal req;
    language_generation req;
    are_autonomous_decisions_required req;
    is_reasoning_required req;
    tool_integration req;
    dynamic_goals req ].

(** A request that passed validation. *)
Definition valid_request (req : PredictRequest) : Prop :=
  Forall bit (fields req).

Record PredictResponse : Set := {
  label : string;
  avg_confidence : float;
  ucl : float;
  lcl : float
}.

(** ** Label mapping *)

Definition LABELS : list string :=
  [ "Agentic AI"; "Classical ML"; "Gen AI"; "Business Automation" ]%string.

(** The index-to-name mapping as the specification lists it. *)
Definition label_name (idx : Z) : string :=
  match idx with
  | 0 => "Agentic AI"
  | 1 => "Classical ML"
  | 2 => "Gen AI"
  | _ => "Business Automation"
  end%string.

(** ** The trained artifact and its loading *)

(** What the program uses of the unpickled object: whether it has a
    [predict_proba] attribute, and its [predict] method.  Both are
    functions of the feature matrix. *)
Record Artifact : Type := {
  predict_proba : option (list (list float) -> list (list float));
  model_predict : list (list float) -> list Z
}.

(** What [load_model] reads of the outside world. *)
Record Env : Type := {
  MODEL_PATH : option string;
  path_exists : string -> bool;
  joblib_load : string -> result Artifact
}.

(** [os.getenv("MODEL_PATH", "model/model.pkl")] *)
Definition model_path (env : Env) : string :=
  match MODEL_PATH env with
  | Some p => p
  | None => "model/model.pkl"%string
  end.

Definition load_model (env : Env) : result (option Artifact) :=
  let path := model_path env in
  if path_exists env path then
    m <- joblib_load env path ;; Ok (Some m)
  else Ok None.

(** Module initialisation: [model = load_model()].  An exception here aborts
    the import, so the service never starts. *)
Record App : Type := { model : option Artifact }.

Definition startup (env : Env) : result App :=
  m <- load_model env ;; Ok {| model := m |}.

(** ** Feature vector *)

(** [np.array([[...]], dtype=float)] of the fifteen answers.  The answers
    of a validated request are 0 or 1; an int too large for a float, which
    the validation excludes, would make [np.array] raise OverflowError and
    is outside this definition. *)
Definition vectorize (req : PredictRequest) : list (list float) :=
  [ map Py.float_of_Z (fields req) ].

(** ** Wilson score interval *)

Definition wilson_interval (p : float) (n : Z) (z : float)
  : result (float * float) :=
  (* denom = 1 + z**2 / n *)
  zz <- Py.pow2 z ;;
  q <- Py.truediv_int zz n ;;
  let denom := (1 + q)%float in
  (* center = (p + z**2/(2*n)) / denom *)
  zz <- Py.pow2 z ;;
  q <- Py.truediv_int zz (2 * n) ;;
  center <- Py.truediv (p + q)%float denom ;;
  (* half = (z * ((p*(1-p)/n + z**2/(4*n**2))**0.5)) / denom *)
  a <- Py.truediv_int (p * (1 - p))%float n ;;
  zz <- Py.pow2 z ;;
  b <- Py.truediv_int zz (4 * n ^ 2) ;;
  half <- Py.div (Py.mul z (Py.pow_half (a + b)%float)) denom ;;
  lcl <- Py.max 0%float (Py.sub center half) ;;
  ucl <- Py.min 1%float (Py.add center half) ;;
  Ok (lcl, ucl).

(** The default arguments [n = 100], [z = 1.96]. *)
Definition default_n : Z := 100.
Definition default_z : float := 1.96%float.

Definition wilson_interval_default (p : float) : result (float * float) :=
  wilson_interval p default_n default_z.

(** ** Prediction *)

(** Lines 91-115 of [predict]: the label index and the confidence. *)
Definition classify (m : option Artifact) (req : PredictRequest)
  : result (Z * float) :=
  let x := vectorize req in
  match m with
  | Some a =>
      match predict_proba a with
      | Some proba_of =>
          proba <- Py.index (proba_of x) 0 ;;
          pred_idx <- np_argmax proba ;;
          p <- Py.index proba pred_idx ;;
          Ok (pred_idx, p)
      | None =>
          pred_idx <- Py.index (model_predict a x) 0 ;;
          Ok (pred_idx, 0.75%float)
      end
  | None =>
      let agentic_score :=
        are_autonomous_decisions_required req
        + is_reasoning_required req
        + tool_integration req
        + dynamic_goals req in
      let pred_idx :=
        if Py.truthy (language_generation req) then 2
        else if 3 <=? agentic_score then 0
        else if Py.truthy (can_specify_business_rules req)
                && negb (Py.truthy (are_you_building_learning_system req))
             then 3
        else 1 in
      Ok (pred_idx, 0.70%float)
  end.

Definition predict (m : option Artifact) (req : PredictRequest)
  : result PredictResponse :=
  '(pred_idx, p) <- classify m req ;;
  '(lo, hi) <- wilson_interval_default p ;;
  lab <- Py.index LABELS pred_idx ;;
  Ok {| label := lab; avg_confidence := p; ucl := hi; lcl := lo |}.

(** ** The specification's wording of the two procedures *)

(** The four-branch priority procedure of the heuristic mode. *)
Definition count_ones (l : list Z) : nat := count_occ Z.eq_dec l 1.

Definition heuristic_spec (req : PredictRequest) : Z :=
  if language_generation req =? 1 then 2
  else if (3 <=? count_ones [ are_autonomous_decisions_required req;
                              is_reasoning_required req;
                              tool_integration req;
                              dynamic_goals req ])%nat then 0
  else if (can_specify_business_rules req =? 1)
          && (are_you_building_learning_system req =? 0) then 3
  else 1.

(** The Wilson score interval as the specification writes it, every
    operation being the binary64 one. *)
Definition fmax (a b : float) : float := if (a <? b)%float then b else a.
Definition fmin (a b : float) : float := if (b <? a)%float then b else a.

Definition wilson_spec (p : float) (n : Z) (z : float) : float * float :=
  let z2 := (z * z)%float in
  let denom := (1 + z2 / Py.float_of_Z n)%float in
  let center := ((p + z2 / Py.float_of_Z (2 * n)) / denom)%float in
  let half :=
    (z * sqrt (p * (1 - p) / Py.float_of_Z n + z2 / Py.float_of_Z (4 * n ^ 2))
     / denom)%float in
  (fmax 0 (center - half), fmin 1 (center + half)).

(** The containment invariant [0 <= lower <= p <= upper <= 1] at the
    default arguments, as a test on the value returned for [p]. *)
Definition contains_confidence (p : float) : bool :=
  match wilson_interval_default p with
  | Ok (lo, hi) =>
      ((0 <=? lo) && (lo <=? p) && (p <=? hi) && (hi <=? 1))%float
  | Raise _ => false
  end.

(** ** Exact values of floats *)

(** The rational number a finite float stands for. *)
Definition SF2Q (x : spec_float) : option Q :=
  match x with
  | S754_zero _ => Some 0%Q
  | S754_finite s m e =>
      Some (inject_Z (if s then Zneg m else Zpos m) * Qpower 2 e)%Q
  | _ => None
  end.

Definition float_to_Q (x : float) : option Q := SF2Q (Prim2SF x).

(** [x] lies within [tol] of [v]. *)
Definition approx (tol : Q) (x : float) (v : Q) : bool :=
  match float_to_Q x with
  | Some q => Qle_bool (v - tol) q && Qle_bool q (v + tol)
  | None => false
  end.

(** ** Sample inputs *)

Definition zeros (name : string) : PredictRequest :=
  {| use_case_name := name;
     is_process_simple := 0; can_specify_business_rules := 0;
     will_occasional_errors_be_tolerated := 0; will_error_be_propagated := 0;
     is_use_case_transactional_in_nature := 0;
     are_you_building_learning_system := 0; high_stakes_environment := 0;
     hyper_personalization := 0; unstructured_text_input := 0;
     is_input_data_multi_modal := 0; language_generation := 0;
     are_autonomous_decisions_required := 0; is_reasoning_required := 0;
     tool_integration := 0; dynamic_goals := 0 |}.

(** An environment whose model file exists but cannot be unpickled. *)
Definition corrupt_env : Env :=
  {| MODEL_PATH := None;
     path_exists := fun _ => true;
     joblib_load := fun _ => Raise UnpicklingError |}.

(** An environment without a model file. *)
Definition bare_env : Env :=
  {| MODEL_PATH := None;
     path_exists := fun _ => false;
     joblib_load := fun _ => Raise UnpicklingError |}.

(** A request answering 1 to the eight questions the heuristic ignores. *)
Definition ignored_ones : PredictRequest :=
  {| use_case_name := "y";
     is_process_simple := 1; can_specify_business_rules := 0;
     will_occasional_errors_be_tolerated := 1; will_error_be_propagated := 1;
     is_use_case_transactional_in_nature := 1;
     are_you_building_learning_system := 0; high_stakes_environment := 1;
     hyper_personalization := 1; unstructured_text_input := 1;
     is_input_data_multi_modal := 1; language_generation := 0;
     are_autonomous_decisions_required := 0; is_reasoning_required := 0;
     tool_integration := 0; dynamic_goals := 0 |}.

(** ** Probabilities *)

(** A probability reported by the artifact. *)
Definition probability (q : float) : Prop :=
  (0 <=? q)%float = true /\ (q <=? 1)%float = true.

(** ** Signs of binary64 values *)

(** The radicand [p*(1-p)/n + z**2/(4*n**2)] of the half-width. *)
Definition radicand (p : float) (n : Z) (z : float) : float :=
  (p * (1 - p) / Py.float_of_Z n + z * z / Py.float_of_Z (4 * n ^ 2))%float.

(** [1.0] and [0.0] as specification floats. *)
Definition SFone : spec_float := S754_finite false 4503599627370496 (-52).
Definition SFzero : spec_float := S754_zero false.

(** The sign bit is clear (nan counts as clear). *)
Definition sign_clear (x : spec_float) : bool :=
  match x with
  | S754_zero true | S754_infinity true | S754_finite true _ _ => false
  | _ => true
  end.

Definition not_negative (x : spec_float) : bool :=
  match x with
  | S754_infinity true | S754_finite true _ _ => false
  | _ => true
  end.

Inductive rounded (s : bool) : spec_float -> Prop :=
| rounded_nan : rounded s S754_nan
| rounded_zero : rounded s (S754_zero s)
| rounded_infinity : rounded s (S754_infinity s)
| rounded_finite m e : rounded s (S754_finite s m e).

(** ** Further sample inputs *)

(** A request answering 1 to every question. *)
Definition ones (name : string) : PredictRequest :=
  {| use_case_name := name;
     is_process_simple := 1; can_specify_business_rules := 1;
     will_occasional_errors_be_tolerated := 1; will_error_be_propagated := 1;
     is_use_case_transactional_in_nature := 1;
     are_you_building_learning_system := 1; high_stakes_environment := 1;
     hyper_personalization := 1; unstructured_text_input := 1;
     is_input_data_multi_modal := 1; language_generation := 1;
     are_autonomous_decisions_required := 1; is_reasoning_required := 1;
     tool_integration := 1; dynamic_goals := 1 |}.

(** A classifier without [predict_proba] whose [predict] answers the class
    [-1] for every input. *)
Definition minus_one_model : Artifact :=
  {| predict_proba := None;
     model_predict := fun _ => [-1] |}.

(** A classifier whose [predict_proba] answers the same row of four
    probabilities for every input. *)
Definition steady_model : Artifact :=
  {| predict_proba := Some (fun _ => [[0.1; 0.2; 0.6; 0.1]%float]);
     model_predict := fun _ => [2] |}.

(** A classifier whose second probability is not a number. *)
Definition broken_model : Artifact :=
  {| predict_proba := Some (fun _ => [[0.25; nan; 0.5; 0.25]%float]);
     model_predict := fun _ => [2] |}.

(** A classifier whose [predict] answers an empty array. *)
Definition silent_model : Artifact :=
  {| predict_proba := None;
     model_predict := fun _ => [] |}.

(** A classifier whose [predict_proba] answers one row without entries. *)
Definition empty_row_model : Artifact :=
  {| predict_proba := Some (fun _ => [[]]);
     model_predict := fun _ => [0] |}.

(** ** Positions in a row of probabilities *)

(** [p] is the entry of [row] at index [r], no entry is larger, and every
    entry before it is strictly smaller. *)
Definition first_maximum (row : list float) (r : Z) (p : float) : Prop :=
  0 <= r < Z.of_nat (List.length row) /\
  nth_error row (Z.to_nat r) = Some p /\
  Forall (fun q => (q <=? p)%float = true) row /\
  (forall j q, (j < Z.to_nat r)%nat -> nth_error row j = Some q ->
               (q <? p)%float = true).

(** The entry of [row] at position [k] is not a number, and every entry
    before it is one. *)
Definition first_nan (row : list float) (k : nat) : Prop :=
  (exists q, nth_error row k = Some q /\ is_nan q = true) /\
  (forall j q, (j < k)%nat -> nth_error row j = Some q -> is_nan q = false).

(** ** Scaled values *)

(** The value of a finite float in units of [2^-1074]. *)
Definition scaled (m e : Z) : Z := m * 2 ^ (e + 1074).

(** ** The powers for an arbitrary C library

    [x ** y] on floats is [float_pow]: it answers the special cases itself
    and otherwise calls the C library's [pow], whose result at a finite base
    is accurate but not specified bit for bit.  The definitions below take
    that function as a parameter [pw] and follow [float_pow] case by case: a
    nan base, an infinite base, a zero base, a negative base (replaced by
    its absolute value at the even exponent 2, a complex result at the
    exponent 0.5), the base 1.0, and at last the call of [pw], whose
    infinite result is reported as OverflowError.  The C library is taken
    to signal a range error at an infinite or a zero result only;
    [float_pow] clears the one at a zero result. *)

(** The value of [x ** 2]. *)
Definition square_with (pw : float -> float -> float) (x : float) : float :=
  if is_nan x then x
  else if is_infinity x then infinity
  else if (x =? 0)%float then 0%float
  else if (abs x =? 1)%float then 1%float
  else pw (abs x) 2%float.

(** [x ** 2] *)
Definition pow2_with (pw : float -> float -> float) (x : float)
  : result float :=
  if is_nan x then Ok x
  else if is_infinity x then Ok infinity
  else if (x =? 0)%float then Ok 0%float
  else if (abs x =? 1)%float then Ok 1%float
  else
    let r := pw (abs x) 2%float in
    if is_infinity r then Raise OverflowError else Ok r.

(** The value of [x ** 0.5] for a base that is not negative. *)
Definition root_with (pw : float -> float -> float) (x : float) : float :=
  if is_nan x then x
  else if is_infinity x then infinity
  else if (x =? 0)%float then 0%float
  else if (x =? 1)%float then 1%float
  else pw x 0.5%float.

(** [x ** 0.5] *)
Definition pow_half_with (pw : float -> float -> float) (x : float)
  : result Py.num :=
  if is_nan x then Ok (Py.Real x)
  else if is_infinity x then Ok (Py.Real infinity)
  else if (x =? 0)%float then Ok (Py.Real 0%float)
  else if (x <? 0)%float then Ok Py.Complex
  else if (x =? 1)%float then Ok (Py.Real 1%float)
  else
    let r := pw x 0.5%float in
    if is_infinity r then Raise OverflowError else Ok (Py.Real r).

(** [wilson_interval] for a C library whose [pow] is [pw]. *)
Definition wilson_interval_with (pw : float -> float -> float)
  (p : float) (n : Z) (z : float) : result (float * float) :=
  (* denom = 1 + z**2 / n *)
  zz <- pow2_with pw z ;;
  q <- Py.truediv_int zz n ;;
  let denom := (1 + q)%float in
  (* center = (p + z**2/(2*n)) / denom *)
  zz <- pow2_with pw z ;;
  q <- Py.truediv_int zz (2 * n) ;;
  center <- Py.truediv (p + q)%float denom ;;
  (* half = (z * ((p*(1-p)/n + z**2/(4*n**2))**0.5)) / denom *)
  a <- Py.truediv_int (p * (1 - p))%float n ;;
  zz <- pow2_with pw z ;;
  b <- Py.truediv_int zz (4 * n ^ 2) ;;
  root <- pow_half_with pw (a + b)%float ;;
  half <- Py.div (Py.mul z root) denom ;;
  lcl <- Py.max 0%float (Py.sub center half) ;;
  ucl <- Py.min 1%float (Py.add center half) ;;
  Ok (lcl, ucl).

(** The radicand [p*(1-p)/n + z**2/(4*n**2)]. *)
Definition radicand_with (pw : float -> float -> float)
  (p : float) (n : Z) (z : float) : float :=
  (p * (1 - p) / Py.float_of_Z n
   + square_with pw z / Py.float_of_Z (4 * n ^ 2))%float.

(** The Wilson score interval as the specification writes it, the square
    and the square root being the two powers above and every other
    operation the binary64 one. *)
Definition wilson_formula (pw : float -> float -> float)
  (p : float) (n : Z) (z : float) : float * float :=
  let z2 := square_with pw z in
  let denom := (1 + z2 / Py.float_of_Z n)%float in
  let center := ((p + z2 / Py.float_of_Z (2 * n)) / denom)%float in
  let half :=
    (z * root_with pw (p * (1 - p) / Py.float_of_Z n
                       + z2 / Py.float_of_Z (4 * n ^ 2))
     / denom)%float in
  (fmax 0 (center - half), fmin 1 (center + half)).

(** A C library whose [pow] is correctly rounded at the exponents 2 and
    0.5. *)
Definition rounded_pow (x y : float) : float :=
  if (y =? 2)%float then (x * x)%float else sqrt x.

(** The largest int that converts to a finite float without rounding up:
    the largest binary64 number, (2^53 - 1) * 2^971. *)
Definition max_float_int : Z := 9007199254740991 * 2 ^ 971.

(** ** The accuracy asked of the C library's [pow]

    [pow] squares the default [z] as the binary64 product does, and
    [pow(x, 0.5)] of a positive finite [x] is a positive finite number that
    no binary64 number separates from the correctly rounded square root:
    it is that root or one of its two neighbours. *)
Definition faithful_pow (pw : float -> float -> float) : Prop :=
  pw default_z 2%float = (default_z * default_z)%float /\
  forall x : float,
    (0 <? x)%float = true -> is_infinity x = false ->
    (0 <? pw x 0.5)%float = true /\
    is_infinity (pw x 0.5%float) = false /\
    (forall y : float,
       (y <? sqrt x)%float = true -> (y <=? pw x 0.5)%float = true) /\
    (forall y : float,
       (sqrt x <? y)%float = true -> (pw x 0.5 <=? y)%float = true).

(** ** Bounds of binary64 quantities

    A positive binary64 number is written [m * 2^e] with a mantissa of
    53 bits; a pair of such numbers encloses a quantity computed from a
    confidence that is only known to lie in a cell [a, b].  The bounds are
    compared exactly, as dyadic numbers [m * 2^e] with integer [m]. *)

Definition dyadic : Type := (Z * Z)%type.

Definition dy_value (k : Z) (a : dyadic) : Z := fst a * 2 ^ (snd a + k).

Definition dy_mul (a b : dyadic) : dyadic :=
  (fst a * fst b, snd a + snd b).

Definition dy_add (a b : dyadic) : dyadic :=
  let e := Z.min (snd a) (snd b) in
  (fst a * 2 ^ (snd a - e) + fst b * 2 ^ (snd b - e), e).

Definition dy_sub (a b : dyadic) : dyadic :=
  let e := Z.min (snd a) (snd b) in
  (fst a * 2 ^ (snd a - e) - fst b * 2 ^ (snd b - e), e).

Definition dy_leb (a b : dyadic) : bool :=
  let e := Z.min (snd a) (snd b) in
  fst a * 2 ^ (snd a - e) <=? fst b * 2 ^ (snd b - e).

Definition dy_ltb (a b : dyadic) : bool :=
  let e := Z.min (snd a) (snd b) in
  fst a * 2 ^ (snd a - e) <? fst b * 2 ^ (snd b - e).

(** A positive finite binary64 number, mantissa and exponent. *)
Definition fin : Type := (positive * Z)%type.

Definition dy_of (f : fin) : dyadic := (Zpos (fst f), snd f).

Definition fin_value (f : fin) : Z := scaled (Zpos (fst f)) (snd f).

(** A normal number: 53 significant bits and an exponent in range. *)
Definition normal (f : fin) : bool :=
  (2 ^ 52 <=? Zpos (fst f)) && (Zpos (fst f) <? 2 ^ 53)
  && (-1074 <=? snd f) && (snd f <=? 971).

(** A lower and an upper bound. *)
Definition bounds : Type := (fin * fin)%type.

(** [x] is a positive finite binary64 number between the two bounds. *)
Definition between (X : bounds) (x : float) : Prop :=
  normal (fst X) = true /\ normal (snd X) = true /\
  exists m e,
    Prim2SF x = S754_finite false m e /\
    fin_value (fst X) <= scaled (Zpos m) e <= fin_value (snd X).

(** The largest number of 53 bits not above a positive dyadic number, and
    the smallest one not below it. *)
Definition round_down (d : dyadic) : fin :=
  let k := Z.log2 (fst d) in
  if 52 <=? k then (Z.to_pos (fst d / 2 ^ (k - 52)), snd d + (k - 52))
  else (Z.to_pos (fst d * 2 ^ (52 - k)), snd d - (52 - k)).

Definition round_up (d : dyadic) : fin :=
  let k := Z.log2 (fst d) in
  if 52 <=? k then
    let q := fst d / 2 ^ (k - 52) in
    let q' := if fst d mod 2 ^ (k - 52) =? 0 then q else q + 1 in
    if q' =? 2 ^ 53 then (Z.to_pos (2 ^ 52), snd d + (k - 52) + 1)
    else (Z.to_pos q', snd d + (k - 52))
  else (Z.to_pos (fst d * 2 ^ (52 - k)), snd d - (52 - k)).

(** The numbers of 53 bits next to a given one. *)
Definition fin_pred (f : fin) : fin :=
  if Zpos (fst f) =? 2 ^ 52 then (Z.to_pos (2 ^ 53 - 1), snd f - 1)
  else (Z.to_pos (Zpos (fst f) - 1), snd f).

Definition fin_succ (f : fin) : fin :=
  if Zpos (fst f) =? 2 ^ 53 - 1 then (Z.to_pos (2 ^ 52), snd f + 1)
  else (Z.to_pos (Zpos (fst f) + 1), snd f).

(** Quotients and square roots of dyadic numbers, truncated after 64
    further bits. *)
Definition dy_div (a b : dyadic) : dyadic :=
  ((fst a * 2 ^ 64) / fst b, snd a - snd b - 64).

Definition dy_sqrt (a : dyadic) : dyadic :=
  let s := 64 + snd a mod 2 in
  (Z.sqrt (fst a * 2 ^ s), (snd a - s) / 2).

Definition dy_next (a : dyadic) : dyadic := (fst a + 1, snd a).

(** Bounds of a sum, a difference, a product, a quotient and a square
    root from bounds of the operands.  The candidates are found by
    truncation; what is returned has been compared exactly. *)
Definition add_bounds (X Y : bounds) : option bounds :=
  let L := round_down (dy_add (dy_of (fst X)) (dy_of (fst Y))) in
  let H := round_up (dy_add (dy_of (snd X)) (dy_of (snd Y))) in
  if normal L && normal H
     && dy_leb (dy_of L) (dy_add (dy_of (fst X)) (dy_of (fst Y)))
     && dy_leb (dy_add (dy_of (snd X)) (dy_of (snd Y))) (dy_of H)
  then Some (L, H) else None.

Definition sub_bounds (X Y : bounds) : option bounds :=
  let l := dy_sub (dy_of (fst X)) (dy_of (snd Y)) in
  let h := dy_sub (dy_of (snd X)) (dy_of (fst Y)) in
  let L := round_down l in
  let H := round_up h in
  if (0 <? fst l) && normal L && normal H
     && dy_leb (dy_of L) l && dy_leb h (dy_of H)
  then Some (L, H) else None.

Definition mul_bounds (X Y : bounds) : option bounds :=
  let l := dy_mul (dy_of (fst X)) (dy_of (fst Y)) in
  let h := dy_mul (dy_of (snd X)) (dy_of (snd Y)) in
  let L := round_down l in
  let H := round_up h in
  if (-1074 <=? snd (fst X) + snd (fst Y)) && normal L && normal H
     && dy_leb (dy_of L) l && dy_leb h (dy_of H)
  then Some (L, H) else None.

Definition div_bounds (X Y : bounds) : option bounds :=
  let L := round_down (dy_div (dy_of (fst X)) (dy_of (snd Y))) in
  let H := round_up (dy_next (dy_div (dy_of (snd X)) (dy_of (fst Y)))) in
  if (-1021 <=? snd (fst X) - snd (snd Y)) && normal L && normal H
     && dy_leb (dy_mul (dy_of L) (dy_of (snd Y))) (dy_of (fst X))
     && dy_leb (dy_of (snd X)) (dy_mul (dy_of H) (dy_of (fst Y)))
  then Some (L, H) else None.

Definition sqrt_bounds (X : bounds) : option bounds :=
  let L := round_down (dy_sqrt (dy_of (fst X))) in
  let H := round_up (dy_next (dy_sqrt (dy_of (snd X)))) in
  if normal L && normal H
     && dy_leb (dy_mul (dy_of L) (dy_of L)) (dy_of (fst X))
     && dy_leb (dy_of (snd X)) (dy_mul (dy_of H) (dy_of H))
  then Some (L, H) else None.

(** Bounds widened by one unit in the last place on either side. *)
Definition widen (X : bounds) : option bounds :=
  let L := fin_pred (fst X) in
  let H := fin_succ (snd X) in
  if normal L && normal H
     && dy_ltb (dy_of L) (dy_of (fst X)) && dy_ltb (dy_of (snd X)) (dy_of H)
  then Some (L, H) else None.

(** The constants of the interval at the default arguments. *)
Definition fin_one : fin := (4503599627370496%positive, -52).
Definition fin_z : fin := (8827055269646172%positive, -52).
Definition fin_n : fin := (7036874417766400%positive, -46).
Definition fin_denom : fin := (4676609910655561%positive, -52).
Definition fin_shift : fin := (5536329065122079%positive, -58).
Definition fin_floor : fin := (7086501203356261%positive, -66).

Definition exactly (f : fin) : bounds := (f, f).

(** The test of a cell: for every confidence between [a] and [b] the
    rounded sum [center + half] is at least [b] and the rounded difference
    [center - half] at most [a], whatever the square root's last bit. *)
Definition cell_check (a b : fin) : bool :=
  match add_bounds (a, b) (exactly fin_shift) with
  | None => false
  | Some bu =>
  match div_bounds bu (exactly fin_denom) with
  | None => false
  | Some bc =>
  match sub_bounds (exactly fin_one) (a, b) with
  | None => false
  | Some bw =>
  match mul_bounds (a, b) bw with
  | None => false
  | Some bv =>
  match div_bounds bv (exactly fin_n) with
  | None => false
  | Some bt =>
  match add_bounds bt (exactly fin_floor) with
  | None => false
  | Some br =>
  match sqrt_bounds br with
  | None => false
  | Some bq =>
  match widen bq with
  | None => false
  | Some bs =>
  match mul_bounds (exactly fin_z) bs with
  | None => false
  | Some bz =>
  match div_bounds bz (exactly fin_denom) with
  | None => false
  | Some bh =>
  match add_bounds bc bh with
  | None => false
  | Some byy =>
      normal a && normal b
      && dy_ltb (dy_of (snd br)) (dy_of fin_one)
      && dy_leb (dy_of b) (dy_of (fst byy))
      && dy_leb (dy_sub (dy_of (snd bc)) (dy_of (fst bh))) (dy_of a)
  end end end end end end end end end end end.

(** A chain of cells given by its breakpoints. *)
Fixpoint chain_check (ts : list fin) : bool :=
  match ts with
  | a :: (b :: _) as rest => cell_check a b && chain_check rest
  | _ => true
  end.

(** The breakpoints: four to a binade, from [2^-56] up to [1/2] and from
    there, mirrored, up to [1 - 2^-51]. *)
Definition low_points : list fin :=
  flat_map (fun k : nat =>
              map (fun j : Z =>
                     (Z.to_pos (2 ^ 52 + j * 2 ^ 50), - Z.of_nat k - 52))
                  [0; 1; 2; 3])
           (rev (seq 2 55)).

Definition high_points : list fin :=
  flat_map (fun k : nat =>
              map (fun j : Z =>
                     (Z.to_pos ((2 ^ (Z.of_nat k + 2) - 4 - j)
                                * 2 ^ (51 - Z.of_nat k)), -53))
                  [4; 3; 2; 1])
           (seq 2 50)
  ++ [(Z.to_pos (2 ^ 53 - 4), -53)].

Definition breakpoints : list fin := low_points ++ high_points.

Definition fin_first : fin := (4503599627370496%positive, -108).
Definition fin_last : fin := (9007199254740988%positive, -53).

(** ** Further artifacts and answers *)

(** A classifier over five classes whose last probability is the largest. *)
Definition five_class_model : Artifact :=
  {| predict_proba := Some (fun _ => [[0.1; 0.1; 0.1; 0.1; 0.6]%float]);
     model_predict := fun _ => [4] |}.

(** The float that [np.array(..., dtype=float)] stores for an answer. *)
Definition answer_float (n : Z) : float :=
  if n =? 1 then 1%float else 0%float.

(** * Rounding in binary64 *)

Section Digits.

Lemma digits2_pos_size (m : positive) : digits2_pos m = Pos.size m.
Proof. induction m; simpl; congruence. Qed.

Lemma digits2_log2 (m : positive) :
  Zpos (digits2_pos m) = Z.log2 (Zpos m) + 1.
Proof.
  rewrite digits2_pos_size.
  destruct m; simpl; try rewrite Pos2Z.inj_succ; lia.
Qed.

Lemma Zdigits2_log2 (m : Z) : 0 < m -> Zdigits2 m = Z.log2 m + 1.
Proof.
  destruct m; try lia. intros _. apply digits2_log2.
Qed.

Lemma log2_div_pow2 (a k : Z) :
  0 < a -> 0 <= k <= Z.log2 a ->
  0 < a / 2 ^ k /\ Z.log2 (a / 2 ^ k) = Z.log2 a - k.
Proof.
  intros Ha Hk.
  assert (Hp : 0 < 2 ^ k) by (apply Z.pow_pos_nonneg; lia).
  assert (Hle : 2 ^ k <= a).
  { transitivity (2 ^ Z.log2 a).
    - apply Z.pow_le_mono_r; lia.
    - apply Z.log2_spec; lia. }
  split.
  - apply Z.div_str_pos; lia.
  - rewrite <- Z.shiftr_div_pow2 by lia.
    rewrite Z.log2_shiftr by lia. lia.
Qed.

Lemma div_pow2_small (a k : Z) :
  0 < a -> Z.log2 a < k -> a / 2 ^ k = 0.
Proof.
  intros Ha Hk. apply Z.div_small. split; [lia |].
  apply Z.log2_lt_pow2; lia.
Qed.

End Digits.

Section Shift.

Lemma shr_1_m (mrs : shr_record) :
  0 <= shr_m mrs -> shr_m (shr_1 mrs) = shr_m mrs / 2.
Proof.
  destruct mrs as [m r s]. simpl. intros Hm.
  destruct m as [| [p | p |] | p]; simpl; try lia; try reflexivity.
  - apply Z.div_unique with (r := 1); lia.
  - apply Z.div_unique with (r := 0); lia.
Qed.

Lemma pow2_twice (k : Z) : 0 <= k -> 2 ^ (2 * k) = 2 ^ k * 2 ^ k.
Proof.
  intros Hk. replace (2 * k) with (k + k) by lia. apply Z.pow_add_r; lia.
Qed.

Lemma pow2_twice_succ (k : Z) :
  0 <= k -> 2 ^ (2 * k + 1) = 2 * (2 ^ k * 2 ^ k).
Proof.
  intros Hk. rewrite Z.add_comm, Z.pow_add_r, pow2_twice by lia.
  reflexivity.
Qed.

Lemma iter_shr_1_m (p : positive) :
  forall mrs, 0 <= shr_m mrs ->
    shr_m (iter_pos shr_1 p mrs) = shr_m mrs / 2 ^ Zpos p.
Proof.
  induction p as [p IH | p IH |]; intros mrs Hm; simpl iter_pos.
  - assert (Hp : 0 < 2 ^ Zpos p) by (apply Z.pow_pos_nonneg; lia).
    assert (H1 : 0 <= shr_m (shr_1 mrs)).
    { rewrite shr_1_m by assumption. apply Z.div_pos; lia. }
    assert (H2 : 0 <= shr_m (iter_pos shr_1 p (shr_1 mrs))).
    { rewrite IH by assumption. apply Z.div_pos; lia. }
    rewrite IH by assumption. rewrite IH by assumption.
    rewrite shr_1_m by assumption.
    rewrite !Z.div_div by lia.
    rewrite (Pos2Z.inj_xI p), pow2_twice_succ by lia.
    f_equal; lia.
  - assert (Hp : 0 < 2 ^ Zpos p) by (apply Z.pow_pos_nonneg; lia).
    assert (H2 : 0 <= shr_m (iter_pos shr_1 p mrs)).
    { rewrite IH by assumption. apply Z.div_pos; lia. }
    rewrite IH by assumption. rewrite IH by assumption.
    rewrite !Z.div_div by lia.
    rewrite (Pos2Z.inj_xO p), pow2_twice by lia.
    reflexivity.
  - rewrite shr_1_m by assumption. reflexivity.
Qed.

Lemma shr_record_of_loc_m (m : Z) (l : location) :
  shr_m (shr_record_of_loc m l) = m.
Proof. destruct l as [| []]; reflexivity. Qed.

Lemma shr_m_spec (mrs : shr_record) (e k : Z) :
  0 <= shr_m mrs ->
  shr_m (fst (shr mrs e k)) = shr_m mrs / 2 ^ Z.max 0 k /\
  snd (shr mrs e k) = e + Z.max 0 k.
Proof.
  intros Hm. unfold shr. destruct k as [| p | p]; simpl fst; simpl snd.
  - rewrite Z.max_id. simpl. rewrite Z.div_1_r. lia.
  - rewrite Z.max_r by lia. split; [apply iter_shr_1_m; assumption | lia].
  - rewrite Z.max_l by lia. simpl. rewrite Z.div_1_r. lia.
Qed.

Lemma round_nearest_even_cases (m : Z) (l : location) :
  round_nearest_even m l = m \/ round_nearest_even m l = m + 1.
Proof.
  destruct l as [| []]; simpl; auto. destruct (Z.even m); auto.
Qed.

End Shift.

Lemma fexp_eq (x : Z) : fexp prec emax x = Z.max (x - 53) (-1074).
Proof. reflexivity. Qed.

Lemma shr_fexp_spec (m e : Z) (l : location) :
  0 <= m ->
  shr_m (fst (shr_fexp prec emax m e l))
    = m / 2 ^ Z.max 0 (fexp prec emax (Zdigits2 m + e) - e) /\
  snd (shr_fexp prec emax m e l)
    = e + Z.max 0 (fexp prec emax (Zdigits2 m + e) - e).
Proof.
  intros Hm. unfold shr_fexp.
  rewrite <- (shr_record_of_loc_m m l) at 3.
  apply shr_m_spec. rewrite shr_record_of_loc_m. assumption.
Qed.

(** The arithmetic of one rounding step: [M] is shifted right by [k] bits,
    possibly incremented, and renormalised. *)
Lemma rounding_step (M e m1 : Z) :
  0 < M ->
  e <= Z.max (Z.log2 M + 1 + e - 53) (-1074) ->
  let k := Z.max (Z.log2 M + 1 + e - 53) (-1074) - e in
  m1 = M / 2 ^ k \/ m1 = M / 2 ^ k + 1 ->
  let e1 := e + k in
  let k2 := Z.max 0 (Z.max (Zdigits2 m1 + e1 - 53) (-1074) - e1) in
  let m2 := m1 / 2 ^ k2 in
  let e2 := e1 + k2 in
  0 <= m2 /\
  (0 < m2 -> Z.max (Z.log2 m2 + 1 + e2 - 53) (-1074) = e2) /\
  (k < Z.log2 M + 1 -> 0 < m2) /\
  e2 <= Z.max (Z.log2 M + 1 + e - 53) (-1074) + 1.
Proof.
  intros HM Hpre k Hm1 e1 k2 m2 e2.
  assert (HL : 0 <= Z.log2 M) by apply Z.log2_nonneg.
  assert (Hk : 0 <= k) by (unfold k; lia).
  destruct (Z_le_gt_dec k (Z.log2 M)) as [Hle | Hgt].
  - (* the shifted mantissa is positive *)
    destruct (log2_div_pow2 M k HM (conj Hk Hle)) as [Hpos Hlog].
    fold k in Hm1.
    assert (Hm1pos : 0 < m1) by lia.
    assert (Hlog1 : Z.log2 m1 = Z.log2 M - k \/ Z.log2 m1 = Z.log2 M - k + 1).
    { destruct Hm1 as [-> | ->]; [left; assumption |].
      destruct (Z.log2_succ_or (M / 2 ^ k)) as [H | H];
        unfold Z.succ in H; rewrite H; lia. }
    assert (Hd1 : Zdigits2 m1 = Z.log2 m1 + 1) by (apply Zdigits2_log2; lia).
    assert (Hk2 : k2 = 0 \/ (k2 = 1 /\ Z.log2 m1 = Z.log2 M - k + 1
                             /\ Z.log2 M - k + 1 = 53)).
    { unfold k2, e1. rewrite Hd1. unfold k in *. lia. }
    destruct Hk2 as [Hk2 | (Hk2 & Hl1 & H53)].
    + assert (Hm2 : m2 = m1) by (unfold m2; rewrite Hk2; apply Z.div_1_r).
      rewrite Hm2. unfold e2. rewrite Hk2.
      unfold k2, e1 in Hk2. rewrite Hd1 in Hk2. unfold e1, k in *.
      repeat split; try lia.
    + assert (H1le : 0 <= 1 <= Z.log2 m1) by lia.
      destruct (log2_div_pow2 m1 1 Hm1pos H1le) as [Hpos2 Hlog2].
      unfold m2, e2. rewrite Hk2. unfold e1, k in *.
      repeat split; try lia.
  - (* everything is shifted out *)
    assert (Hz : M / 2 ^ k = 0) by (apply div_pow2_small; lia).
    fold k in Hm1. rewrite Hz in Hm1.
    assert (He1 : e1 = -1074) by (unfold e1, k in *; lia).
    assert (Hk2 : k2 = 0).
    { unfold k2. rewrite He1. destruct Hm1 as [-> | ->]; reflexivity. }
    assert (Hm2 : m2 = m1) by (unfold m2; rewrite Hk2; apply Z.div_1_r).
    rewrite Hm2. unfold e2. rewrite Hk2, He1.
    destruct Hm1 as [-> | ->]; simpl; repeat split; try lia.
Qed.

Lemma binary_round_aux_rounded (s : bool) (m e : Z) (l : location) :
  rounded s (binary_round_aux prec emax s m e l).
Proof.
  unfold binary_round_aux.
  destruct (shr_fexp prec emax m e l) as [mrs1 e1].
  destruct (shr_fexp prec emax _ e1 loc_Exact) as [mrs2 e2].
  destruct (shr_m mrs2); [constructor | | constructor].
  destruct (e2 <=? emax - prec); constructor.
Qed.

Lemma binary_round_aux_spec (s : bool) (m : positive) (e : Z) (l : location) :
  e <= fexp prec emax (Zpos (digits2_pos m) + e) ->
  let r := binary_round_aux prec emax s (Zpos m) e l in
  valid_binary r = true /\
  r <> S754_nan /\
  (fexp prec emax (Zpos (digits2_pos m) + e) - e < Zpos (digits2_pos m) ->
   r <> S754_zero s) /\
  (Zpos (digits2_pos m) + e <= 1023 -> r <> S754_infinity s).
Proof.
  rewrite digits2_log2, fexp_eq. intros Hpre.
  unfold binary_round_aux.
  destruct (shr_fexp_spec (Zpos m) e l) as [Hm1 He1]; [lia |].
  destruct (shr_fexp prec emax (Zpos m) e l) as [mrs1 e1].
  simpl fst in Hm1; simpl snd in He1.
  simpl Zdigits2 in Hm1, He1. rewrite digits2_log2, fexp_eq in Hm1, He1.
  rewrite Z.max_r in Hm1, He1 by lia.
  set (m1 := round_nearest_even (shr_m mrs1) (loc_of_shr_record mrs1)).
  assert (Hc : m1 = Zpos m / 2 ^ (Z.max (Z.log2 (Zpos m) + 1 + e - 53) (-1074) - e)
               \/ m1 = Zpos m / 2 ^ (Z.max (Z.log2 (Zpos m) + 1 + e - 53) (-1074) - e) + 1).
  { rewrite <- Hm1. apply round_nearest_even_cases. }
  destruct (rounding_step (Zpos m) e m1 (Pos2Z.is_pos m) Hpre Hc)
    as (Hnn & Hcan & Hnz & Hfin).
  assert (Hm1nn : 0 <= m1).
  { assert (0 <= Zpos m / 2 ^ (Z.max (Z.log2 (Zpos m) + 1 + e - 53) (-1074) - e)).
    { apply Z.div_pos; [lia | apply Z.pow_pos_nonneg; lia]. }
    lia. }
  destruct (shr_fexp_spec m1 e1 loc_Exact Hm1nn) as [Hm2 He2].
  destruct (shr_fexp prec emax m1 e1 loc_Exact) as [mrs2 e2].
  simpl fst in Hm2; simpl snd in He2.
  rewrite fexp_eq in Hm2, He2. rewrite He1 in Hm2, He2.
  rewrite <- Hm2 in Hnn, Hcan, Hnz. rewrite <- He2 in Hcan, Hfin.
  destruct (shr_m mrs2) as [| m2 | m2].
  - repeat split; try discriminate. intros H. apply Hnz in H. lia.
  - specialize (Hcan (Pos2Z.is_pos m2)).
    change (emax - prec) with 971.
    destruct (Z.leb_spec e2 971) as [Hle | Hgt].
    + repeat split; try discriminate.
      simpl. unfold bounded, canonical_mantissa.
      rewrite digits2_log2, fexp_eq.
      apply andb_true_intro. split; [apply Z.eqb_eq; lia | apply Z.leb_le].
      change (emax - prec) with 971. lia.
    + repeat split; try discriminate. intros H. lia.
  - lia.
Qed.

Lemma iter_xO_pow2 (m d : positive) :
  Zpos (Pos.iter xO m d) = Zpos m * 2 ^ Zpos d.
Proof.
  induction d as [| d IH] using Pos.peano_ind.
  - simpl. lia.
  - rewrite Pos.iter_succ, Pos2Z.inj_xO, IH, Pos2Z.inj_succ.
    rewrite Z.pow_succ_r by lia. lia.
Qed.

Lemma shl_align_spec (mx : positive) (ex ex' : Z) :
  snd (shl_align mx ex ex') = Z.min ex ex' /\
  Zpos (fst (shl_align mx ex ex')) = Zpos mx * 2 ^ (ex - Z.min ex ex').
Proof.
  unfold shl_align. destruct (ex' - ex) as [| d | d] eqn:E; simpl.
  - rewrite Z.min_l by lia. rewrite Z.sub_diag. simpl. lia.
  - rewrite Z.min_l by lia. rewrite Z.sub_diag. simpl. lia.
  - rewrite Z.min_r by lia. split; [reflexivity |].
    rewrite iter_xO_pow2. replace (ex - ex') with (Zpos d) by lia. reflexivity.
Qed.

Lemma binary_round_spec (s : bool) (m : positive) (e : Z) :
  let r := binary_round prec emax s m e in
  valid_binary r = true /\
  rounded s r /\
  r <> S754_nan /\
  (-1074 <= e -> r <> S754_zero s) /\
  (Z.log2 (Zpos m) + 1 + e <= 1023 -> r <> S754_infinity s).
Proof.
  unfold binary_round.
  destruct (shl_align_spec m e (fexp prec emax (Zpos (digits2_pos m) + e)))
    as [He Hm].
  destruct (shl_align m e _) as [mz ez]. simpl fst in Hm; simpl snd in He.
  rewrite digits2_log2, fexp_eq in He, Hm.
  assert (Hlog : Z.log2 (Zpos mz) = Z.log2 (Zpos m) + (e - ez)).
  { rewrite Hm, <- He. rewrite Z.log2_mul_pow2; lia. }
  assert (Hpre : ez <= fexp prec emax (Zpos (digits2_pos mz) + ez)).
  { rewrite digits2_log2, fexp_eq, Hlog. lia. }
  destruct (binary_round_aux_spec s mz ez loc_Exact Hpre)
    as (Hv & Hnan & Hz & Hi).
  rewrite digits2_log2, fexp_eq, Hlog in Hz. rewrite digits2_log2, Hlog in Hi.
  split; [exact Hv |]. split; [apply binary_round_aux_rounded |].
  split; [exact Hnan |].
  pose proof (Z.log2_nonneg (Zpos m)) as Hnn.
  split; intros H; [apply Hz | apply Hi]; lia.
Qed.

(** Shapes of the results of the operations. *)

Lemma rounded_sign_clear (x : spec_float) : rounded false x -> sign_clear x = true.
Proof. intros []; reflexivity. Qed.

Lemma sign_clear_not_negative (x : spec_float) :
  sign_clear x = true -> not_negative x = true.
Proof. destruct x as [[] | [] | | [] ? ?]; simpl; congruence. Qed.

Lemma mul_self_sign_clear (x : spec_float) : sign_clear (SF64mul x x) = true.
Proof.
  destruct x as [[] | [] | | [] m e]; try reflexivity;
    apply rounded_sign_clear, binary_round_aux_rounded.
Qed.

Lemma mul_not_negative (x y : spec_float) :
  not_negative x = true -> sign_clear y = true ->
  not_negative (SF64mul x y) = true.
Proof.
  destruct x as [[] | [] | | [] mx ex], y as [[] | [] | | [] my ey];
    simpl; try congruence; intros _ _.
  apply sign_clear_not_negative, rounded_sign_clear, binary_round_aux_rounded.
Qed.

Lemma mul_sign_clear (x y : spec_float) :
  sign_clear x = true -> sign_clear y = true ->
  sign_clear (SF64mul x y) = true.
Proof.
  destruct x as [[] | [] | | [] mx ex], y as [[] | [] | | [] my ey];
    simpl; try congruence; intros _ _.
  apply rounded_sign_clear, binary_round_aux_rounded.
Qed.

Lemma div_rounded (sx sy : bool) (mx my : positive) (ex ey : Z) :
  rounded (xorb sx sy)
    (SF64div (S754_finite sx mx ex) (S754_finite sy my ey)).
Proof.
  unfold SF64div, SFdiv.
  destruct (SFdiv_core_binary prec emax (Zpos mx) ex (Zpos my) ey) as [[mz ez] lz].
  apply binary_round_aux_rounded.
Qed.

Lemma div_sign_clear (x : spec_float) (my : positive) (ey : Z) :
  sign_clear x = true ->
  sign_clear (SF64div x (S754_finite false my ey)) = true.
Proof.
  destruct x as [[] | [] | | [] mx ex]; try (simpl; congruence); intros _.
  apply rounded_sign_clear. apply (div_rounded false false).
Qed.

Lemma div_not_negative (x : spec_float) (my : positive) (ey : Z) :
  not_negative x = true ->
  not_negative (SF64div x (S754_finite false my ey)) = true.
Proof.
  destruct x as [[] | [] | | [] mx ex]; try (simpl; congruence); intros _.
  apply sign_clear_not_negative, rounded_sign_clear.
  apply (div_rounded false false).
Qed.

Lemma add_sign_clear (x y : spec_float) :
  not_negative x = true -> sign_clear y = true ->
  sign_clear (SF64add x y) = true.
Proof.
  destruct x as [[] | [] | | [] mx ex], y as [[] | [] | | [] my ey];
    simpl; try congruence; intros _ _.
  apply rounded_sign_clear. apply binary_round_spec.
Qed.

Lemma sqrt_sign_clear (x : spec_float) :
  sign_clear x = true -> sign_clear (SF64sqrt x) = true.
Proof.
  destruct x as [[] | [] | | [] mx ex]; simpl; try congruence; intros _.
  unfold SF64sqrt, SFsqrt.
  destruct (SFsqrt_core_binary prec emax (Zpos mx) ex) as [[mz ez] lz].
  apply rounded_sign_clear, binary_round_aux_rounded.
Qed.

Lemma valid_finite (s : bool) (m : positive) (e : Z) :
  valid_binary (S754_finite s m e) = true ->
  -1074 <= e <= 971 /\ Zpos m < 2 ^ 53.
Proof.
  intros H. cbn [SpecFloat.valid_binary] in H.
  unfold bounded, canonical_mantissa in H.
  rewrite digits2_log2, fexp_eq in H. change (emax - prec) with 971 in H.
  apply andb_prop in H. destruct H as [Hc Hb].
  apply Z.eqb_eq in Hc. apply Z.leb_le in Hb.
  pose proof (Z.log2_nonneg (Zpos m)).
  split; [lia |]. apply Z.log2_lt_pow2; lia.
Qed.

Lemma binary_normalize_not_negative (m e : Z) :
  0 <= m -> sign_clear (binary_normalize prec emax m e false) = true.
Proof.
  destruct m as [| p | p]; intros H; try lia; [reflexivity |].
  cbn [binary_normalize]. apply rounded_sign_clear, binary_round_spec.
Qed.

Lemma leb_one_cases (s : bool) (m : positive) (e : Z) :
  SFleb (S754_finite s m e) SFone = true ->
  s = true \/ e < -52 \/ (e = -52 /\ (m <= 4503599627370496)%positive).
Proof.
  destruct s; [auto |]. intros H. right.
  unfold SFleb, SFone, SFcompare in H.
  destruct (Z.compare_spec e (-52)) as [Heq | Hlt | Hgt].
  - right. split; [exact Heq |].
    unfold Pos.le, Pos.compare.
    destruct (Pos.compare_cont Eq m 4503599627370496); discriminate.
  - left. assumption.
  - discriminate H.
Qed.

Lemma sub_finite_unfold (sx sy : bool) (mx my : positive) (ex ey : Z) :
  SF64sub (S754_finite sx mx ex) (S754_finite sy my ey) =
  binary_normalize prec emax
    (cond_Zopp sx (Zpos (fst (shl_align mx ex (Z.min ex ey))))
     - cond_Zopp sy (Zpos (fst (shl_align my ey (Z.min ex ey)))))
    (Z.min ex ey) false.
Proof. reflexivity. Qed.

Lemma add_finite_unfold (sx sy : bool) (mx my : positive) (ex ey : Z) :
  SF64add (S754_finite sx mx ex) (S754_finite sy my ey) =
  binary_normalize prec emax
    (cond_Zopp sx (Zpos (fst (shl_align mx ex (Z.min ex ey))))
     + cond_Zopp sy (Zpos (fst (shl_align my ey (Z.min ex ey)))))
    (Z.min ex ey) false.
Proof. reflexivity. Qed.

Lemma pow2_53 : 2 ^ 53 = 9007199254740992.
Proof. reflexivity. Qed.

Lemma one_minus_sign_clear (x : spec_float) :
  valid_binary x = true ->
  SFleb x SFone = true ->
  sign_clear (SF64sub SFone x) = true.
Proof.
  intros Hv Hle.
  destruct x as [sx | sx | | sx mx ex].
  - reflexivity.
  - destruct sx; [reflexivity | discriminate Hle].
  - discriminate Hle.
  - apply valid_finite in Hv. destruct Hv as [He Hm].
    apply leb_one_cases in Hle.
    unfold SFone. rewrite sub_finite_unfold.
    apply binary_normalize_not_negative.
    destruct (shl_align_spec 4503599627370496 (-52) (Z.min (-52) ex)) as [_ H1].
    destruct (shl_align_spec mx ex (Z.min (-52) ex)) as [_ H2].
    set (a := Zpos (fst (shl_align 4503599627370496 (-52) (Z.min (-52) ex)))) in *.
    set (b := Zpos (fst (shl_align mx ex (Z.min (-52) ex)))) in *.
    assert (Ha : 0 < a) by apply Pos2Z.is_pos.
    assert (Hb : 0 < b) by apply Pos2Z.is_pos.
    destruct sx; unfold cond_Zopp.
    + clear - Ha Hb. lia.
    + destruct Hle as [Hf | [Hlt | [Heq Hmx]]]; [discriminate Hf | |].
      * replace (Z.min (-52) (Z.min (-52) ex)) with ex in H1 by lia.
        replace (Z.min ex (Z.min (-52) ex)) with ex in H2 by lia.
        rewrite Z.sub_diag, Z.pow_0_r in H2.
        assert (Hp : 2 ^ 1 <= 2 ^ (-52 - ex)) by (apply Z.pow_le_mono_r; lia).
        rewrite Z.pow_1_r in Hp. rewrite pow2_53 in Hm.
        set (t := 2 ^ (-52 - ex)) in *. clearbody a b t. clear - H1 H2 Hp Hm.
        lia.
      * subst ex.
        replace (Z.min (-52) (Z.min (-52) (-52))) with (-52) in * by reflexivity.
        rewrite !Z.sub_diag, Z.pow_0_r in *. clearbody a b. clear - H1 H2 Hmx.
        apply Pos2Z.pos_le_pos in Hmx. lia.
Qed.

Lemma rounded_false_nonzero (x : spec_float) :
  rounded false x -> x <> S754_zero false -> SFeqb x SFzero = false.
Proof. intros [] H; try reflexivity. congruence. Qed.

Lemma one_plus_nonzero (q : spec_float) :
  valid_binary q = true -> sign_clear q = true ->
  SFeqb (SF64add SFone q) SFzero = false.
Proof.
  intros Hv Hs.
  destruct q as [sq | sq | | sq mq eq].
  - reflexivity.
  - destruct sq; [discriminate Hs | reflexivity].
  - reflexivity.
  - destruct sq; [discriminate Hs |].
    apply valid_finite in Hv. destruct Hv as [He _].
    unfold SFone. rewrite add_finite_unfold. unfold cond_Zopp.
    rewrite <- Pos2Z.inj_add. cbn [binary_normalize].
    destruct (binary_round_spec false
                (fst (shl_align 4503599627370496 (-52) (Z.min (-52) eq))
                 + fst (shl_align mq eq (Z.min (-52) eq))) (Z.min (-52) eq))
      as (_ & Hr & _ & Hz & _).
    apply rounded_false_nonzero; [exact Hr | apply Hz; lia].
Qed.

Lemma add_not_negative_zero (x y : spec_float) :
  valid_binary x = true -> valid_binary y = true -> sign_clear y = true ->
  SF64add x y <> S754_zero true.
Proof.
  intros Hx Hy Hs.
  destruct y as [sy | sy | | sy my ey].
  - destruct sy; [discriminate Hs |].
    destruct x as [[] | [] | | sx mx ex]; discriminate.
  - destruct sy; [discriminate Hs |].
    destruct x as [[] | [] | | sx mx ex]; discriminate.
  - destruct x as [[] | [] | | sx mx ex]; discriminate.
  - destruct sy; [discriminate Hs |].
    destruct x as [sx | sx | | sx mx ex]; try discriminate.
    apply valid_finite in Hx, Hy. destruct Hx as [Hex _], Hy as [Hey _].
    rewrite add_finite_unfold.
    destruct (cond_Zopp sx (Zpos (fst (shl_align mx ex (Z.min ex ey))))
              + cond_Zopp false (Zpos (fst (shl_align my ey (Z.min ex ey)))))
      as [| p | p]; cbn [binary_normalize]; try discriminate.
    + destruct (binary_round_spec false p (Z.min ex ey)) as (_ & Hr & _).
      intros E. rewrite E in Hr. inversion Hr.
    + destruct (binary_round_spec true p (Z.min ex ey)) as (_ & _ & _ & Hz & _).
      apply Hz. lia.
Qed.

(** * Primitive floats through their specification *)

(** Tests on primitive floats, read on their specification. *)

Lemma SFeqb_refl_finite (s : bool) (m : positive) (e : Z) :
  SFeqb (S754_finite s m e) (S754_finite s m e) = true.
Proof.
  unfold SFeqb, SFcompare.
  rewrite Z.compare_refl, Pos.compare_cont_refl. destruct s; reflexivity.
Qed.

Lemma is_nan_SF (x : float) :
  is_nan x = match Prim2SF x with S754_nan => true | _ => false end.
Proof.
  unfold is_nan. rewrite eqb_spec.
  destruct (Prim2SF x) as [[] | [] | | s m e]; try reflexivity.
  rewrite SFeqb_refl_finite. reflexivity.
Qed.

Lemma is_infinity_SF (x : float) :
  is_infinity x = match Prim2SF x with S754_infinity _ => true | _ => false end.
Proof.
  unfold is_infinity. rewrite eqb_spec, abs_spec.
  change (Prim2SF infinity) with (S754_infinity false).
  destruct (Prim2SF x) as [[] | [] | | s m e]; reflexivity.
Qed.

Lemma eqb_zero_SF (x : float) :
  (x =? 0)%float = SFeqb (Prim2SF x) SFzero.
Proof. rewrite eqb_spec. reflexivity. Qed.

Lemma ltb_zero_SF (x : float) :
  (x <? 0)%float = negb (not_negative (Prim2SF x)).
Proof.
  rewrite ltb_spec. change (Prim2SF 0) with (S754_zero false).
  destruct (Prim2SF x) as [[] | [] | | [] m e]; reflexivity.
Qed.

Lemma leb_zero_SF (x : float) :
  (0 <=? x)%float = true -> not_negative (Prim2SF x) = true.
Proof.
  rewrite leb_spec. change (Prim2SF 0) with (S754_zero false).
  destruct (Prim2SF x) as [[] | [] | | [] m e]; try reflexivity; discriminate.
Qed.

Lemma ltb_leb (x y : float) : (x <? y)%float = true -> (x <=? y)%float = true.
Proof.
  rewrite ltb_spec, leb_spec. unfold SFltb, SFleb.
  destruct (SFcompare (Prim2SF x) (Prim2SF y)) as [[] |]; congruence.
Qed.

Lemma sign_clear_ltb_zero (x : float) :
  sign_clear (Prim2SF x) = true -> (x <? 0)%float = false.
Proof.
  intros H. rewrite ltb_zero_SF, (sign_clear_not_negative _ H). reflexivity.
Qed.

Lemma sign_clear_leb_zero (x : float) :
  sign_clear (Prim2SF x) = true -> is_nan x = false -> (0 <=? x)%float = true.
Proof.
  rewrite is_nan_SF, leb_spec. change (Prim2SF 0) with (S754_zero false).
  destruct (Prim2SF x) as [[] | [] | | [] m e]; try reflexivity; discriminate.
Qed.

Lemma div_sign_clear_gen (x y : spec_float) :
  sign_clear x = true -> sign_clear y = true ->
  sign_clear (SF64div x y) = true.
Proof.
  intros Hx Hy.
  destruct x as [[] | [] | | [] mx ex]; try discriminate Hx;
    destruct y as [[] | [] | | [] my ey]; try discriminate Hy;
    try reflexivity.
  apply rounded_sign_clear. apply (div_rounded false false).
Qed.

(** Conversion of a positive int that fits. *)

Lemma float_of_Z_positive (n : Z) :
  0 < n < 2 ^ 1023 ->
  exists m e, Prim2SF (Py.float_of_Z n) = S754_finite false m e.
Proof.
  intros [Hpos Hlt]. destruct n as [| p | p]; try lia.
  unfold Py.float_of_Z. cbn [binary_normalize].
  destruct (binary_round_spec false p 0) as (Hv & Hr & Hn & Hz & Hi).
  assert (Hlog : Z.log2 (Zpos p) + 1 + 0 <= 1023).
  { apply Z.log2_lt_pow2 in Hlt; lia. }
  rewrite Prim2SF_SF2Prim by exact Hv.
  inversion Hr as [E | E | E | m e E].
  - congruence.
  - exfalso. apply Hz; [lia | congruence].
  - exfalso. apply Hi; [exact Hlog | congruence].
  - exists m, e. reflexivity.
Qed.

Lemma float_of_int_positive (n : Z) :
  0 < n < 2 ^ 1023 -> Py.float_of_int n = Ok (Py.float_of_Z n).
Proof.
  intros H. destruct (float_of_Z_positive n H) as (m & e & E).
  unfold Py.float_of_int. rewrite is_infinity_SF, E. reflexivity.
Qed.

Lemma truediv_int_positive (a : float) (n : Z) :
  0 < n < 2 ^ 1023 ->
  Py.truediv_int a n = Ok (a / Py.float_of_Z n)%float.
Proof.
  intros H. unfold Py.truediv_int. rewrite float_of_int_positive by exact H.
  destruct (float_of_Z_positive n H) as (m & e & E).
  cbn [bind]. unfold Py.truediv. rewrite eqb_zero_SF, E. reflexivity.
Qed.

Lemma div_float_of_Z_sign_clear (a : float) (n : Z) :
  0 < n < 2 ^ 1023 ->
  sign_clear (Prim2SF a) = true ->
  sign_clear (Prim2SF (a / Py.float_of_Z n)) = true.
Proof.
  intros H Ha. destruct (float_of_Z_positive n H) as (m & e & E).
  rewrite div_spec, E. apply div_sign_clear. exact Ha.
Qed.

Lemma div_float_of_Z_not_negative (a : float) (n : Z) :
  0 < n < 2 ^ 1023 ->
  not_negative (Prim2SF a) = true ->
  not_negative (Prim2SF (a / Py.float_of_Z n)) = true.
Proof.
  intros H Ha. destruct (float_of_Z_positive n H) as (m & e & E).
  rewrite div_spec, E. apply div_not_negative. exact Ha.
Qed.

(** The two powers. *)

Lemma square_sign_clear (z : float) : sign_clear (Prim2SF (z * z)) = true.
Proof. rewrite mul_spec. apply mul_self_sign_clear. Qed.

Lemma pow2_finite_square (z : float) :
  is_infinity (z * z) = false -> Py.pow2 z = Ok (z * z)%float.
Proof.
  intros H. unfold Py.pow2. rewrite H.
  rewrite is_infinity_SF, mul_spec in H.
  rewrite is_nan_SF, is_infinity_SF.
  destruct (Prim2SF z) as [s | s | | s m e] eqn:E; try reflexivity.
  - discriminate H.
  - f_equal. apply Prim2SF_inj. rewrite mul_spec, E. reflexivity.
Qed.

Lemma pow_half_sign_clear (r : float) :
  sign_clear (Prim2SF r) = true -> Py.pow_half r = Py.Real (sqrt r).
Proof.
  intros H. unfold Py.pow_half.
  rewrite is_nan_SF, is_infinity_SF, eqb_zero_SF, ltb_zero_SF.
  destruct (Prim2SF r) as [[] | [] | | [] m e] eqn:E; try discriminate H;
    cbn [SFeqb SFcompare SFzero not_negative negb]; try reflexivity;
    f_equal; apply Prim2SF_inj; rewrite sqrt_spec, E; reflexivity.
Qed.

(** The denominator [1 + z**2/n] is never zero. *)

Lemma denominator_nonzero (q : float) :
  sign_clear (Prim2SF q) = true -> ((1 + q) =? 0)%float = false.
Proof.
  intros H. rewrite eqb_zero_SF, add_spec.
  change (Prim2SF 1) with SFone.
  apply one_plus_nonzero; [apply Prim2SF_valid | exact H].
Qed.

Lemma sample_size_bounds (n : Z) :
  0 < n -> 4 * n ^ 2 < 2 ^ 1023 ->
  0 < n < 2 ^ 1023 /\ 0 < 2 * n < 2 ^ 1023 /\ 0 < 4 * n ^ 2 < 2 ^ 1023.
Proof.
  intros Hn Hb. rewrite Z.pow_2_r in *.
  assert (n * 1 <= n * n) by (apply Z.mul_le_mono_nonneg_l; lia).
  set (t := 2 ^ 1023) in *. clearbody t. lia.
Qed.

Lemma radicand_never_negative_zero (p : float) (n : Z) (z : float) :
  0 < n -> 4 * n ^ 2 < 2 ^ 1023 ->
  (radicand p n z <? 0)%float = false ->
  sign_clear (Prim2SF (radicand p n z)) = true.
Proof.
  intros Hn Hb Hr. destruct (sample_size_bounds n Hn Hb) as (_ & _ & H4).
  rewrite ltb_zero_SF in Hr. apply negb_false_iff in Hr.
  assert (Hz : Prim2SF (radicand p n z) <> S754_zero true).
  { unfold radicand. rewrite add_spec.
    apply add_not_negative_zero; try apply Prim2SF_valid.
    apply div_float_of_Z_sign_clear; [exact H4 | apply square_sign_clear]. }
  destruct (Prim2SF (radicand p n z)) as [[] | [] | | [] m e];
    try reflexivity; try discriminate Hr.
  congruence.
Qed.

Lemma wilson_interval_steps (p : float) (n : Z) (z : float) :
  0 < n -> 4 * n ^ 2 < 2 ^ 1023 ->
  is_infinity (z * z) = false ->
  sign_clear (Prim2SF (radicand p n z)) = true ->
  wilson_interval p n z = Ok (wilson_spec p n z).
Proof.
  intros Hn Hb Hz Hs.
  destruct (sample_size_bounds n Hn Hb) as (H1 & H2 & H4).
  unfold radicand in Hs.
  unfold wilson_interval.
  rewrite (pow2_finite_square z Hz). cbn [bind].
  rewrite !truediv_int_positive by assumption. cbn [bind].
  unfold Py.truediv.
  rewrite (denominator_nonzero (z * z / Py.float_of_Z n)%float)
    by (apply div_float_of_Z_sign_clear; [exact H1 | apply square_sign_clear]).
  cbn [bind].
  rewrite (pow_half_sign_clear _ Hs).
  cbn [Py.mul Py.div bind]. unfold Py.truediv.
  rewrite (denominator_nonzero (z * z / Py.float_of_Z n)%float)
    by (apply div_float_of_Z_sign_clear; [exact H1 | apply square_sign_clear]).
  reflexivity.
Qed.

Lemma radicand_in_unit_interval (p : float) (n : Z) (z : float) :
  0 < n -> 4 * n ^ 2 < 2 ^ 1023 ->
  (0 <=? p)%float = true -> (p <=? 1)%float = true ->
  sign_clear (Prim2SF (radicand p n z)) = true.
Proof.
  intros Hn Hb H0 H1p.
  destruct (sample_size_bounds n Hn Hb) as (H1 & _ & H4).
  unfold radicand. rewrite add_spec. apply add_sign_clear.
  - apply div_float_of_Z_not_negative; [exact H1 |].
    rewrite mul_spec. apply mul_not_negative.
    + apply leb_zero_SF. exact H0.
    + rewrite sub_spec. change (Prim2SF 1) with SFone.
      apply one_minus_sign_clear; [apply Prim2SF_valid |].
      rewrite leb_spec in H1p. exact H1p.
  - apply div_float_of_Z_sign_clear; [exact H4 | apply square_sign_clear].
Qed.

Lemma zero_sample_size_divides_by_zero (p z : float) :
  is_infinity (z * z) = false ->
  wilson_interval p 0 z = Raise ZeroDivisionError.
Proof.
  intros Hz. unfold wilson_interval.
  rewrite (pow2_finite_square z Hz). reflexivity.
Qed.

Lemma ltb_not_nan (x y : float) : (x <? y)%float = true -> is_nan x = false.
Proof.
  rewrite ltb_spec, is_nan_SF. unfold SFltb.
  destruct (Prim2SF x); try reflexivity. discriminate.
Qed.

Lemma fmax_zero_lower (a : float) : (0 <=? fmax 0 a)%float = true.
Proof.
  unfold fmax. destruct (0 <? a)%float eqn:E; [apply ltb_leb; exact E | reflexivity].
Qed.

Lemma fmin_one_upper (b : float) : (fmin 1 b <=? 1)%float = true.
Proof.
  unfold fmin. destruct (b <? 1)%float eqn:E; [apply ltb_leb; exact E | reflexivity].
Qed.

Lemma fmin_one_lower (b : float) :
  sign_clear (Prim2SF b) = true -> (0 <=? fmin 1 b)%float = true.
Proof.
  intros H. unfold fmin. destruct (b <? 1)%float eqn:E; [| reflexivity].
  apply sign_clear_leb_zero; [exact H | exact (ltb_not_nan _ _ E)].
Qed.

(** Signs of the centre and of the half-width. *)

Lemma denominator_sign_clear (q : float) :
  sign_clear (Prim2SF q) = true -> sign_clear (Prim2SF (1 + q)) = true.
Proof.
  intros H. rewrite add_spec. apply add_sign_clear; [reflexivity | exact H].
Qed.

Lemma upper_sum_sign_clear (p : float) (n : Z) (z : float) :
  0 < n -> 4 * n ^ 2 < 2 ^ 1023 ->
  (0 <=? p)%float = true -> (p <=? 1)%float = true ->
  sign_clear (Prim2SF z) = true ->
  let z2 := (z * z)%float in
  let denom := (1 + z2 / Py.float_of_Z n)%float in
  let center := ((p + z2 / Py.float_of_Z (2 * n)) / denom)%float in
  let half :=
    (z * sqrt (p * (1 - p) / Py.float_of_Z n + z2 / Py.float_of_Z (4 * n ^ 2))
     / denom)%float in
  sign_clear (Prim2SF (center + half)) = true.
Proof.
  intros Hn Hb H0 H1p Hz z2 denom center half.
  destruct (sample_size_bounds n Hn Hb) as (H1 & H2 & H4).
  assert (Hd : sign_clear (Prim2SF denom) = true).
  { apply denominator_sign_clear, div_float_of_Z_sign_clear;
      [exact H1 | apply square_sign_clear]. }
  rewrite add_spec. apply add_sign_clear.
  - apply sign_clear_not_negative. unfold center. rewrite div_spec.
    apply div_sign_clear_gen; [| exact Hd].
    rewrite add_spec. apply add_sign_clear; [apply leb_zero_SF; exact H0 |].
    apply div_float_of_Z_sign_clear; [exact H2 | apply square_sign_clear].
  - unfold half. rewrite div_spec. apply div_sign_clear_gen; [| exact Hd].
    rewrite mul_spec. apply mul_sign_clear; [exact Hz |].
    rewrite sqrt_spec. apply sqrt_sign_clear.
    exact (radicand_in_unit_interval p n z Hn Hb H0 H1p).
Qed.

Lemma default_arguments_fit :
  0 < default_n /\ 4 * default_n ^ 2 < 2 ^ 1023 /\
  is_infinity (default_z * default_z) = false /\
  sign_clear (Prim2SF default_z) = true.
Proof. repeat split; vm_compute; reflexivity. Qed.

Lemma wilson_default_in_unit_interval (p : float) :
  (0 <=? p)%float = true -> (p <=? 1)%float = true ->
  wilson_interval_default p = Ok (wilson_spec p default_n default_z) /\
  (0 <=? fst (wilson_spec p default_n default_z))%float = true /\
  (0 <=? snd (wilson_spec p default_n default_z))%float = true /\
  (snd (wilson_spec p default_n default_z) <=? 1)%float = true.
Proof.
  intros H0 H1. destruct default_arguments_fit as (Hn & Hb & Hz & Hs).
  split.
  - apply wilson_interval_steps; try assumption.
    apply radicand_in_unit_interval; assumption.
  - unfold wilson_spec. cbn [fst snd].
    split; [apply fmax_zero_lower |].
    split; [| apply fmin_one_upper].
    apply fmin_one_lower.
    exact (upper_sum_sign_clear p default_n default_z Hn Hb H0 H1 Hs).
Qed.

Lemma argmax_from_range (l : list float) :
  forall best besti i,
    0 <= besti < i ->
    0 <= argmax_from best besti i l < i + Z.of_nat (List.length l).
Proof.
  induction l as [| x tl IH]; intros best besti i H; cbn [argmax_from List.length].
  - lia.
  - rewrite Nat2Z.inj_succ.
    destruct (x <=? best)%float.
    + specialize (IH best besti (i + 1)). lia.
    + destruct (is_nan x); [lia |].
      specialize (IH x i (i + 1)). lia.
Qed.

Lemma np_argmax_range (l : list float) (i : Z) :
  np_argmax l = Ok i -> 0 <= i < Z.of_nat (List.length l).
Proof.
  destruct l as [| x tl]; [discriminate |].
  unfold np_argmax. intros H. injection H as <-.
  cbn [List.length]. rewrite Nat2Z.inj_succ.
  destruct (is_nan x); [lia |].
  pose proof (argmax_from_range tl x 0 1). lia.
Qed.

Lemma np_argmax_nonempty (x : float) (tl : list float) :
  exists i, np_argmax (x :: tl) = Ok i.
Proof. eexists. reflexivity. Qed.

Lemma index_in_range {A : Type} (l : list A) (i : Z) :
  0 <= i < Z.of_nat (List.length l) ->
  exists a, Py.index l i = Ok a /\ nth_error l (Z.to_nat i) = Some a.
Proof.
  intros H. unfold Py.index.
  destruct (Z.ltb_spec i 0) as [Hneg | _]; [lia |].
  destruct (Z.leb_spec 0 i) as [_ | Hneg]; [| lia].
  destruct (Z.ltb_spec i (Z.of_nat (List.length l))) as [_ | Hge]; [| lia].
  cbn [andb].
  destruct (nth_error l (Z.to_nat i)) as [a |] eqn:E.
  - exists a. split; reflexivity.
  - apply nth_error_None in E. lia.
Qed.

Lemma index_head {A : Type} (x : A) (l : list A) :
  Py.index (x :: l) 0 = Ok x.
Proof.
  destruct (index_in_range (x :: l) 0) as (a & Ha & Hn).
  - cbn [List.length]. lia.
  - rewrite Ha. cbn in Hn. congruence.
Qed.

Lemma wilson_default_at_070 :
  wilson_interval_default 0.70 =
    Ok (0.60414961567188041, 0.78105246133771877)%float.
Proof. vm_compute. reflexivity. Qed.

Lemma wilson_default_at_075 :
  exists lo hi, wilson_interval_default 0.75 = Ok (lo, hi).
Proof. eexists; eexists. vm_compute. reflexivity. Qed.

Lemma heuristic_index_range (req : PredictRequest) :
  exists idx, classify None req = Ok (idx, 0.70%float) /\ 0 <= idx <= 3.
Proof.
  unfold classify.
  destruct (Py.truthy (language_generation req)); [exists 2; split; [reflexivity | lia] |].
  destruct (3 <=? _); [exists 0; split; [reflexivity | lia] |].
  destruct (_ && _); [exists 3 | exists 1]; split; (reflexivity || lia).
Qed.

Lemma label_lookup (idx : Z) :
  0 <= idx <= 3 ->
  exists lab, Py.index LABELS idx = Ok lab /\
              nth_error LABELS (Z.to_nat idx) = Some lab.
Proof.
  intros H. apply index_in_range. cbn. lia.
Qed.

Lemma predict_from_classification
  (m : option Artifact) (req : PredictRequest) (idx : Z) (p lo hi : float) :
  classify m req = Ok (idx, p) ->
  wilson_interval_default p = Ok (lo, hi) ->
  0 <= idx <= 3 ->
  exists lab,
    predict m req =
      Ok {| label := lab; avg_confidence := p; ucl := hi; lcl := lo |} /\
    nth_error LABELS (Z.to_nat idx) = Some lab.
Proof.
  intros Hc Hw Hi. destruct (label_lookup idx Hi) as (lab & Hl & Hn).
  exists lab. split; [| exact Hn].
  unfold predict. rewrite Hc. cbn [bind]. rewrite Hw. cbn [bind].
  rewrite Hl. reflexivity.
Qed.

(** * Properties *)

(** ** Heuristic mode *)

Lemma valid_request_bits (req : PredictRequest) :
  valid_request req ->
  bit (language_generation req) /\
  bit (are_autonomous_decisions_required req) /\
  bit (is_reasoning_required req) /\
  bit (tool_integration req) /\
  bit (dynamic_goals req) /\
  bit (can_specify_business_rules req) /\
  bit (are_you_building_learning_system req).
Proof.
  unfold valid_request, fields. intros H.
  repeat match type of H with
         | Forall _ (_ :: _) =>
             let Hb := fresh "Hb" in
             apply Forall_cons_iff in H; destruct H as [Hb H]
         end.
  repeat split; assumption.
Qed.

Lemma truthy_bit (n : Z) : bit n -> Py.truthy n = (n =? 1).
Proof. intros [-> | ->]; reflexivity. Qed.

Lemma falsy_bit (n : Z) : bit n -> negb (Py.truthy n) = (n =? 0).
Proof. intros [-> | ->]; reflexivity. Qed.

Lemma agentic_score_counts_ones (a b c d : Z) :
  bit a -> bit b -> bit c -> bit d ->
  (3 <=? a + b + c + d) = (3 <=? count_ones [a; b; c; d])%nat.
Proof.
  intros [-> | ->] [-> | ->] [-> | ->] [-> | ->]; reflexivity.
Qed.

(** C1: without an artifact the label index is the one the four-branch
    priority procedure selects, and the confidence is the constant 0.70. *)
Theorem heuristic_follows_priority_procedure (req : PredictRequest) :
  valid_request req ->
  classify None req = Ok (heuristic_spec req, 0.70%float).
Proof.
  intros Hv. apply valid_request_bits in Hv.
  destruct Hv as (Hl & Ha & Hr & Ht & Hd & Hb & Hs).
  unfold classify, heuristic_spec.
  rewrite (truthy_bit _ Hl), (truthy_bit _ Hb), (falsy_bit _ Hs).
  rewrite (agentic_score_counts_ones _ _ _ _ Ha Hr Ht Hd).
  reflexivity.
Qed.

Lemma heuristic_follows_priority_procedure_witness :
  classify None (zeros "x") = Ok (heuristic_spec (zeros "x"), 0.70%float).
Proof.
  apply (heuristic_follows_priority_procedure (zeros "x")).
  unfold valid_request. simpl. repeat constructor.
Defined.

(** C10: without an artifact the whole response is a function of seven
    answers only. *)
Theorem heuristic_response_depends_on_seven_fields (r1 r2 : PredictRequest) :
  language_generation r1 = language_generation r2 ->
  are_autonomous_decisions_required r1 = are_autonomous_decisions_required r2 ->
  is_reasoning_required r1 = is_reasoning_required r2 ->
  tool_integration r1 = tool_integration r2 ->
  dynamic_goals r1 = dynamic_goals r2 ->
  can_specify_business_rules r1 = can_specify_business_rules r2 ->
  are_you_building_learning_system r1 = are_you_building_learning_system r2 ->
  predict None r1 = predict None r2.
Proof.
  intros Hl Ha Hr Ht Hd Hb Hs.
  unfold predict, classify.
  rewrite Hl, Ha, Hr, Ht, Hd, Hb, Hs. reflexivity.
Qed.

Lemma heuristic_response_depends_on_seven_fields_witness :
  predict None (zeros "x") = predict None ignored_ones.
Proof.
  apply (heuristic_response_depends_on_seven_fields (zeros "x") ignored_ones);
    reflexivity.
Defined.

(** ** The use-case name *)

(** C9: two requests with the same fifteen answers get the same response,
    whatever their names and whatever artifact is loaded. *)
Theorem predict_ignores_use_case_name
  (m : option Artifact) (r1 r2 : PredictRequest) :
  fields r1 = fields r2 ->
  predict m r1 = predict m r2.
Proof.
  destruct r1, r2. unfold fields. cbn [is_process_simple
    can_specify_business_rules will_occasional_errors_be_tolerated
    will_error_be_propagated is_use_case_transactional_in_nature
    are_you_building_learning_system high_stakes_environment
    hyper_personalization unstructured_text_input is_input_data_multi_modal
    language_generation are_autonomous_decisions_required
    is_reasoning_required tool_integration dynamic_goals].
  intros H. injection H as -> -> -> -> -> -> -> -> -> -> -> -> -> -> ->.
  reflexivity.
Qed.

Lemma predict_ignores_use_case_name_witness :
  predict None (zeros "first") = predict None (zeros "second").
Proof.
  apply (predict_ignores_use_case_name None (zeros "first") (zeros "second")).
  reflexivity.
Defined.

(** ** Start-up *)

(** C4, as stated, fails: a model file that exists but does not unpickle
    stops the start-up with the loader's exception. *)
Lemma corrupt_artifact_aborts_startup :
  path_exists corrupt_env (model_path corrupt_env) = true /\
  joblib_load corrupt_env (model_path corrupt_env) = Raise UnpicklingError /\
  startup corrupt_env = Raise UnpicklingError /\
  ~ (exists app, startup corrupt_env = Ok app).
Proof.
  repeat split; try reflexivity.
  intros [app H]. discriminate H.
Qed.

Lemma startup_ends_as_the_loader (env : Env) :
  path_exists env (model_path env) = true ->
  startup env =
    match joblib_load env (model_path env) with
    | Ok a => Ok {| model := Some a |}
    | Raise e => Raise e
    end.
Proof.
  intros H. unfold startup, load_model. rewrite H.
  destruct (joblib_load env (model_path env)); reflexivity.
Qed.

(** C4, amended: when no file exists at the model path, start-up completes
    without an artifact and every later classification is the heuristic
    one. *)
Theorem startup_falls_back_when_file_is_missing (env : Env) :
  path_exists env (model_path env) = false ->
  exists app,
    startup env = Ok app /\
    model app = None /\
    forall req, valid_request req ->
      classify (model app) req = Ok (heuristic_spec req, 0.70%float).
Proof.
  intros H. exists {| model := None |}.
  unfold startup, load_model. rewrite H.
  split; [reflexivity | split; [reflexivity |]].
  intros req Hv. apply valid_request_bits in Hv.
  destruct Hv as (Hl & Ha & Hr & Ht & Hd & Hb & Hs).
  cbn [model]. unfold classify, heuristic_spec.
  rewrite (truthy_bit _ Hl), (truthy_bit _ Hb), (falsy_bit _ Hs).
  rewrite (agentic_score_counts_ones _ _ _ _ Ha Hr Ht Hd).
  reflexivity.
Qed.

Lemma startup_falls_back_when_file_is_missing_witness :
  exists app,
    startup bare_env = Ok app /\
    model app = None /\
    forall req, valid_request req ->
      classify (model app) req = Ok (heuristic_spec req, 0.70%float).
Proof.
  apply (startup_falls_back_when_file_is_missing bare_env). reflexivity.
Defined.

(** ** The interval at concrete arguments *)

(** C5, as stated, fails: for the all-zero request the limits are more
    than 0.01 away from the quoted 0.617 and 0.769. *)
Lemma all_zero_limits_are_not_0617_0769 :
  exists resp,
    predict None (zeros "x") = Ok resp /\
    approx (1 # 100) (lcl resp) 0.617 = false /\
    approx (1 # 100) (ucl resp) 0.769 = false.
Proof.
  eexists. split; [vm_compute; reflexivity | split; vm_compute; reflexivity].
Qed.

(** C5, amended: for the all-zero request, whatever its name, the response
    is "Classical ML" with confidence 0.70, and its limits are the values
    of the Wilson formula at p = 0.7, n = 100, z = 1.96, which are 0.604
    and 0.781 to three decimals. *)
Theorem all_zero_response (name : string) :
  predict None (zeros name) =
    Ok {| label := "Classical ML";
          avg_confidence := 0.70;
          ucl := snd (wilson_spec 0.7 100 1.96);
          lcl := fst (wilson_spec 0.7 100 1.96) |} /\
  wilson_spec 0.7 100 1.96 = (0.60414961567188041, 0.78105246133771877)%float /\
  approx (5 # 10000) (fst (wilson_spec 0.7 100 1.96)) 0.604 = true /\
  approx (5 # 10000) (snd (wilson_spec 0.7 100 1.96)) 0.781 = true.
Proof.
  repeat split; vm_compute; reflexivity.
Qed.

(** C7, as stated, fails in its second half: at p = 1.0 the upper limit is
    strictly below 1.0. *)
Lemma upper_limit_at_one_is_below_one :
  exists lo hi,
    wilson_interval_default 1 = Ok (lo, hi) /\
    (hi <? 1)%float = true /\ (hi =? 1)%float = false /\ hi <> 1%float.
Proof.
  eexists; eexists. split; [vm_compute; reflexivity |].
  split; [vm_compute; reflexivity |].
  split; [vm_compute; reflexivity |].
  intros H. apply (f_equal (fun x => (x =? 1)%float)) in H.
  vm_compute in H. discriminate H.
Qed.

(** C7, amended: at p = 0.0 the lower limit is 0.0, and at p = 1.0 the
    upper limit is the largest binary64 number below 1.0. *)
Theorem interval_at_the_extremes :
  wilson_interval_default 0 = Ok (0, 0.036994807476001909)%float /\
  wilson_interval_default 1 =
    Ok (0.96300519252399808, 0.99999999999999989)%float /\
  0.99999999999999989%float = next_down 1 /\
  float_to_Q 0.99999999999999989 = Some (1 - (1 # 2 ^ 53))%Q.
Proof.
  repeat split; vm_compute; reflexivity.
Qed.

(** C3, as stated, fails: the returned interval does not contain p = 1.0
    (the upper limit is below it), nor a p of about 1.8e-18 (the lower
    limit is above it). *)
Lemma interval_misses_confidence :
  (0 <=? 1)%float = true /\ (1 <=? 1)%float = true /\
  contains_confidence 1 = false /\
  (0 <=? 1.7580410030968335e-18)%float = true /\
  (1.7580410030968335e-18 <=? 1)%float = true /\
  contains_confidence 1.7580410030968335e-18 = false.
Proof.
  repeat split; vm_compute; reflexivity.
Qed.

(** C6, as stated, fails in its second half: an int whose square does not
    fit a float makes the function raise OverflowError. *)
Lemma huge_sample_size_overflows :
  0 < 2 ^ 511 /\
  (0 <=? 0.5)%float = true /\ (0.5 <=? 1)%float = true /\
  wilson_interval 0.5 (2 ^ 511) 1.96 = Raise OverflowError.
Proof.
  repeat split; vm_compute; reflexivity.
Qed.

(** C2, as stated, fails: outside [0, 1] the radicand can be negative, its
    power is then complex and [max] raises TypeError instead of returning
    the pair of the formula, whatever the C library's [pow] is. *)
Lemma negative_radicand_raises :
  0 < 1 /\
  wilson_interval 2 1 1 = Raise TypeError /\
  wilson_interval 2 1 1 <> Ok (wilson_spec 2 1 1) /\
  forall pw : float -> float -> float,
    wilson_interval_with pw 2 1 1 = Raise TypeError.
Proof.
  split; [lia |]. split; [vm_compute; reflexivity |]. split.
  - intros H. vm_compute in H. discriminate H.
  - intros pw. vm_compute. reflexivity.
Qed.

(** * Further properties

    Properties of [predict], [vectorize] and [wilson_interval] beyond the
    statements above: what the functions do at the edges of their domains,
    which errors they raise, and what every returned value satisfies. *)

(** ** Inversion of a successful sequence of steps *)

Lemma bind_Ok {A B : Type} (c : result A) (k : A -> result B) (b : B) :
  bind c k = Ok b -> exists a, c = Ok a /\ k a = Ok b.
Proof.
  destruct c as [a | e]; cbn [bind]; intros H; [| discriminate H].
  exists a. split; [reflexivity | exact H].
Qed.

Lemma max_zero_Ok (b : Py.num) (lo : float) :
  Py.max 0 b = Ok lo -> (0 <=? lo)%float = true.
Proof.
  destruct b as [f |]; cbn [Py.max]; intros H; [| discriminate H].
  injection H as <-. apply (fmax_zero_lower f).
Qed.

Lemma min_one_Ok (b : Py.num) (hi : float) :
  Py.min 1 b = Ok hi -> (hi <=? 1)%float = true.
Proof.
  destruct b as [f |]; cbn [Py.min]; intros H; [| discriminate H].
  injection H as <-. apply (fmin_one_upper f).
Qed.

Lemma wilson_interval_clamped (p : float) (n : Z) (z lo hi : float) :
  wilson_interval p n z = Ok (lo, hi) ->
  (0 <=? lo)%float = true /\ (hi <=? 1)%float = true.
Proof.
  unfold wilson_interval. intros H.
  repeat match type of H with
         | bind _ _ = Ok _ =>
             let a := fresh "a" in
             let Ha := fresh "Ha" in
             apply bind_Ok in H; destruct H as (a & Ha & H)
         end.
  injection H as <- <-.
  split; [eapply max_zero_Ok | eapply min_one_Ok]; eassumption.
Qed.

(** ** Python indexing of a list *)

Lemma index_In {A : Type} (l : list A) (i : Z) (a : A) :
  Py.index l i = Ok a -> In a l.
Proof.
  unfold Py.index.
  destruct (_ && _); [| discriminate].
  destruct (nth_error l _) as [b |] eqn:E; [| discriminate].
  intros H. injection H as <-. exact (nth_error_In _ _ E).
Qed.

Lemma index_out_of_range {A : Type} (l : list A) (i : Z) :
  i < - Z.of_nat (List.length l) \/ Z.of_nat (List.length l) <= i ->
  Py.index l i = Raise IndexError.
Proof.
  intros H. unfold Py.index.
  destruct (Z.ltb_spec i 0) as [Hneg | Hpos].
  - destruct (Z.leb_spec 0 (i + Z.of_nat (List.length l))) as [H0 | H0];
      [lia | reflexivity].
  - destruct (Z.ltb_spec i (Z.of_nat (List.length l))) as [H1 | H1];
      [lia | rewrite andb_false_r; reflexivity].
Qed.

Lemma index_LABELS (idx : Z) :
  Py.index LABELS idx =
    if (-4 <=? idx) && (idx <=? 3) then Ok (label_name (idx mod 4))
    else Raise IndexError.
Proof.
  destruct (Z.leb_spec (-4) idx) as [Hlo | Hlo]; cbn [andb].
  - destruct (Z.leb_spec idx 3) as [Hhi | Hhi].
    + assert (Hc : idx = -4 \/ idx = -3 \/ idx = -2 \/ idx = -1 \/
                   idx = 0 \/ idx = 1 \/ idx = 2 \/ idx = 3) by lia.
      destruct Hc as [-> | [-> | [-> | [-> | [-> | [-> | [-> | ->]]]]]]];
        reflexivity.
    + apply index_out_of_range. cbn. lia.
  - apply index_out_of_range. cbn. lia.
Qed.

(** ** Operands that are not numbers *)

Lemma nan_SF (x : float) : is_nan x = true -> Prim2SF x = S754_nan.
Proof.
  rewrite is_nan_SF. destruct (Prim2SF x); try discriminate. reflexivity.
Qed.

Lemma nan_unique (x : float) : is_nan x = true -> x = nan.
Proof.
  intros H. apply Prim2SF_inj. rewrite (nan_SF x H). reflexivity.
Qed.

Lemma add_nan_l (y : float) : PrimFloat.add nan y = nan.
Proof. apply Prim2SF_inj. rewrite add_spec. reflexivity. Qed.

Lemma sub_nan_l (y : float) : PrimFloat.sub nan y = nan.
Proof. apply Prim2SF_inj. rewrite sub_spec. reflexivity. Qed.

Lemma mul_nan_l (y : float) : PrimFloat.mul nan y = nan.
Proof. apply Prim2SF_inj. rewrite mul_spec. reflexivity. Qed.

Lemma div_nan_l (y : float) : PrimFloat.div nan y = nan.
Proof. apply Prim2SF_inj. rewrite div_spec. reflexivity. Qed.

Lemma wilson_spec_nan (n : Z) (z : float) :
  wilson_spec nan n z = (0, 1)%float.
Proof.
  unfold wilson_spec. cbv zeta.
  rewrite !add_nan_l, !mul_nan_l, !div_nan_l, !add_nan_l, sub_nan_l.
  reflexivity.
Qed.

Lemma leb_nan_l (x y : float) : is_nan x = true -> (x <=? y)%float = false.
Proof.
  rewrite is_nan_SF, leb_spec.
  destruct (Prim2SF x); try discriminate. reflexivity.
Qed.

Lemma not_nan_SF (x : float) : is_nan x = false -> Prim2SF x <> S754_nan.
Proof. rewrite is_nan_SF. intros H E. rewrite E in H. discriminate H. Qed.

Lemma ltb_zero_sign_clear (z : float) :
  (0 <? z)%float = true -> sign_clear (Prim2SF z) = true.
Proof.
  rewrite ltb_spec. change (Prim2SF 0) with (S754_zero false).
  destruct (Prim2SF z) as [[] | [] | | [] m e]; try reflexivity; discriminate.
Qed.


(** ** The order of binary64 numbers *)

Ltac compare_cases :=
  repeat match goal with
         | H : context [Pos.compare_cont Eq ?a ?b] |- _ =>
             change (Pos.compare_cont Eq a b) with (Pos.compare a b) in H
         | |- context [Pos.compare_cont Eq ?a ?b] =>
             change (Pos.compare_cont Eq a b) with (Pos.compare a b)
         end;
  repeat match goal with
         | H : context [Z.compare ?a ?b] |- _ =>
             destruct (Z.compare_spec a b); try subst
         | |- context [Z.compare ?a ?b] =>
             destruct (Z.compare_spec a b); try subst
         | H : context [Pos.compare ?a ?b] |- _ =>
             destruct (Pos.compare_spec a b); try subst
         | |- context [Pos.compare ?a ?b] =>
             destruct (Pos.compare_spec a b); try subst
         end;
  cbn [CompOpp] in *; try reflexivity; try discriminate; try lia.

Lemma SFleb_false_ltb (x y : spec_float) :
  x <> S754_nan -> y <> S754_nan ->
  SFleb x y = false -> SFltb y x = true.
Proof.
  unfold SFleb, SFltb, SFcompare. intros Hx Hy.
  destruct x as [[] | [] | | [] mx ex]; try congruence;
    destruct y as [[] | [] | | [] my ey]; try congruence;
    try discriminate; try reflexivity; intros H; compare_cases.
Qed.

Lemma SFleb_ltb_trans (x y z : spec_float) :
  SFleb x y = true -> SFltb y z = true -> SFltb x z = true.
Proof.
  unfold SFleb, SFltb, SFcompare.
  destruct x as [[] | [] | | [] mx ex];
    destruct y as [[] | [] | | [] my ey]; try discriminate;
    destruct z as [[] | [] | | [] mz ez]; try discriminate;
    try reflexivity; intros H1 H2; compare_cases.
Qed.

Lemma SFleb_refl (x : spec_float) : x <> S754_nan -> SFleb x x = true.
Proof.
  unfold SFleb, SFcompare.
  destruct x as [[] | [] | | [] mx ex]; try congruence; try reflexivity;
    intros _; rewrite Z.compare_refl, Pos.compare_cont_refl; reflexivity.
Qed.

Lemma leb_false_ltb (x y : float) :
  is_nan x = false -> is_nan y = false ->
  (x <=? y)%float = false -> (y <? x)%float = true.
Proof.
  intros Hx Hy. rewrite leb_spec, ltb_spec.
  apply SFleb_false_ltb; apply not_nan_SF; assumption.
Qed.

Lemma leb_ltb_trans (x y z : float) :
  (x <=? y)%float = true -> (y <? z)%float = true -> (x <? z)%float = true.
Proof. rewrite leb_spec, !ltb_spec. apply SFleb_ltb_trans. Qed.

Lemma leb_refl (x : float) : is_nan x = false -> (x <=? x)%float = true.
Proof. intros H. rewrite leb_spec. apply SFleb_refl, not_nan_SF, H. Qed.

(** ** [np.argmax] *)

Lemma argmax_from_maximal (l : list float) :
  forall (pre : list float) (best : float) (besti : Z),
    Forall (fun q => is_nan q = false) pre ->
    Forall (fun q => is_nan q = false) l ->
    first_maximum pre besti best ->
    exists p,
      first_maximum (pre ++ l)
        (argmax_from best besti (Z.of_nat (List.length pre)) l) p.
Proof.
  induction l as [| x tl IH]; intros pre best besti Hpre Hl Hmax.
  - cbn [argmax_from]. rewrite app_nil_r. exists best. exact Hmax.
  - destruct Hmax as (Hr & Hn & Hle & Hlt).
    apply Forall_cons_iff in Hl. destruct Hl as [Hx Htl].
    assert (Hlen : Z.of_nat (List.length (pre ++ [x]))
                   = Z.of_nat (List.length pre) + 1).
    { rewrite length_app. cbn [List.length]. lia. }
    assert (Hpre' : Forall (fun q => is_nan q = false) (pre ++ [x])).
    { apply Forall_app. split; [exact Hpre | constructor; [exact Hx | constructor]]. }
    assert (Hbest : is_nan best = false).
    { rewrite Forall_forall in Hpre. apply Hpre.
      exact (nth_error_In _ _ Hn). }
    cbn [argmax_from].
    replace (pre ++ x :: tl) with ((pre ++ [x]) ++ tl)
      by (rewrite <- app_assoc; reflexivity).
    rewrite <- Hlen.
    destruct (x <=? best)%float eqn:E.
    + apply IH; try assumption.
      split; [lia |]. split.
      { rewrite nth_error_app1 by lia. exact Hn. }
      split.
      { apply Forall_app. split; [exact Hle | constructor; [exact E | constructor]]. }
      intros j q Hj Hq. apply (Hlt j q Hj).
      rewrite nth_error_app1 in Hq by lia. exact Hq.
    + rewrite Hx.
      pose proof (leb_false_ltb x best Hx Hbest E) as Hgt.
      apply IH; try assumption.
      split; [lia |]. rewrite Nat2Z.id. split.
      { rewrite nth_error_app2 by lia. rewrite Nat.sub_diag. reflexivity. }
      split.
      { apply Forall_app. split.
        - rewrite Forall_forall in *. intros q Hq.
          apply ltb_leb. apply (leb_ltb_trans q best x); [apply Hle; exact Hq | exact Hgt].
        - constructor; [apply leb_refl; exact Hx | constructor]. }
      intros j q Hj Hq. rewrite nth_error_app1 in Hq by lia.
      apply (leb_ltb_trans q best x); [| exact Hgt].
      rewrite Forall_forall in Hle. apply Hle. exact (nth_error_In _ _ Hq).
Qed.

Lemma np_argmax_maximal (row : list float) :
  row <> [] ->
  Forall (fun q => is_nan q = false) row ->
  exists r p, np_argmax row = Ok r /\ first_maximum row r p.
Proof.
  destruct row as [| x tl]; [congruence |]. intros _ H.
  pose proof H as H'. apply Forall_cons_iff in H'. destruct H' as [Hx Htl].
  cbn [np_argmax]. rewrite Hx.
  destruct (argmax_from_maximal tl [x] x 0) as [p Hp].
  - constructor; [exact Hx | constructor].
  - exact Htl.
  - split; [cbn; lia |]. split; [reflexivity |]. split.
    + constructor; [apply leb_refl; exact Hx | constructor].
    + intros j q Hj. cbn in Hj. lia.
  - eexists. exists p. split; [reflexivity |]. exact Hp.
Qed.

Lemma argmax_from_first_nan (l : list float) :
  forall (best : float) (besti i : Z) (k : nat),
    first_nan l k ->
    argmax_from best besti i l = i + Z.of_nat k.
Proof.
  induction l as [| x tl IH]; intros best besti i k [(q & Hq & Hnan) Hbefore].
  - destruct k; discriminate Hq.
  - cbn [argmax_from]. destruct k as [| k].
    + cbn in Hq. injection Hq as ->.
      rewrite (leb_nan_l q best Hnan), Hnan. lia.
    + assert (Hx : is_nan x = false).
      { apply (Hbefore 0%nat x); [lia | reflexivity]. }
      assert (Hk : first_nan tl k).
      { split; [exists q; split; [exact Hq | exact Hnan] |].
        intros j q' Hj Hq'. apply (Hbefore (S j) q'); [lia | exact Hq']. }
      rewrite Hx.
      destruct (x <=? best)%float; rewrite (IH _ _ _ k Hk); lia.
Qed.

Lemma np_argmax_first_nan (row : list float) (k : nat) :
  first_nan row k -> np_argmax row = Ok (Z.of_nat k).
Proof.
  intros H. pose proof H as [(q & Hq & Hnan) Hbefore].
  destruct row as [| x tl]; [destruct k; discriminate Hq |].
  cbn [np_argmax]. destruct k as [| k].
  - cbn in Hq. injection Hq as ->. rewrite Hnan. reflexivity.
  - assert (Hx : is_nan x = false).
    { apply (Hbefore 0%nat x); [lia | reflexivity]. }
    rewrite Hx. f_equal.
    rewrite (argmax_from_first_nan tl x 0 1 k); [lia |].
    split; [exists q; split; [exact Hq | exact Hnan] |].
    intros j q' Hj Hq'. apply (Hbefore (S j) q'); [lia | exact Hq'].
Qed.

(** ** Conversion of an int that does not fit a float *)

Lemma binary_round_aux_overflow (s : bool) (m : positive) (e : Z) (l : location) :
  e <= fexp prec emax (Zpos (digits2_pos m) + e) ->
  1024 < Zpos (digits2_pos m) + e ->
  binary_round_aux prec emax s (Zpos m) e l = S754_infinity s.
Proof.
  rewrite digits2_log2, fexp_eq. intros Hpre Hbig.
  unfold binary_round_aux.
  destruct (shr_fexp_spec (Zpos m) e l) as [Hm1 He1]; [lia |].
  destruct (shr_fexp prec emax (Zpos m) e l) as [mrs1 e1].
  simpl fst in Hm1; simpl snd in He1.
  simpl Zdigits2 in Hm1, He1. rewrite digits2_log2, fexp_eq in Hm1, He1.
  rewrite Z.max_r in Hm1, He1 by lia.
  set (m1 := round_nearest_even (shr_m mrs1) (loc_of_shr_record mrs1)).
  assert (Hc : m1 = Zpos m / 2 ^ (Z.max (Z.log2 (Zpos m) + 1 + e - 53) (-1074) - e)
               \/ m1 = Zpos m / 2 ^ (Z.max (Z.log2 (Zpos m) + 1 + e - 53) (-1074) - e) + 1).
  { rewrite <- Hm1. apply round_nearest_even_cases. }
  destruct (rounding_step (Zpos m) e m1 (Pos2Z.is_pos m) Hpre Hc)
    as (Hnn & _ & Hnz & _).
  assert (Hm1nn : 0 <= m1).
  { assert (0 <= Zpos m / 2 ^ (Z.max (Z.log2 (Zpos m) + 1 + e - 53) (-1074) - e)).
    { apply Z.div_pos; [lia | apply Z.pow_pos_nonneg; lia]. }
    lia. }
  destruct (shr_fexp_spec m1 e1 loc_Exact Hm1nn) as [Hm2 He2].
  destruct (shr_fexp prec emax m1 e1 loc_Exact) as [mrs2 e2].
  simpl fst in Hm2; simpl snd in He2.
  rewrite fexp_eq in Hm2, He2. rewrite He1 in Hm2, He2.
  rewrite <- Hm2 in Hnn, Hnz.
  assert (Hpos : 0 < shr_m mrs2) by (apply Hnz; lia).
  assert (He : 971 < e2) by lia.
  destruct (shr_m mrs2) as [| m2 | m2]; try lia.
  change (emax - prec) with 971.
  destruct (Z.leb_spec e2 971) as [Hle | Hgt]; [lia | reflexivity].
Qed.

Lemma float_of_Z_overflow (n : Z) :
  2 ^ 1024 <= n -> Prim2SF (Py.float_of_Z n) = S754_infinity false.
Proof.
  intros Hn.
  assert (Hpos : 0 < 2 ^ 1024) by (apply Z.pow_pos_nonneg; lia).
  destruct n as [| p | p]; try lia.
  assert (Hlog : 1024 <= Z.log2 (Zpos p)) by (apply Z.log2_le_pow2; lia).
  unfold Py.float_of_Z. cbn [binary_normalize]. unfold binary_round.
  destruct (shl_align_spec p 0 (fexp prec emax (Zpos (digits2_pos p) + 0)))
    as [He Hm].
  destruct (shl_align p 0 _) as [mz ez]. simpl fst in Hm; simpl snd in He.
  rewrite digits2_log2, fexp_eq in He, Hm.
  rewrite Z.min_l in He, Hm by lia. subst ez.
  rewrite Z.sub_diag, Z.pow_0_r, Z.mul_1_r in Hm. injection Hm as ->.
  rewrite binary_round_aux_overflow.
  - reflexivity.
  - rewrite digits2_log2, fexp_eq. lia.
  - rewrite digits2_log2. lia.
Qed.

Lemma float_of_int_overflow (n : Z) :
  2 ^ 1024 <= n -> Py.float_of_int n = Raise OverflowError.
Proof.
  intros H. unfold Py.float_of_int.
  rewrite is_infinity_SF, (float_of_Z_overflow n H). reflexivity.
Qed.

Lemma float_of_int_positive_cases (n : Z) :
  0 < n ->
  Py.float_of_int n = Raise OverflowError \/
  (Py.float_of_int n = Ok (Py.float_of_Z n) /\
   exists m e, Prim2SF (Py.float_of_Z n) = S754_finite false m e).
Proof.
  intros Hpos. destruct n as [| p | p]; try lia.
  unfold Py.float_of_int, Py.float_of_Z. cbn [binary_normalize].
  destruct (binary_round_spec false p 0) as (Hv & Hr & Hn & Hz & _).
  rewrite is_infinity_SF, Prim2SF_SF2Prim by exact Hv.
  inversion Hr as [E | E | E | m e E].
  - congruence.
  - exfalso. apply Hz; [lia | congruence].
  - left. reflexivity.
  - right. split; [reflexivity |]. exists m, e. reflexivity.
Qed.

Lemma truediv_int_positive_cases (a : float) (n : Z) :
  0 < n ->
  Py.truediv_int a n = Raise OverflowError \/
  (Py.truediv_int a n = Ok (a / Py.float_of_Z n)%float /\
   exists m e, Prim2SF (Py.float_of_Z n) = S754_finite false m e).
Proof.
  intros Hpos. unfold Py.truediv_int.
  destruct (float_of_int_positive_cases n Hpos) as [-> | (-> & m & e & E)].
  - left. reflexivity.
  - right. cbn [bind]. unfold Py.truediv. rewrite eqb_zero_SF, E.
    split; [reflexivity |]. exists m, e. reflexivity.
Qed.

Lemma square_of_big (n : Z) : 2 ^ 511 <= n -> 2 ^ 1024 <= 4 * n ^ 2.
Proof.
  intros H.
  assert (Hp : 0 < 2 ^ 511) by (apply Z.pow_pos_nonneg; lia).
  change (2 ^ 1024) with (4 * (2 ^ 511 * 2 ^ 511)).
  rewrite Z.pow_2_r.
  assert (2 ^ 511 * 2 ^ 511 <= n * n) by (apply Z.mul_le_mono_nonneg; lia).
  lia.
Qed.

(** ** Injectivity of the conversion of answers *)

Lemma float_of_bits_injective (l1 l2 : list Z) :
  Forall bit l1 -> Forall bit l2 ->
  map Py.float_of_Z l1 = map Py.float_of_Z l2 -> l1 = l2.
Proof.
  intros H1. revert l2. induction H1 as [| a l1 Ha _ IH]; intros l2 H2 E.
  - destruct l2; [reflexivity | discriminate E].
  - destruct H2 as [| b l2 Hb H2]; [discriminate E |].
    cbn [map] in E. injection E as Eab Erest.
    f_equal; [| apply IH; assumption].
    destruct Ha as [-> | ->], Hb as [-> | ->]; try reflexivity;
      apply (f_equal Prim2SF) in Eab; vm_compute in Eab; discriminate Eab.
Qed.

(** ** Responses *)

(** X3: whatever artifact is loaded, a response returned by [predict]
    carries one of the four names of [LABELS], a lower limit not below 0.0
    and an upper limit not above 1.0. *)
Theorem successful_response_is_well_formed
  (m : option Artifact) (req : PredictRequest) (resp : PredictResponse) :
  predict m req = Ok resp ->
  In (label resp) LABELS /\
  (0 <=? lcl resp)%float = true /\ (ucl resp <=? 1)%float = true.
Proof.
  unfold predict. intros H.
  apply bind_Ok in H. destruct H as ([idx p] & Hc & H).
  apply bind_Ok in H. destruct H as ([lo hi] & Hw & H).
  apply bind_Ok in H. destruct H as (lab & Hl & H).
  injection H as <-. cbn [label lcl ucl].
  destruct (wilson_interval_clamped _ _ _ _ _ Hw) as [Hlo Hhi].
  split; [exact (index_In _ _ _ Hl) |]. split; assumption.
Qed.

Lemma successful_response_is_well_formed_witness :
  In "Gen AI"%string LABELS /\
  (0 <=? 0.60414961567188041)%float = true /\
  (0.78105246133771877 <=? 1)%float = true.
Proof.
  apply (successful_response_is_well_formed None (ones "x")
           {| label := "Gen AI"; avg_confidence := 0.70;
              ucl := 0.78105246133771877; lcl := 0.60414961567188041 |}).
  vm_compute. reflexivity.
Defined.

(** X4: once the label index and the interval are computed, [LABELS[pred_idx]]
    follows Python's list indexing: an index from 0 to 3 selects its name, an
    index from -4 to -1 counts from the end of the list, and any other index
    makes [predict] raise IndexError. *)
Theorem label_lookup_follows_list_indexing
  (m : option Artifact) (req : PredictRequest) (idx : Z) (p lo hi : float) :
  classify m req = Ok (idx, p) ->
  wilson_interval_default p = Ok (lo, hi) ->
  predict m req =
    if (-4 <=? idx) && (idx <=? 3)
    then Ok {| label := label_name (idx mod 4);
               avg_confidence := p; ucl := hi; lcl := lo |}
    else Raise IndexError.
Proof.
  intros Hc Hw. unfold predict. rewrite Hc. cbn [bind]. rewrite Hw. cbn [bind].
  rewrite index_LABELS. destruct (_ && _); reflexivity.
Qed.

Lemma label_lookup_follows_list_indexing_witness :
  predict (Some minus_one_model) (zeros "x") =
    if (-4 <=? -1) && (-1 <=? 3)
    then Ok {| label := label_name (-1 mod 4);
               avg_confidence := 0.75;
               ucl := 0.82454905996275729; lcl := 0.65695353629924169 |}
    else Raise IndexError.
Proof.
  apply (label_lookup_follows_list_indexing (Some minus_one_model) (zeros "x"));
    vm_compute; reflexivity.
Defined.

(** X5: with an artifact that has no [predict_proba], the class is the first
    entry of [model.predict(x)], the confidence is the constant 0.75 and the
    limits are the same two numbers (0.656... and 0.824...) for every
    request; a class outside -4..3 raises IndexError. *)
Theorem classifier_without_probabilities
  (a : Artifact) (req : PredictRequest) (i : Z) (rest : list Z) :
  predict_proba a = None ->
  model_predict a (vectorize req) = i :: rest ->
  predict (Some a) req =
    if (-4 <=? i) && (i <=? 3)
    then Ok {| label := label_name (i mod 4);
               avg_confidence := 0.75;
               ucl := 0.82454905996275729; lcl := 0.65695353629924169 |}
    else Raise IndexError.
Proof.
  intros Hp Hm. unfold predict, classify. rewrite Hp, Hm, index_head.
  cbn [bind].
  replace (wilson_interval_default 0.75)
    with (Ok (0.65695353629924169, 0.82454905996275729)%float : result (float * float))
    by (vm_compute; reflexivity).
  cbn [bind]. rewrite index_LABELS. destruct (_ && _); reflexivity.
Qed.

Lemma classifier_without_probabilities_witness :
  predict (Some minus_one_model) (ones "x") =
    if (-4 <=? -1) && (-1 <=? 3)
    then Ok {| label := label_name (-1 mod 4);
               avg_confidence := 0.75;
               ucl := 0.82454905996275729; lcl := 0.65695353629924169 |}
    else Raise IndexError.
Proof.
  apply (classifier_without_probabilities minus_one_model (ones "x") (-1) []);
    reflexivity.
Defined.

(** X6: with a [predict_proba] artifact whose first row is not empty and holds
    no nan, the reported confidence is an entry of that row that no other
    entry exceeds, and the label index is the first position holding it
    (every earlier entry is strictly smaller). *)
Theorem confidence_is_the_largest_probability
  (a : Artifact) (req : PredictRequest)
  (proba_of : list (list float) -> list (list float))
  (row : list float) (rest : list (list float)) :
  predict_proba a = Some proba_of ->
  proba_of (vectorize req) = row :: rest ->
  row <> [] ->
  Forall (fun q => is_nan q = false) row ->
  exists idx p,
    classify (Some a) req = Ok (idx, p) /\ first_maximum row idx p.
Proof.
  intros Hp Hrow Hne Hnan.
  destruct (np_argmax_maximal row Hne Hnan) as (r & p & Ha & Hmax).
  exists r, p. split; [| exact Hmax].
  destruct Hmax as (Hr & Hn & _).
  destruct (index_in_range row r Hr) as (q & Hq & Hn').
  unfold classify. rewrite Hp, Hrow, index_head. cbn [bind].
  rewrite Ha. cbn [bind]. rewrite Hq. cbn [bind]. congruence.
Qed.

Lemma confidence_is_the_largest_probability_witness :
  exists idx p,
    classify (Some steady_model) (zeros "x") = Ok (idx, p) /\
    first_maximum [0.1; 0.2; 0.6; 0.1]%float idx p.
Proof.
  apply (confidence_is_the_largest_probability steady_model (zeros "x")
           (fun _ => [[0.1; 0.2; 0.6; 0.1]%float]) _ []).
  - reflexivity.
  - reflexivity.
  - discriminate.
  - repeat constructor.
Defined.

(** X7: when the first row of [predict_proba] holds a nan, the first nan is
    the selected class: the confidence is nan, the limits are 0.0 and 1.0,
    and the label is the one at the position of that nan (IndexError beyond
    the fourth position). *)
Theorem nan_probability_is_selected
  (a : Artifact) (req : PredictRequest)
  (proba_of : list (list float) -> list (list float))
  (row : list float) (rest : list (list float)) (k : nat) :
  predict_proba a = Some proba_of ->
  proba_of (vectorize req) = row :: rest ->
  first_nan row k ->
  classify (Some a) req = Ok (Z.of_nat k, nan) /\
  predict (Some a) req =
    if (k <=? 3)%nat
    then Ok {| label := label_name (Z.of_nat k);
               avg_confidence := nan; ucl := 1; lcl := 0 |}
    else Raise IndexError.
Proof.
  intros Hp Hrow Hk.
  assert (Hc : classify (Some a) req = Ok (Z.of_nat k, nan)).
  { pose proof (np_argmax_first_nan row k Hk) as Ha.
    destruct Hk as [(q & Hq & Hnan) _].
    assert (Hr : 0 <= Z.of_nat k < Z.of_nat (List.length row)).
    { assert (k < List.length row)%nat
        by (apply nth_error_Some; congruence). lia. }
    destruct (index_in_range row (Z.of_nat k) Hr) as (q' & Hq' & Hn').
    rewrite Nat2Z.id in Hn'.
    unfold classify. rewrite Hp, Hrow, index_head. cbn [bind].
    rewrite Ha. cbn [bind]. rewrite Hq'. cbn [bind].
    rewrite <- (nan_unique q Hnan). congruence. }
  split; [exact Hc |].
  unfold predict. rewrite Hc. cbn [bind].
  replace (wilson_interval_default nan)
    with (Ok (0, 1)%float : result (float * float))
    by (vm_compute; reflexivity).
  cbn [bind]. rewrite index_LABELS.
  destruct (Nat.leb_spec k 3) as [Hle | Hgt].
  - assert (Hc4 : (k = 0 \/ k = 1 \/ k = 2 \/ k = 3)%nat) by lia.
    destruct Hc4 as [-> | [-> | [-> | ->]]]; reflexivity.
  - destruct (Z.leb_spec (Z.of_nat k) 3) as [Hle | _]; [lia |].
    rewrite andb_false_r. reflexivity.
Qed.

Lemma nan_probability_is_selected_witness :
  classify (Some broken_model) (zeros "x") = Ok (Z.of_nat 1, nan) /\
  predict (Some broken_model) (zeros "x") =
    if (1 <=? 3)%nat
    then Ok {| label := label_name (Z.of_nat 1);
               avg_confidence := nan; ucl := 1; lcl := 0 |}
    else Raise IndexError.
Proof.
  apply (nan_probability_is_selected broken_model (zeros "x")
           (fun _ => [[0.25; nan; 0.5; 0.25]%float])
           [0.25; nan; 0.5; 0.25]%float [] 1%nat).
  - reflexivity.
  - reflexivity.
  - split.
    + exists nan. split; reflexivity.
    + intros j q Hj Hq. destruct j as [| j]; [| lia].
      cbn in Hq. injection Hq as <-. reflexivity.
Defined.

(** X8: an artifact whose [predict_proba] (or, without it, whose [predict])
    returns no row makes [predict] raise IndexError. *)
Theorem artifact_without_rows_raises (a : Artifact) (req : PredictRequest) :
  match predict_proba a with
  | Some proba_of => proba_of (vectorize req) = []
  | None => model_predict a (vectorize req) = []
  end ->
  predict (Some a) req = Raise IndexError.
Proof.
  unfold predict, classify.
  destruct (predict_proba a) as [proba_of |]; intros ->; reflexivity.
Qed.

Lemma artifact_without_rows_raises_witness :
  predict (Some silent_model) (zeros "x") = Raise IndexError.
Proof.
  apply (artifact_without_rows_raises silent_model (zeros "x")). reflexivity.
Defined.

(** X9: an artifact whose first row of probabilities is empty makes
    [predict] raise ValueError, the error of [np.argmax] on an empty
    array. *)
Theorem empty_probability_row_raises
  (a : Artifact) (req : PredictRequest)
  (proba_of : list (list float) -> list (list float)) (rest : list (list float)) :
  predict_proba a = Some proba_of ->
  proba_of (vectorize req) = [] :: rest ->
  predict (Some a) req = Raise ValueError.
Proof.
  intros Hp Hr. unfold predict, classify. rewrite Hp, Hr, index_head.
  reflexivity.
Qed.

Lemma empty_probability_row_raises_witness :
  predict (Some empty_row_model) (zeros "x") = Raise ValueError.
Proof.
  apply (empty_probability_row_raises empty_row_model (zeros "x")
           (fun _ => [[]]) []); reflexivity.
Defined.

(** X11: on validated requests the feature vector loses nothing: two requests
    with the same vector have the same fifteen answers. *)
Theorem feature_vector_determines_the_answers (r1 r2 : PredictRequest) :
  valid_request r1 -> valid_request r2 ->
  vectorize r1 = vectorize r2 -> fields r1 = fields r2.
Proof.
  intros H1 H2 E. apply (float_of_bits_injective _ _ H1 H2).
  exact (f_equal (fun x => hd [] x) E).
Qed.

Lemma feature_vector_determines_the_answers_witness :
  fields (zeros "first") = fields (zeros "second").
Proof.
  apply (feature_vector_determines_the_answers (zeros "first") (zeros "second")).
  - unfold valid_request. simpl. repeat constructor.
  - unfold valid_request. simpl. repeat constructor.
  - reflexivity.
Defined.

(** ** The interval outside the usual arguments *)

(** X2: whatever the arguments, when [wilson_interval] returns a pair, the
    lower limit is a number not below 0.0 and the upper limit is a number
    not above 1.0 (neither is a nan). *)
Theorem returned_limits_are_clamped (p : float) (n : Z) (z lo hi : float) :
  wilson_interval p n z = Ok (lo, hi) ->
  (0 <=? lo)%float = true /\ (hi <=? 1)%float = true /\
  is_nan lo = false /\ is_nan hi = false.
Proof.
  intros H. destruct (wilson_interval_clamped p n z lo hi H) as [Hlo Hhi].
  split; [exact Hlo |]. split; [exact Hhi |].
  split.
  - rewrite leb_spec in Hlo. rewrite is_nan_SF.
    change (Prim2SF 0) with (S754_zero false) in Hlo.
    destruct (Prim2SF lo); try reflexivity. discriminate Hlo.
  - rewrite leb_spec in Hhi. rewrite is_nan_SF.
    destruct (Prim2SF hi); try reflexivity. discriminate Hhi.
Qed.

Lemma returned_limits_are_clamped_witness :
  (0 <=? 0.60414961567188041)%float = true /\
  (0.78105246133771877 <=? 1)%float = true /\
  is_nan 0.60414961567188041 = false /\
  is_nan 0.78105246133771877 = false.
Proof.
  apply (returned_limits_are_clamped 0.7 100 1.96).
  vm_compute. reflexivity.
Defined.

(** X12: for a confidence that is not a number, and any sample size n > 0
    with 4 n^2 < 2^1023 and any z with a finite square, [wilson_interval]
    returns the whole unit interval (0.0, 1.0). *)
Theorem nan_confidence_gives_the_whole_unit_interval (n : Z) (z : float) :
  0 < n -> 4 * n ^ 2 < 2 ^ 1023 ->
  is_infinity (z * z) = false ->
  wilson_interval nan n z = Ok (0, 1)%float.
Proof.
  intros Hn Hb Hz. rewrite <- (wilson_spec_nan n z).
  apply wilson_interval_steps; try assumption.
  unfold radicand. rewrite mul_nan_l, div_nan_l, add_nan_l. reflexivity.
Qed.

Lemma nan_confidence_gives_the_whole_unit_interval_witness :
  wilson_interval nan 100 1.96 = Ok (0, 1)%float.
Proof.
  apply (nan_confidence_gives_the_whole_unit_interval 100 1.96);
    vm_compute; reflexivity.
Defined.

(** X13: for every p in [0, 1], every sample size n > 0 with 4 n^2 < 2^1023
    and every z > 0 with a finite square, [wilson_interval] returns a pair
    with 0.0 <= lower, 0.0 <= upper and upper <= 1.0. *)
Theorem limits_for_any_sample_size (p : float) (n : Z) (z : float) :
  (0 <=? p)%float = true -> (p <=? 1)%float = true ->
  0 < n -> 4 * n ^ 2 < 2 ^ 1023 ->
  (0 <? z)%float = true -> is_infinity (z * z) = false ->
  exists lo hi,
    wilson_interval p n z = Ok (lo, hi) /\
    (0 <=? lo)%float = true /\
    (0 <=? hi)%float = true /\ (hi <=? 1)%float = true.
Proof.
  intros H0 H1 Hn Hb Hz Hzz.
  pose proof (radicand_in_unit_interval p n z Hn Hb H0 H1) as Hr.
  pose proof (wilson_interval_steps p n z Hn Hb Hzz Hr) as Hw.
  pose proof (upper_sum_sign_clear p n z Hn Hb H0 H1
                (ltb_zero_sign_clear z Hz)) as Hs.
  cbv zeta in Hs. unfold wilson_spec in Hw. cbv zeta in Hw.
  do 2 eexists. split; [exact Hw |].
  split; [apply fmax_zero_lower |].
  split; [apply fmin_one_lower; exact Hs | apply fmin_one_upper].
Qed.

Lemma limits_for_any_sample_size_witness :
  exists lo hi,
    wilson_interval 0.5 30 2.576 = Ok (lo, hi) /\
    (0 <=? lo)%float = true /\
    (0 <=? hi)%float = true /\ (hi <=? 1)%float = true.
Proof.
  apply (limits_for_any_sample_size 0.5 30 2.576); vm_compute; reflexivity.
Defined.

(** X14: for every sample size n >= 2^511 (and a z with a finite square),
    whatever p, [wilson_interval] raises OverflowError: 4 n^2 is an int too
    large to convert to float. *)
Theorem oversized_sample_raises_overflow (p : float) (n : Z) (z : float) :
  2 ^ 511 <= n ->
  is_infinity (z * z) = false ->
  wilson_interval p n z = Raise OverflowError.
Proof.
  intros Hn Hz.
  assert (Hp : 0 < 2 ^ 511) by (apply Z.pow_pos_nonneg; lia).
  assert (Hpos : 0 < n) by lia.
  pose proof (square_of_big n Hn) as Hbig.
  unfold wilson_interval.
  rewrite (pow2_finite_square z Hz). cbn [bind].
  destruct (truediv_int_positive_cases (z * z) n Hpos)
    as [-> | (-> & m & e & E)]; [reflexivity |].
  cbn [bind].
  destruct (truediv_int_positive_cases (z * z) (2 * n)) as [-> | (-> & _)];
    [lia | reflexivity |].
  cbn [bind]. unfold Py.truediv at 1.
  rewrite (denominator_nonzero (z * z / Py.float_of_Z n)%float).
  2:{ rewrite div_spec, E. apply div_sign_clear, square_sign_clear. }
  cbn [bind].
  destruct (truediv_int_positive_cases (p * (1 - p)) n Hpos)
    as [-> | (-> & _)]; [reflexivity |].
  cbn [bind].
  unfold Py.truediv_int at 1.
  rewrite (float_of_int_overflow (4 * n ^ 2) Hbig). reflexivity.
Qed.

Lemma oversized_sample_raises_overflow_witness :
  wilson_interval 0.7 (2 ^ 600) 1.96 = Raise OverflowError.
Proof.
  apply (oversized_sample_raises_overflow 0.7 (2 ^ 600) 1.96).
  - vm_compute. discriminate.
  - vm_compute. reflexivity.
Defined.



(** * The order of the two limits

    The difference [center - half] and the sum [center + half] are rounded
    separately; this part shows that the roundings keep them in order, and
    that the centre itself is not above 1.0. *)

(** ** Exact right shifts *)

Lemma iter_pos_nat {A : Type} (f : A -> A) (p : positive) (x : A) :
  iter_pos f p x = Nat.iter (Pos.to_nat p) f x.
Proof.
  revert x. induction p as [p IH | p IH |]; intros x; simpl iter_pos.
  - rewrite Pos2Nat.inj_xI. rewrite !IH.
    replace (S (2 * Pos.to_nat p)) with (Pos.to_nat p + Pos.to_nat p + 1)%nat by lia.
    rewrite !Nat.iter_add. reflexivity.
  - rewrite Pos2Nat.inj_xO. rewrite !IH.
    replace (2 * Pos.to_nat p)%nat with (Pos.to_nat p + Pos.to_nat p)%nat by lia.
    rewrite Nat.iter_add. reflexivity.
  - reflexivity.
Qed.

Lemma shr_1_record (q : Z) (r s : bool) :
  0 <= q ->
  shr_1 {| shr_m := q; shr_r := r; shr_s := s |} =
  {| shr_m := q / 2; shr_r := Z.odd q; shr_s := r || s |}.
Proof.
  intros Hq. destruct q as [| [p | p |] | p]; try lia; cbn [shr_1].
  - reflexivity.
  - f_equal. apply Z.div_unique with (r := 1); lia.
  - f_equal. apply Z.div_unique with (r := 0); lia.
  - reflexivity.
Qed.

Lemma mod_pow2_succ (m n : Z) :
  0 <= n ->
  m mod 2 ^ (n + 1) = m mod 2 ^ n + 2 ^ n * ((m / 2 ^ n) mod 2).
Proof.
  intros Hn. rewrite Z.pow_add_r by lia. change (2 ^ 1) with 2.
  apply Z.rem_mul_r; [| lia].
  apply Z.pow_nonzero; lia.
Qed.

(** Shifting an exact mantissa by [n] bits loses nothing when the [n] low
    bits are zero. *)
Lemma iter_shr_1_exact (m : Z) (n : nat) :
  0 <= m ->
  m mod 2 ^ Z.of_nat n = 0 ->
  Nat.iter n shr_1 {| shr_m := m; shr_r := false; shr_s := false |} =
  {| shr_m := m / 2 ^ Z.of_nat n; shr_r := false; shr_s := false |}.
Proof.
  intros Hm. induction n as [| n IH]; intros Hrem.
  - cbn [Nat.iter]. change (2 ^ Z.of_nat 0) with 1. rewrite Z.div_1_r.
    reflexivity.
  - rewrite Nat.iter_succ.
    assert (Hp : 0 < 2 ^ Z.of_nat n) by (apply Z.pow_pos_nonneg; lia).
    rewrite Nat2Z.inj_succ in Hrem. unfold Z.succ in Hrem.
    rewrite mod_pow2_succ in Hrem by lia.
    pose proof (Z.mod_pos_bound m (2 ^ Z.of_nat n) Hp) as Hb1.
    pose proof (Z.mod_pos_bound (m / 2 ^ Z.of_nat n) 2 ltac:(lia)) as Hb2.
    assert (H1 : m mod 2 ^ Z.of_nat n = 0) by nia.
    assert (H2 : (m / 2 ^ Z.of_nat n) mod 2 = 0) by nia.
    rewrite (IH H1).
    rewrite shr_1_record by (apply Z.div_pos; lia).
    rewrite Nat2Z.inj_succ. unfold Z.succ.
    rewrite Z.pow_add_r, Z.pow_1_r by lia.
    rewrite Z.div_div by lia.
    rewrite Zmod_odd in H2.
    destruct (Z.odd (m / 2 ^ Z.of_nat n)); [discriminate H2 | reflexivity].
Qed.

Lemma shr_exact (m e k : Z) :
  0 <= m -> m mod 2 ^ Z.max 0 k = 0 ->
  fst (shr {| shr_m := m; shr_r := false; shr_s := false |} e k) =
  {| shr_m := m / 2 ^ Z.max 0 k; shr_r := false; shr_s := false |}.
Proof.
  intros Hm Hrem. unfold shr. destruct k as [| p | p]; cbn [fst].
  - rewrite Z.max_id. change (2 ^ 0) with 1. rewrite Z.div_1_r. reflexivity.
  - rewrite Z.max_r in * by lia. rewrite iter_pos_nat.
    rewrite <- (positive_nat_Z p) in *.
    apply iter_shr_1_exact; assumption.
  - rewrite Z.max_l by lia. change (2 ^ 0) with 1. rewrite Z.div_1_r.
    reflexivity.
Qed.

(** The renormalisation after rounding is exact. *)
Lemma rounding_step_exact (M e m1 : Z) :
  0 < M ->
  e <= Z.max (Z.log2 M + 1 + e - 53) (-1074) ->
  let k := Z.max (Z.log2 M + 1 + e - 53) (-1074) - e in
  m1 = M / 2 ^ k \/ m1 = M / 2 ^ k + 1 ->
  let e1 := e + k in
  let k2 := Z.max 0 (Z.max (Zdigits2 m1 + e1 - 53) (-1074) - e1) in
  (m1 / 2 ^ k2) * 2 ^ k2 = m1.
Proof.
  intros HM Hpre k Hm1 e1 k2.
  assert (HL : 0 <= Z.log2 M) by apply Z.log2_nonneg.
  assert (Hk : 0 <= k) by (unfold k; lia).
  destruct (Z_le_gt_dec k (Z.log2 M)) as [Hle | Hgt].
  - destruct (log2_div_pow2 M k HM (conj Hk Hle)) as [Hpos Hlog].
    fold k in Hm1.
    assert (Hm1pos : 0 < m1) by lia.
    assert (HF : M / 2 ^ k < 2 ^ (Z.log2 M - k + 1)).
    { rewrite <- Hlog. apply Z.log2_spec. exact Hpos. }
    assert (Hd1 : Zdigits2 m1 = Z.log2 m1 + 1) by (apply Zdigits2_log2; lia).
    destruct (Z_le_gt_dec (Z.log2 m1) (Z.log2 M - k)) as [Hsame | Hup].
    + assert (Hk2 : k2 = 0) by (unfold k2, e1; rewrite Hd1; unfold k in *; lia).
      rewrite Hk2. change (2 ^ 0) with 1. rewrite Z.div_1_r. lia.
    + (* the mantissa was rounded up to a power of two *)
      assert (Hpow : m1 = 2 ^ (Z.log2 M - k + 1)).
      { assert (2 ^ (Z.log2 M - k + 1) <= m1).
        { destruct (Z.log2_spec m1 Hm1pos) as [Hlo _].
          transitivity (2 ^ Z.log2 m1); [apply Z.pow_le_mono_r; lia | exact Hlo]. }
        destruct Hm1 as [-> | ->]; lia. }
      assert (Hl1 : Z.log2 m1 = Z.log2 M - k + 1).
      { rewrite Hpow. apply Z.log2_pow2. lia. }
      assert (Hk2 : k2 = 0 \/ k2 = 1).
      { unfold k2, e1. rewrite Hd1, Hl1. unfold k in *. lia. }
      destruct Hk2 as [-> | ->].
      * change (2 ^ 0) with 1. rewrite Z.div_1_r. lia.
      * rewrite Hpow. rewrite Z.pow_1_r.
        replace (Z.log2 M - k + 1) with (Z.succ (Z.log2 M - k)) by lia.
        rewrite Z.pow_succ_r by lia.
        rewrite (Z.mul_comm 2), Z.div_mul by lia. reflexivity.
  - assert (Hz : M / 2 ^ k = 0) by (apply div_pow2_small; lia).
    fold k in Hm1. rewrite Hz in Hm1.
    assert (He1 : e1 = -1074) by (unfold e1, k in *; lia).
    assert (Hk2 : k2 = 0).
    { unfold k2. rewrite He1. destruct Hm1 as [-> | ->]; reflexivity. }
    rewrite Hk2. change (2 ^ 0) with 1. rewrite Z.div_1_r. lia.
Qed.

Lemma shr_fexp_exact (m e : Z) :
  0 <= m ->
  m mod 2 ^ Z.max 0 (fexp prec emax (Zdigits2 m + e) - e) = 0 ->
  loc_of_shr_record (fst (shr_fexp prec emax m e loc_Exact)) = loc_Exact.
Proof.
  intros Hm Hrem. unfold shr_fexp. cbn [shr_record_of_loc].
  rewrite shr_exact by assumption. reflexivity.
Qed.

(** The result of rounding a positive mantissa [M] at exponent [e]: the
    mantissa is cut at the exponent [g] of the format, possibly incremented
    (never when the cut bits of an exact mantissa are zero), and the result
    holds the same value in canonical form, or is the infinity when that
    value does not fit. *)
Lemma binary_round_aux_shape (M : positive) (e : Z) (l : location) :
  e <= Z.max (Z.log2 (Zpos M) + 1 + e - 53) (-1074) ->
  let g := Z.max (Z.log2 (Zpos M) + 1 + e - 53) (-1074) in
  let F := Zpos M / 2 ^ (g - e) in
  let r := binary_round_aux prec emax false (Zpos M) e l in
  exists m1,
    (m1 = F \/
     (m1 = F + 1 /\ (l = loc_Exact -> Zpos M mod 2 ^ (g - e) <> 0))) /\
    ((m1 = 0 /\ r = S754_zero false) \/
     (exists m2 e2,
        Zpos m2 * 2 ^ (e2 - g) = m1 /\ g <= e2 /\
        Z.max (Z.log2 (Zpos m2) + 1 + e2 - 53) (-1074) = e2 /\
        r = if e2 <=? 971 then S754_finite false m2 e2
            else S754_infinity false)).
Proof.
  intros Hpre g F r. unfold r, binary_round_aux.
  assert (Hk : 0 <= g - e) by (unfold g; lia).
  destruct (shr_fexp_spec (Zpos M) e l) as [Hm1 He1]; [lia |].
  pose proof (shr_fexp_exact (Zpos M) e (Pos2Z.is_nonneg M)) as Hex.
  simpl Zdigits2 in Hm1, He1, Hex.
  rewrite digits2_log2, fexp_eq in Hm1, He1, Hex.
  fold g in Hm1, He1, Hex.
  rewrite Z.max_r in Hm1, He1, Hex by lia.
  replace (e + (g - e)) with g in He1 by lia.
  fold F in Hm1.
  destruct (shr_fexp prec emax (Zpos M) e l) as [mrs1 e1] eqn:Eshr.
  simpl fst in Hm1; simpl snd in He1. subst e1.
  set (m1 := round_nearest_even (shr_m mrs1) (loc_of_shr_record mrs1)).
  assert (Hc : m1 = F \/ m1 = F + 1).
  { rewrite <- Hm1. apply round_nearest_even_cases. }
  assert (Hc' : m1 = Zpos M / 2 ^ (Z.max (Z.log2 (Zpos M) + 1 + e - 53) (-1074) - e)
               \/ m1 = Zpos M / 2 ^ (Z.max (Z.log2 (Zpos M) + 1 + e - 53) (-1074) - e) + 1)
    by exact Hc.
  destruct (rounding_step (Zpos M) e m1 (Pos2Z.is_pos M) Hpre Hc')
    as (Hnn & Hcan & _ & _).
  pose proof (rounding_step_exact (Zpos M) e m1 (Pos2Z.is_pos M) Hpre Hc')
    as Hexact.
  cbv zeta in Hexact. fold g in Hnn, Hcan, Hexact.
  replace (e + (g - e)) with g in Hnn, Hcan, Hexact by lia.
  assert (HF : 0 <= F).
  { apply Z.div_pos; [lia | apply Z.pow_pos_nonneg; lia]. }
  assert (Hm1nn : 0 <= m1) by lia.
  destruct (shr_fexp_spec m1 g loc_Exact Hm1nn) as [Hm2 He2].
  destruct (shr_fexp prec emax m1 g loc_Exact) as [mrs2 e2].
  simpl fst in Hm2; simpl snd in He2.
  rewrite fexp_eq in Hm2, He2.
  rewrite <- Hm2 in Hnn, Hcan, Hexact. rewrite <- He2 in Hcan.
  exists m1. split.
  - destruct Hc as [Hc | Hc]; [left; exact Hc | right].
    split; [exact Hc |]. intros -> Hrem.
    rewrite Eshr in Hex. cbn [fst] in Hex. specialize (Hex Hrem).
    unfold m1 in Hc. rewrite Hex in Hc. cbn [round_nearest_even] in Hc. lia.
  - destruct (shr_m mrs2) as [| m2 | m2] eqn:Em2.
    + left. split; [lia | reflexivity].
    + right. exists m2, e2.
      specialize (Hcan (Pos2Z.is_pos m2)).
      split; [rewrite <- Hexact; f_equal; f_equal; lia |].
      split; [lia |]. split; [exact Hcan |].
      change (emax - prec) with 971. reflexivity.
    + lia.
Qed.

(** ** Values of canonical floats *)

Lemma valid_canonical (s : bool) (m : positive) (e : Z) :
  valid_binary (S754_finite s m e) = true ->
  Z.max (Z.log2 (Zpos m) + 1 + e - 53) (-1074) = e /\ e <= 971.
Proof.
  intros H. cbn [SpecFloat.valid_binary] in H.
  unfold bounded, canonical_mantissa in H.
  rewrite digits2_log2, fexp_eq in H. change (emax - prec) with 971 in H.
  apply andb_prop in H. destruct H as [Hc Hb].
  apply Z.eqb_eq in Hc. apply Z.leb_le in Hb. split; assumption.
Qed.

Lemma pow2_split (a b : Z) : 0 <= a -> 0 <= b -> 2 ^ (a + b) = 2 ^ a * 2 ^ b.
Proof. intros. apply Z.pow_add_r; assumption. Qed.

Lemma mantissa_bounds (m : positive) :
  2 ^ Z.log2 (Zpos m) <= Zpos m < 2 ^ (Z.log2 (Zpos m) + 1).
Proof.
  pose proof (Z.log2_spec (Zpos m) (Pos2Z.is_pos m)) as H.
  unfold Z.succ in H. exact H.
Qed.

(** A canonical float with the larger exponent has the larger value. *)
Lemma scaled_lt_of_exponent (ma mb : positive) (ea eb : Z) :
  Z.max (Z.log2 (Zpos ma) + 1 + ea - 53) (-1074) = ea ->
  Z.max (Z.log2 (Zpos mb) + 1 + eb - 53) (-1074) = eb ->
  eb < ea ->
  scaled (Zpos mb) eb < scaled (Zpos ma) ea.
Proof.
  intros Ha Hb Hlt. unfold scaled.
  pose proof (Z.log2_nonneg (Zpos ma)) as Hla.
  pose proof (Z.log2_nonneg (Zpos mb)) as Hlb.
  assert (Hea : Z.log2 (Zpos ma) = 52) by lia.
  assert (Hlb' : Z.log2 (Zpos mb) <= 52) by lia.
  pose proof (mantissa_bounds ma) as [Hma _]. rewrite Hea in Hma.
  pose proof (mantissa_bounds mb) as [_ Hmb].
  assert (Hmb' : Zpos mb < 2 ^ 53).
  { eapply Z.lt_le_trans; [exact Hmb | apply Z.pow_le_mono_r; lia]. }
  replace (ea + 1074) with ((eb + 1074) + (ea - eb)) by lia.
  rewrite (pow2_split (eb + 1074) (ea - eb)) by lia.
  assert (HP : 0 < 2 ^ (eb + 1074)) by (apply Z.pow_pos_nonneg; lia).
  assert (HQ : 2 ^ 1 <= 2 ^ (ea - eb)) by (apply Z.pow_le_mono_r; lia).
  change (2 ^ 1) with 2 in HQ. change (2 ^ 53) with (2 * 2 ^ 52) in Hmb'.
  set (A := 2 ^ 52) in *. set (P := 2 ^ (eb + 1074)) in *.
  set (Q := 2 ^ (ea - eb)) in *.
  assert (HA : 0 < A) by (unfold A; lia).
  clearbody A P Q. clear - Hma Hmb' HP HQ HA.
  assert (H1 : Zpos mb * P < 2 * A * P)
    by (apply Z.mul_lt_mono_pos_r; assumption).
  assert (H2 : A * P <= Zpos ma * P)
    by (apply Z.mul_le_mono_nonneg_r; lia).
  assert (H3 : Zpos ma * P * 2 <= Zpos ma * P * Q)
    by (apply Z.mul_le_mono_nonneg_l; [apply Z.mul_nonneg_nonneg |]; lia).
  lia.
Qed.

Lemma SFleb_of_scaled (ma mb : positive) (ea eb : Z) :
  Z.max (Z.log2 (Zpos ma) + 1 + ea - 53) (-1074) = ea ->
  Z.max (Z.log2 (Zpos mb) + 1 + eb - 53) (-1074) = eb ->
  scaled (Zpos ma) ea <= scaled (Zpos mb) eb ->
  SFleb (S754_finite false ma ea) (S754_finite false mb eb) = true.
Proof.
  intros Ha Hb Hle. unfold SFleb, SFcompare.
  destruct (Z.compare_spec ea eb) as [Heq | Hlt | Hgt].
  - subst eb. unfold scaled in Hle.
    assert (HP : 0 < 2 ^ (ea + 1074)) by (apply Z.pow_pos_nonneg; lia).
    change (Pos.compare_cont Eq ma mb) with (Pos.compare ma mb).
    destruct (Pos.compare_spec ma mb) as [E | E | E]; try reflexivity.
    apply Pos2Z.pos_lt_pos in E. nia.
  - reflexivity.
  - pose proof (scaled_lt_of_exponent ma mb ea eb Ha Hb Hgt). lia.
Qed.

Lemma scaled_of_SFleb (ma mb : positive) (ea eb : Z) :
  Z.max (Z.log2 (Zpos ma) + 1 + ea - 53) (-1074) = ea ->
  Z.max (Z.log2 (Zpos mb) + 1 + eb - 53) (-1074) = eb ->
  SFleb (S754_finite false ma ea) (S754_finite false mb eb) = true ->
  scaled (Zpos ma) ea <= scaled (Zpos mb) eb.
Proof.
  intros Ha Hb Hle. unfold SFleb, SFcompare in Hle.
  destruct (Z.compare_spec ea eb) as [Heq | Hlt | Hgt].
  - subst eb. unfold scaled.
    assert (HP : 0 < 2 ^ (ea + 1074)) by (apply Z.pow_pos_nonneg; lia).
    change (Pos.compare_cont Eq ma mb) with (Pos.compare ma mb) in Hle.
    destruct (Pos.compare_spec ma mb) as [E | E | E]; try discriminate Hle.
    + subst. lia.
    + apply Pos2Z.pos_lt_pos in E. nia.
  - pose proof (scaled_lt_of_exponent mb ma eb ea Hb Ha Hlt). lia.
  - discriminate Hle.
Qed.

(** The magnitude of a value bounds the magnitude of a smaller one. *)
Lemma magnitude_of_scaled (ma mb : Z) (ea eb : Z) :
  0 < ma -> 0 < mb -> -1074 <= ea -> -1074 <= eb ->
  scaled ma ea <= scaled mb eb ->
  Z.log2 ma + ea <= Z.log2 mb + eb.
Proof.
  intros Hma Hmb Hea Heb Hle. unfold scaled in Hle.
  destruct (Z_le_gt_dec (Z.log2 ma + ea) (Z.log2 mb + eb)) as [H | H];
    [exact H | exfalso].
  pose proof (Z.log2_nonneg ma) as Hla.
  pose proof (Z.log2_nonneg mb) as Hlb.
  destruct (Z.log2_spec ma Hma) as [Hlo _].
  destruct (Z.log2_spec mb Hmb) as [_ Hhi]. unfold Z.succ in Hhi.
  assert (H1 : mb * 2 ^ (eb + 1074) < 2 ^ (Z.log2 mb + 1 + (eb + 1074))).
  { rewrite (pow2_split (Z.log2 mb + 1) (eb + 1074)) by lia.
    apply Z.mul_lt_mono_pos_r; [apply Z.pow_pos_nonneg; lia | exact Hhi]. }
  assert (H2 : 2 ^ (Z.log2 ma + (ea + 1074)) <= ma * 2 ^ (ea + 1074)).
  { rewrite (pow2_split (Z.log2 ma) (ea + 1074)) by lia.
    apply Z.mul_le_mono_nonneg_r; [apply Z.pow_nonneg; lia | exact Hlo]. }
  assert (H3 : 2 ^ (Z.log2 mb + 1 + (eb + 1074)) <= 2 ^ (Z.log2 ma + (ea + 1074))).
  { apply Z.pow_le_mono_r; lia. }
  lia.
Qed.

(** ** Rounding against a representable number *)

(** The value of [M] at exponent [e], split at the exponent [g]. *)
Lemma scaled_split (M e g : Z) :
  -1074 <= e -> e <= g ->
  2 ^ (g + 1074) = 2 ^ (g - e) * 2 ^ (e + 1074) /\
  scaled M e = (M / 2 ^ (g - e)) * 2 ^ (g + 1074)
               + (M mod 2 ^ (g - e)) * 2 ^ (e + 1074) /\
  0 <= (M mod 2 ^ (g - e)) * 2 ^ (e + 1074) < 2 ^ (g + 1074).
Proof.
  intros He Hg.
  assert (HK : 0 < 2 ^ (g - e)) by (apply Z.pow_pos_nonneg; lia).
  assert (HR : 0 < 2 ^ (e + 1074)) by (apply Z.pow_pos_nonneg; lia).
  assert (HG : 2 ^ (g + 1074) = 2 ^ (g - e) * 2 ^ (e + 1074)).
  { rewrite <- pow2_split by lia. f_equal. lia. }
  pose proof (Z.div_mod M (2 ^ (g - e)) ltac:(lia)) as Hdm.
  pose proof (Z.mod_pos_bound M (2 ^ (g - e)) HK) as Hb.
  unfold scaled. rewrite HG.
  set (K := 2 ^ (g - e)) in *. set (R := 2 ^ (e + 1074)) in *.
  set (F := M / K) in *. set (rem := M mod K) in *.
  clearbody K R F rem. clear - HK HR Hdm Hb.
  split; [reflexivity |]. split; [subst M; ring |]. nia.
Qed.

Lemma scaled_at (m e g : Z) :
  -1074 <= g -> g <= e -> scaled m e = m * 2 ^ (e - g) * 2 ^ (g + 1074).
Proof.
  intros Hg He. unfold scaled. rewrite <- Z.mul_assoc.
  rewrite <- pow2_split by lia. do 2 f_equal. lia.
Qed.

Lemma round_aux_le (M : positive) (e : Z) (l : location) (mc : positive) (ec : Z) :
  -1074 <= e ->
  e <= Z.max (Z.log2 (Zpos M) + 1 + e - 53) (-1074) ->
  Z.max (Z.log2 (Zpos mc) + 1 + ec - 53) (-1074) = ec -> ec <= 971 ->
  scaled (Zpos M) e <= scaled (Zpos mc) ec ->
  l = loc_Exact \/ scaled (Zpos M) e < scaled (Zpos mc) ec ->
  SFleb (binary_round_aux prec emax false (Zpos M) e l)
        (S754_finite false mc ec) = true.
Proof.
  intros He Hpre Hc Hec Hle Hstrict.
  destruct (binary_round_aux_shape M e l Hpre) as (m1 & Hm1 & Hres).
  set (g := Z.max (Z.log2 (Zpos M) + 1 + e - 53) (-1074)) in *.
  assert (Hg : -1074 <= g) by (unfold g; lia).
  destruct (scaled_split (Zpos M) e g He Hpre) as (HG & Hsplit & Hrem).
  set (F := Zpos M / 2 ^ (g - e)) in *.
  assert (HGpos : 0 < 2 ^ (g + 1074)) by (apply Z.pow_pos_nonneg; lia).
  assert (Hv : m1 * 2 ^ (g + 1074) <= scaled (Zpos mc) ec).
  { destruct Hm1 as [-> | [-> Hloc]]; [lia |].
    assert (Hlt : F * 2 ^ (g + 1074) < scaled (Zpos mc) ec).
    { destruct Hstrict as [-> | Hs]; [| lia].
      specialize (Hloc eq_refl).
      assert (0 < Zpos M mod 2 ^ (g - e)).
      { pose proof (Z.mod_pos_bound (Zpos M) (2 ^ (g - e))
                      ltac:(apply Z.pow_pos_nonneg; lia)). lia. }
      assert (0 < 2 ^ (e + 1074)) by (apply Z.pow_pos_nonneg; lia).
      assert (0 < Zpos M mod 2 ^ (g - e) * 2 ^ (e + 1074))
        by (apply Z.mul_pos_pos; assumption).
      lia. }
    assert (Hecg : g <= ec).
    { pose proof (magnitude_of_scaled (Zpos M) (Zpos mc) e ec
                    (Pos2Z.is_pos M) (Pos2Z.is_pos mc) He ltac:(lia) Hle).
      unfold g. lia. }
    rewrite (scaled_at (Zpos mc) ec g Hg Hecg) in *.
    set (T := Zpos mc * 2 ^ (ec - g)) in *.
    set (G := 2 ^ (g + 1074)) in *.
    clearbody T G F. clear - Hlt HGpos.
    assert (F < T) by (apply (Z.mul_lt_mono_pos_r G); assumption).
    apply Z.mul_le_mono_nonneg_r; lia. }
  destruct Hres as [[_ ->] | (m2 & e2 & Hm2 & Hge & Hcan & ->)];
    [reflexivity |].
  assert (Hval : scaled (Zpos m2) e2 = m1 * 2 ^ (g + 1074)).
  { rewrite (scaled_at (Zpos m2) e2 g Hg Hge), Hm2. reflexivity. }
  destruct (Z.leb_spec e2 971) as [Hfin | Hinf].
  - apply SFleb_of_scaled; try assumption. lia.
  - exfalso.
    pose proof (scaled_lt_of_exponent m2 mc e2 ec Hcan Hc ltac:(lia)). lia.
Qed.

Lemma round_aux_ge (M : positive) (e : Z) (l : location) (mc : positive) (ec : Z) :
  -1074 <= e ->
  e <= Z.max (Z.log2 (Zpos M) + 1 + e - 53) (-1074) ->
  Z.max (Z.log2 (Zpos mc) + 1 + ec - 53) (-1074) = ec ->
  scaled (Zpos mc) ec <= scaled (Zpos M) e ->
  SFleb (S754_finite false mc ec)
        (binary_round_aux prec emax false (Zpos M) e l) = true.
Proof.
  intros He Hpre Hc Hle.
  destruct (binary_round_aux_shape M e l Hpre) as (m1 & Hm1 & Hres).
  set (g := Z.max (Z.log2 (Zpos M) + 1 + e - 53) (-1074)) in *.
  assert (Hg : -1074 <= g) by (unfold g; lia).
  destruct (scaled_split (Zpos M) e g He Hpre) as (HG & Hsplit & Hrem).
  set (F := Zpos M / 2 ^ (g - e)) in *.
  assert (HGpos : 0 < 2 ^ (g + 1074)) by (apply Z.pow_pos_nonneg; lia).
  assert (Hcpos : 0 < scaled (Zpos mc) ec).
  { unfold scaled. apply Z.mul_pos_pos; [lia | apply Z.pow_pos_nonneg; lia]. }
  assert (HF : scaled (Zpos mc) ec <= F * 2 ^ (g + 1074)).
  { destruct (Z_le_gt_dec g ec) as [Hecg | Hecg].
    - rewrite (scaled_at (Zpos mc) ec g Hg Hecg) in *.
      set (T := Zpos mc * 2 ^ (ec - g)) in *.
      set (G := 2 ^ (g + 1074)) in *.
      set (r := Zpos M mod 2 ^ (g - e) * 2 ^ (e + 1074)) in *.
      clearbody T G F r. clear - Hle Hsplit Hrem HGpos.
      assert (T * G < (F + 1) * G) by lia.
      assert (T < F + 1) by (apply (Z.mul_lt_mono_pos_r G); assumption).
      apply Z.mul_le_mono_nonneg_r; lia.
    - assert (Hk : g - e = Z.log2 (Zpos M) - 52) by (unfold g in *; lia).
      pose proof (Z.log2_nonneg (Zpos M)) as HlM.
      destruct (log2_div_pow2 (Zpos M) (g - e) (Pos2Z.is_pos M)
                  ltac:(lia)) as [HFpos HlF].
      fold F in HFpos, HlF.
      assert (HF52 : 2 ^ 52 <= F).
      { destruct (Z.log2_spec F HFpos) as [Hlo _].
        replace (Z.log2 F) with 52 in Hlo by lia. exact Hlo. }
      pose proof (mantissa_bounds mc) as [_ Hmc].
      pose proof (Z.log2_nonneg (Zpos mc)) as Hlc.
      assert (Hmc' : Zpos mc < 2 ^ 53).
      { eapply Z.lt_le_trans; [exact Hmc | apply Z.pow_le_mono_r; lia]. }
      unfold scaled.
      assert (HP : 0 < 2 ^ (ec + 1074)) by (apply Z.pow_pos_nonneg; lia).
      assert (HQ : 2 * 2 ^ (ec + 1074) <= 2 ^ (g + 1074)).
      { change 2 with (2 ^ 1) at 1. rewrite <- pow2_split by lia.
        apply Z.pow_le_mono_r; lia. }
      change (2 ^ 53) with (2 * 2 ^ 52) in Hmc'.
      set (A := 2 ^ 52) in *. set (P := 2 ^ (ec + 1074)) in *.
      set (G := 2 ^ (g + 1074)) in *.
      assert (HA : 0 < A) by (unfold A; lia).
      clearbody A P G F. clear - HF52 Hmc' HP HQ HA.
      assert (H1 : Zpos mc * P < 2 * A * P)
        by (apply Z.mul_lt_mono_pos_r; assumption).
      assert (H2 : A * (2 * P) <= A * G)
        by (apply Z.mul_le_mono_nonneg_l; lia).
      assert (H3 : A * G <= F * G)
        by (apply Z.mul_le_mono_nonneg_r; lia).
      lia. }
  assert (Hm1F : F <= m1) by (destruct Hm1 as [-> | [-> _]]; lia).
  assert (Hv : scaled (Zpos mc) ec <= m1 * 2 ^ (g + 1074)).
  { assert (F * 2 ^ (g + 1074) <= m1 * 2 ^ (g + 1074))
      by (apply Z.mul_le_mono_nonneg_r; lia).
    lia. }
  destruct Hres as [[Hz _] | (m2 & e2 & Hm2 & Hge & Hcan & ->)].
  - exfalso. subst m1. lia.
  - assert (Hval : scaled (Zpos m2) e2 = m1 * 2 ^ (g + 1074)).
    { rewrite (scaled_at (Zpos m2) e2 g Hg Hge), Hm2. reflexivity. }
    destruct (Z.leb_spec e2 971) as [Hfin | Hinf]; [| reflexivity].
    apply SFleb_of_scaled; try assumption. lia.
Qed.

Lemma binary_round_as_aux (S : positive) (e : Z) :
  -1074 <= e ->
  exists mz ez,
    binary_round prec emax false S e
      = binary_round_aux prec emax false (Zpos mz) ez loc_Exact /\
    -1074 <= ez /\
    ez <= Z.max (Z.log2 (Zpos mz) + 1 + ez - 53) (-1074) /\
    scaled (Zpos mz) ez = scaled (Zpos S) e.
Proof.
  intros He. unfold binary_round.
  destruct (shl_align_spec S e (fexp prec emax (Zpos (digits2_pos S) + e)))
    as [Hez Hm].
  destruct (shl_align S e _) as [mz ez]. simpl fst in Hm; simpl snd in Hez.
  rewrite digits2_log2, fexp_eq in Hez, Hm.
  pose proof (Z.log2_nonneg (Zpos S)) as HlS.
  assert (Hlog : Z.log2 (Zpos mz) = Z.log2 (Zpos S) + (e - ez)).
  { rewrite Hm, <- Hez. rewrite Z.log2_mul_pow2; lia. }
  exists mz, ez. split; [reflexivity |].
  split; [lia |]. split; [rewrite Hlog; lia |].
  unfold scaled. rewrite Hm, <- Hez, <- Z.mul_assoc.
  rewrite <- pow2_split by lia. do 2 f_equal. lia.
Qed.

Lemma binary_round_le (S : positive) (e : Z) (mc : positive) (ec : Z) :
  -1074 <= e ->
  Z.max (Z.log2 (Zpos mc) + 1 + ec - 53) (-1074) = ec -> ec <= 971 ->
  scaled (Zpos S) e <= scaled (Zpos mc) ec ->
  SFleb (binary_round prec emax false S e) (S754_finite false mc ec) = true.
Proof.
  intros He Hc Hec Hle.
  destruct (binary_round_as_aux S e He) as (mz & ez & -> & Hez & Hpre & Hv).
  rewrite <- Hv in Hle.
  apply round_aux_le; try assumption. left. reflexivity.
Qed.

Lemma binary_round_ge (S : positive) (e : Z) (mc : positive) (ec : Z) :
  -1074 <= e ->
  Z.max (Z.log2 (Zpos mc) + 1 + ec - 53) (-1074) = ec ->
  scaled (Zpos mc) ec <= scaled (Zpos S) e ->
  SFleb (S754_finite false mc ec) (binary_round prec emax false S e) = true.
Proof.
  intros He Hc Hle.
  destruct (binary_round_as_aux S e He) as (mz & ez & -> & Hez & Hpre & Hv).
  rewrite <- Hv in Hle.
  apply round_aux_ge; assumption.
Qed.

(** ** A quotient below one *)

Lemma div_below_one (mu mD : positive) (eu eD : Z) :
  Z.max (Z.log2 (Zpos mu) + 1 + eu - 53) (-1074) = eu ->
  Z.max (Z.log2 (Zpos mD) + 1 + eD - 53) (-1074) = eD ->
  scaled (Zpos mu) eu < scaled (Zpos mD) eD ->
  -1021 <= Z.log2 (Zpos mu) + eu - (Z.log2 (Zpos mD) + eD) ->
  SFleb (SF64div (S754_finite false mu eu) (S754_finite false mD eD)) SFone
    = true.
Proof.
  intros Hcu HcD Hlt Hnorm.
  pose proof (Z.log2_nonneg (Zpos mu)) as Hlu.
  pose proof (Z.log2_nonneg (Zpos mD)) as HlD.
  assert (HX : Z.log2 (Zpos mu) + eu <= Z.log2 (Zpos mD) + eD).
  { apply magnitude_of_scaled; lia. }
  unfold SF64div, SFdiv, SFdiv_core_binary. cbn [xorb].
  simpl Zdigits2. rewrite !digits2_log2, fexp_eq.
  set (X := Z.log2 (Zpos mu) + 1 + eu - (Z.log2 (Zpos mD) + 1 + eD)).
  assert (He' : Z.min (Z.max (X - 53) (-1074)) (eu - eD) = X - 53)
    by (unfold X; lia).
  rewrite He'.
  set (s := eu - eD - (X - 53)).
  assert (Hs : s = 52 - Z.log2 (Zpos mu) + (Z.log2 (Zpos mD) + 1))
    by (unfold s, X; lia).
  assert (Hspos : 0 < s) by lia.
  destruct s as [| sp | sp] eqn:Es; try lia.
  rewrite Z.shiftl_mul_pow2 by lia. rewrite <- Es in *. clear Es sp.
  pose proof (Z_div_mod (Zpos mu * 2 ^ s) (Zpos mD) ltac:(lia)) as Hdiv.
  unfold Z.div_eucl in Hdiv |- *. fold (Z.div_eucl (Zpos mu * 2 ^ s) (Zpos mD)) in *.
  destruct (Z.div_eucl (Zpos mu * 2 ^ s) (Zpos mD)) as [q r].
  destruct Hdiv as [Hq Hr].
  pose proof (mantissa_bounds mu) as [Hmu_lo _].
  pose proof (mantissa_bounds mD) as [_ HmD_hi].
  (* the quotient has at least 53 bits *)
  assert (Hq52 : 2 ^ 52 <= q).
  { assert (H1 : 2 ^ (52 + (Z.log2 (Zpos mD) + 1)) <= Zpos mu * 2 ^ s).
    { replace (52 + (Z.log2 (Zpos mD) + 1)) with (Z.log2 (Zpos mu) + s) by lia.
      rewrite pow2_split by lia.
      apply Z.mul_le_mono_nonneg_r; [apply Z.pow_nonneg; lia | exact Hmu_lo]. }
    rewrite pow2_split in H1 by lia.
    set (A := 2 ^ 52) in *. set (B := 2 ^ (Z.log2 (Zpos mD) + 1)) in *.
    assert (HA : 0 < A) by (unfold A; lia).
    clearbody A B. clear - H1 Hq Hr HmD_hi HA.
    destruct (Z_le_gt_dec A q) as [H | H]; [exact H | exfalso].
    assert (Zpos mD * q <= Zpos mD * (A - 1))
      by (apply Z.mul_le_mono_nonneg_l; lia).
    assert (A * Zpos mD < A * B) by (apply Z.mul_lt_mono_pos_l; lia).
    lia. }
  assert (Hqpos : 0 < q) by (assert (0 < 2 ^ 52) by reflexivity; lia).
  (* the quotient is below one *)
  assert (Hqlt : q < 2 ^ (53 - X)).
  { unfold scaled in Hlt.
    assert (Ha : 0 <= eu + 1074) by lia.
    assert (Hb : 0 <= eD + 1074) by lia.
    assert (Hsum : (eu + 1074) + (53 - X) = s + (eD + 1074)) by (unfold s; lia).
    assert (HeX : 0 <= 53 - X) by (unfold X; lia).
    assert (H1 : q * (Zpos mD * 2 ^ (eu + 1074))
                 < 2 ^ (53 - X) * (Zpos mD * 2 ^ (eu + 1074))).
    { replace (2 ^ (53 - X) * (Zpos mD * 2 ^ (eu + 1074)))
        with (Zpos mD * 2 ^ (eD + 1074) * 2 ^ s).
      2:{ rewrite (Z.mul_comm (2 ^ (53 - X))), <- !Z.mul_assoc. f_equal.
          rewrite <- !pow2_split by lia. f_equal. lia. }
      set (Pa := 2 ^ (eu + 1074)) in *. set (Pb := 2 ^ (eD + 1074)) in *.
      set (Ps := 2 ^ s) in *.
      assert (HPs : 0 < Ps) by (apply Z.pow_pos_nonneg; lia).
      assert (HPa : 0 < Pa) by (apply Z.pow_pos_nonneg; lia).
      clearbody Pa Pb Ps. clear - Hlt Hq Hr HPs HPa.
      assert (q * Zpos mD <= Zpos mu * Ps) by lia.
      assert (q * Zpos mD * Pa <= Zpos mu * Ps * Pa)
        by (apply Z.mul_le_mono_nonneg_r; lia).
      assert (Zpos mu * Pa * Ps < Zpos mD * Pb * Ps)
        by (apply Z.mul_lt_mono_pos_r; assumption).
      lia. }
    apply (Z.mul_lt_mono_pos_r (Zpos mD * 2 ^ (eu + 1074))); [| exact H1].
    apply Z.mul_pos_pos; [lia | apply Z.pow_pos_nonneg; lia]. }
  destruct q as [| qp | qp]; try lia.
  assert (Hlq : 52 <= Z.log2 (Zpos qp)) by (apply Z.log2_le_pow2; lia).
  assert (Hval : scaled (Zpos qp) (X - 53) < scaled 4503599627370496 (-52)).
  { unfold scaled. change (4503599627370496 * 2 ^ (-52 + 1074)) with (2 ^ 1074).
    assert (HeX : 0 <= 53 - X) by (unfold X; lia).
    assert (HeY : 0 <= X - 53 + 1074) by (unfold X; lia).
    assert (Hone : 2 ^ 1074 = 2 ^ (53 - X) * 2 ^ (X - 53 + 1074)).
    { rewrite <- (pow2_split (53 - X) (X - 53 + 1074)) by assumption.
      f_equal. lia. }
    rewrite Hone.
    apply Z.mul_lt_mono_pos_r; [apply Z.pow_pos_nonneg; lia | exact Hqlt]. }
  apply round_aux_le.
  - unfold X. lia.
  - lia.
  - reflexivity.
  - lia.
  - apply Z.lt_le_incl. exact Hval.
  - right. exact Hval.
Qed.

(** ** Sums and differences of positive numbers *)

Lemma SFleb_trans (x y z : spec_float) :
  SFleb x y = true -> SFleb y z = true -> SFleb x z = true.
Proof.
  unfold SFleb, SFcompare.
  destruct x as [[] | [] | | [] mx ex];
    destruct y as [[] | [] | | [] my ey]; try discriminate;
    destruct z as [[] | [] | | [] mz ez]; try discriminate;
    try reflexivity; intros H1 H2; compare_cases.
Qed.

Lemma aligned_scaled (m : positive) (e e' : Z) :
  -1074 <= e' -> e' <= e ->
  scaled (Zpos (fst (shl_align m e e'))) e' = scaled (Zpos m) e.
Proof.
  intros He' Hle. destruct (shl_align_spec m e e') as [_ Hm].
  rewrite Z.min_r in Hm by lia. unfold scaled. rewrite Hm, <- Z.mul_assoc.
  rewrite <- pow2_split by lia. do 2 f_equal. lia.
Qed.

Lemma add_le (ma mb mc : positive) (ea eb ec : Z) :
  -1074 <= ea -> -1074 <= eb ->
  Z.max (Z.log2 (Zpos mc) + 1 + ec - 53) (-1074) = ec -> ec <= 971 ->
  scaled (Zpos ma) ea + scaled (Zpos mb) eb <= scaled (Zpos mc) ec ->
  SFleb (SF64add (S754_finite false ma ea) (S754_finite false mb eb))
        (S754_finite false mc ec) = true.
Proof.
  intros Ha Hb Hc Hec Hle.
  rewrite add_finite_unfold. unfold cond_Zopp.
  rewrite <- Pos2Z.inj_add. cbn [binary_normalize].
  apply binary_round_le; try assumption; [lia |].
  rewrite Pos2Z.inj_add. unfold scaled at 1. rewrite Z.mul_add_distr_r.
  fold (scaled (Zpos (fst (shl_align ma ea (Z.min ea eb)))) (Z.min ea eb)).
  fold (scaled (Zpos (fst (shl_align mb eb (Z.min ea eb)))) (Z.min ea eb)).
  rewrite !aligned_scaled by lia. exact Hle.
Qed.

Lemma add_ge (ma mb mc : positive) (ea eb ec : Z) :
  -1074 <= ea -> -1074 <= eb ->
  Z.max (Z.log2 (Zpos mc) + 1 + ec - 53) (-1074) = ec ->
  scaled (Zpos mc) ec <= scaled (Zpos ma) ea + scaled (Zpos mb) eb ->
  SFleb (S754_finite false mc ec)
        (SF64add (S754_finite false ma ea) (S754_finite false mb eb)) = true.
Proof.
  intros Ha Hb Hc Hle.
  rewrite add_finite_unfold. unfold cond_Zopp.
  rewrite <- Pos2Z.inj_add. cbn [binary_normalize].
  apply binary_round_ge; try assumption; [lia |].
  rewrite Pos2Z.inj_add. unfold scaled at 2. rewrite Z.mul_add_distr_r.
  fold (scaled (Zpos (fst (shl_align ma ea (Z.min ea eb)))) (Z.min ea eb)).
  fold (scaled (Zpos (fst (shl_align mb eb (Z.min ea eb)))) (Z.min ea eb)).
  rewrite !aligned_scaled by lia. exact Hle.
Qed.

Lemma rounded_true_not_positive (x : spec_float) :
  rounded true x -> SFltb (S754_zero false) x = false.
Proof. intros []; reflexivity. Qed.

(** A positive difference of two positive numbers is not above the
    minuend. *)
Lemma sub_le (ma mb : positive) (ea eb : Z) :
  valid_binary (S754_finite false ma ea) = true ->
  valid_binary (S754_finite false mb eb) = true ->
  SFltb (S754_zero false)
        (SF64sub (S754_finite false ma ea) (S754_finite false mb eb)) = true ->
  SFleb (SF64sub (S754_finite false ma ea) (S754_finite false mb eb))
        (S754_finite false ma ea) = true.
Proof.
  intros Hva Hvb. destruct (valid_canonical _ _ _ Hva) as [Hca Hea].
  destruct (valid_canonical _ _ _ Hvb) as [Hcb Heb].
  assert (Ha : -1074 <= ea) by lia. assert (Hb : -1074 <= eb) by lia.
  rewrite sub_finite_unfold. unfold cond_Zopp.
  pose proof (aligned_scaled ma ea (Z.min ea eb) ltac:(lia) ltac:(lia)) as Hsa.
  pose proof (aligned_scaled mb eb (Z.min ea eb) ltac:(lia) ltac:(lia)) as Hsb.
  set (Ma := Zpos (fst (shl_align ma ea (Z.min ea eb)))) in *.
  set (Mb := Zpos (fst (shl_align mb eb (Z.min ea eb)))) in *.
  assert (HMb : 0 < Mb) by (unfold Mb; lia).
  destruct (Ma - Mb) as [| S | S] eqn:E; cbn [binary_normalize].
  - discriminate.
  - intros _. apply binary_round_le; try assumption; [lia |].
    rewrite <- E, <- Hsa. unfold scaled.
    apply Z.mul_le_mono_nonneg_r; [apply Z.pow_nonneg; lia | lia].
  - intros H. exfalso.
    destruct (binary_round_spec true S (Z.min ea eb)) as (_ & Hr & _).
    rewrite (rounded_true_not_positive _ Hr) in H. discriminate H.
Qed.

Lemma add_ge_left (ma mb : positive) (ea eb : Z) :
  valid_binary (S754_finite false ma ea) = true ->
  valid_binary (S754_finite false mb eb) = true ->
  SFleb (S754_finite false ma ea)
        (SF64add (S754_finite false ma ea) (S754_finite false mb eb)) = true.
Proof.
  intros Hva Hvb. destruct (valid_canonical _ _ _ Hva) as [Hca Hea].
  destruct (valid_canonical _ _ _ Hvb) as [Hcb Heb].
  apply add_ge; try assumption; try lia.
  assert (0 <= scaled (Zpos mb) eb).
  { unfold scaled. apply Z.mul_nonneg_nonneg; [lia | apply Z.pow_nonneg; lia]. }
  lia.
Qed.

Lemma add_ge_right (ma mb : positive) (ea eb : Z) :
  valid_binary (S754_finite false ma ea) = true ->
  valid_binary (S754_finite false mb eb) = true ->
  SFleb (S754_finite false mb eb)
        (SF64add (S754_finite false ma ea) (S754_finite false mb eb)) = true.
Proof.
  intros Hva Hvb. destruct (valid_canonical _ _ _ Hva) as [Hca Hea].
  destruct (valid_canonical _ _ _ Hvb) as [Hcb Heb].
  apply add_ge; try assumption; try lia.
  assert (0 <= scaled (Zpos ma) ea).
  { unfold scaled. apply Z.mul_nonneg_nonneg; [lia | apply Z.pow_nonneg; lia]. }
  lia.
Qed.

(** ** The limits around a centre not above one *)

Lemma difference_and_sum (C H : spec_float) :
  valid_binary C = true -> valid_binary H = true ->
  SFleb C SFone = true -> sign_clear C = true -> sign_clear H = true ->
  SFltb (S754_zero false) (SF64sub C H) = true ->
  SFleb (SF64sub C H) C = true /\ SFleb C (SF64add C H) = true.
Proof.
  intros HvC HvH Hone HsC HsH Hpos.
  destruct C as [[] | [] | | [] mc ec]; try discriminate HsC;
    try discriminate Hone;
    destruct H as [[] | [] | | [] mh eh]; try discriminate HsH;
    try discriminate Hpos.
  - (* h = 0 *)
    cbn [SF64sub SFsub SF64add SFadd].
    split; apply SFleb_refl; discriminate.
  - split; [apply sub_le; assumption | apply add_ge_left; assumption].
Qed.

Lemma limits_ordered (c h : float) :
  (c <=? 1)%float = true ->
  sign_clear (Prim2SF c) = true -> sign_clear (Prim2SF h) = true ->
  (fmax 0 (c - h) <=? fmin 1 (c + h))%float = true.
Proof.
  intros Hone Hc Hh.
  assert (Hy : sign_clear (Prim2SF (c + h)) = true).
  { rewrite add_spec. apply add_sign_clear;
      [apply sign_clear_not_negative |]; assumption. }
  unfold fmax. destruct (0 <? c - h)%float eqn:Ex;
    [| apply fmin_one_lower; exact Hy].
  rewrite ltb_spec, sub_spec in Ex. change (Prim2SF 0) with (S754_zero false) in Ex.
  rewrite leb_spec in Hone. change (Prim2SF 1) with SFone in Hone.
  destruct (difference_and_sum (Prim2SF c) (Prim2SF h)
              (Prim2SF_valid c) (Prim2SF_valid h) Hone Hc Hh Ex) as [Hxc Hcy].
  unfold fmin. destruct (c + h <? 1)%float.
  - rewrite leb_spec, sub_spec, add_spec.
    exact (SFleb_trans _ _ _ Hxc Hcy).
  - rewrite leb_spec, sub_spec. change (Prim2SF 1) with SFone.
    exact (SFleb_trans _ _ _ Hxc Hone).
Qed.

(** ** The centre of the default interval *)

Lemma default_constants :
  Prim2SF (default_z * default_z / Py.float_of_Z (2 * default_n))
    = S754_finite false 5536329065122079 (-58) /\
  Prim2SF (1 + default_z * default_z / Py.float_of_Z default_n)
    = S754_finite false 4676609910655561 (-52).
Proof. split; vm_compute; reflexivity. Qed.

Lemma default_constants_ordered :
  scaled 4503599627370496 (-52) + scaled 5536329065122079 (-58)
    <= scaled 4644337115725824 (-52) /\
  scaled 4644337115725824 (-52) < scaled 4676609910655561 (-52).
Proof.
  split.
  - vm_compute. discriminate.
  - vm_compute. reflexivity.
Qed.

Lemma centre_at_most_one (p : float) :
  (0 <=? p)%float = true -> (p <=? 1)%float = true ->
  ((p + default_z * default_z / Py.float_of_Z (2 * default_n))
   / (1 + default_z * default_z / Py.float_of_Z default_n) <=? 1)%float = true.
Proof.
  intros H0 H1.
  destruct default_constants as [Eq2 ED].
  destruct default_constants_ordered as [N1 N2].
  rewrite leb_spec, div_spec, add_spec, Eq2, ED.
  change (Prim2SF 1) with SFone.
  rewrite leb_spec in H0, H1.
  change (Prim2SF 0) with (S754_zero false) in H0.
  change (Prim2SF 1) with SFone in H1.
  pose proof (Prim2SF_valid p) as Hvp.
  pose proof (Prim2SF_valid (p + default_z * default_z / Py.float_of_Z (2 * default_n)))
    as HvU.
  rewrite add_spec, Eq2 in HvU.
  destruct (Prim2SF p) as [[] | [] | | [] mp ep];
    try discriminate H0; try discriminate H1.
  1-2: vm_compute; reflexivity.
  destruct (valid_canonical _ _ _ Hvp) as [Hcp Hep].
  assert (Hq2v : valid_binary (S754_finite false 5536329065122079 (-58)) = true)
    by reflexivity.
  pose proof (scaled_of_SFleb mp 4503599627370496 ep (-52) Hcp eq_refl H1) as Hp1.
  assert (HUle : SFleb (SF64add (S754_finite false mp ep)
                          (S754_finite false 5536329065122079 (-58)))
                       (S754_finite false 4644337115725824 (-52)) = true).
  { apply add_le; try reflexivity; lia. }
  pose proof (add_ge_right mp 5536329065122079 ep (-58) Hvp Hq2v) as HUge.
  destruct (SF64add (S754_finite false mp ep)
              (S754_finite false 5536329065122079 (-58)))
    as [[] | [] | | [] mu eu]; try discriminate HUle; try discriminate HUge.
  destruct (valid_canonical _ _ _ HvU) as [Hcu Heu].
  pose proof (scaled_of_SFleb mu 4644337115725824 eu (-52) Hcu eq_refl HUle)
    as Hu1.
  pose proof (scaled_of_SFleb 5536329065122079 mu (-58) eu eq_refl Hcu HUge)
    as Hu2.
  pose proof (magnitude_of_scaled 5536329065122079 (Zpos mu) (-58) eu
                eq_refl (Pos2Z.is_pos mu) ltac:(lia) ltac:(lia) Hu2) as Hmag.
  change (Z.log2 5536329065122079) with 52 in Hmag.
  apply div_below_one.
  - exact Hcu.
  - reflexivity.
  - set (k := scaled 4644337115725824 (-52)) in *.
    set (d := scaled 4676609910655561 (-52)) in *.
    set (u := scaled (Zpos mu) eu) in *.
    clearbody k d u. clear - Hu1 N2. lia.
  - change (Z.log2 4676609910655561) with 52. lia.
Qed.

Lemma default_limits_ordered (p : float) :
  (0 <=? p)%float = true -> (p <=? 1)%float = true ->
  (fst (wilson_spec p default_n default_z)
   <=? snd (wilson_spec p default_n default_z))%float = true.
Proof.
  intros H0 H1. destruct default_arguments_fit as (Hn & Hb & Hz & Hs).
  destruct (sample_size_bounds default_n Hn Hb) as (Hn1 & Hn2 & Hn4).
  unfold wilson_spec. cbv zeta. cbn [fst snd].
  assert (Hd : sign_clear (Prim2SF (1 + default_z * default_z
                                        / Py.float_of_Z default_n)) = true).
  { apply denominator_sign_clear, div_float_of_Z_sign_clear;
      [exact Hn1 | apply square_sign_clear]. }
  apply limits_ordered.
  - exact (centre_at_most_one p H0 H1).
  - rewrite div_spec. apply div_sign_clear_gen; [| exact Hd].
    rewrite add_spec. apply add_sign_clear; [apply leb_zero_SF; exact H0 |].
    apply div_float_of_Z_sign_clear; [exact Hn2 | apply square_sign_clear].
  - rewrite div_spec. apply div_sign_clear_gen; [| exact Hd].
    rewrite mul_spec. apply mul_sign_clear; [exact Hs |].
    rewrite sqrt_spec. apply sqrt_sign_clear.
    exact (radicand_in_unit_interval p default_n default_z Hn Hb H0 H1).
Qed.

(** X16: for every p in [0, 1] the default interval is returned with
    0.0 <= lower <= upper <= 1.0: the lower limit is never above the upper
    limit, whatever the rounding of the binary64 operations does. *)
Theorem lower_limit_is_not_above_upper_limit (p : float) :
  (0 <=? p)%float = true -> (p <=? 1)%float = true ->
  exists lo hi,
    wilson_interval_default p = Ok (lo, hi) /\
    (0 <=? lo)%float = true /\ (lo <=? hi)%float = true /\
    (hi <=? 1)%float = true.
Proof.
  intros H0 H1.
  destruct (wilson_default_in_unit_interval p H0 H1) as (Hw & Hlo & _ & Hhi).
  pose proof (default_limits_ordered p H0 H1) as Hord.
  destruct (wilson_spec p default_n default_z) as [lo hi].
  exists lo, hi. cbn [fst snd] in *. repeat split; assumption.
Qed.

Lemma lower_limit_is_not_above_upper_limit_witness :
  exists lo hi,
    wilson_interval_default 0.3 = Ok (lo, hi) /\
    (0 <=? lo)%float = true /\ (lo <=? hi)%float = true /\
    (hi <=? 1)%float = true.
Proof.
  apply (lower_limit_is_not_above_upper_limit 0.3); vm_compute; reflexivity.
Defined.

(** * The interval for an arbitrary C library

    [x ** y] calls the C library's [pow], whose last bit is not specified.
    The statements below hold for every such function [pw]; the interval
    [wilson_interval] used so far is the one of the correctly rounded
    [pow]. *)

(** ** Sample sizes that fit a float *)

(** Conversion of a positive int up to the largest float. *)

Lemma float_of_Z_fits (n : Z) :
  0 < n <= max_float_int ->
  exists m e, Prim2SF (Py.float_of_Z n) = S754_finite false m e.
Proof.
  intros [Hpos Hle]. destruct n as [| p | p]; try lia.
  unfold Py.float_of_Z. cbn [binary_normalize].
  destruct (binary_round_spec false p 0) as (Hv & Hr & Hn & Hz & _).
  assert (Hb : SFleb (binary_round prec emax false p 0)
                     (S754_finite false 9007199254740991 971) = true).
  { apply binary_round_le; try reflexivity; try lia.
    unfold scaled. unfold max_float_int in Hle.
    replace (971 + 1074) with (971 + (0 + 1074)) by lia.
    rewrite (pow2_split 971 (0 + 1074)) by lia.
    rewrite Z.mul_assoc.
    apply Z.mul_le_mono_nonneg_r; [apply Z.pow_nonneg; lia | exact Hle]. }
  rewrite Prim2SF_SF2Prim by exact Hv.
  inversion Hr as [E | E | E | m e E].
  - congruence.
  - exfalso. apply Hz; [lia | congruence].
  - rewrite <- E in Hb. discriminate Hb.
  - exists m, e. reflexivity.
Qed.

Lemma truediv_int_fits (a : float) (n : Z) :
  0 < n <= max_float_int ->
  Py.truediv_int a n = Ok (a / Py.float_of_Z n)%float.
Proof.
  intros H. destruct (float_of_Z_fits n H) as (m & e & E).
  unfold Py.truediv_int, Py.float_of_int. rewrite is_infinity_SF, E.
  cbn [bind]. unfold Py.truediv. rewrite eqb_zero_SF, E. reflexivity.
Qed.

Lemma div_fits_sign_clear (a : float) (n : Z) :
  0 < n <= max_float_int ->
  sign_clear (Prim2SF a) = true ->
  sign_clear (Prim2SF (a / Py.float_of_Z n)) = true.
Proof.
  intros H Ha. destruct (float_of_Z_fits n H) as (m & e & E).
  rewrite div_spec, E. apply div_sign_clear. exact Ha.
Qed.

Lemma div_fits_not_negative (a : float) (n : Z) :
  0 < n <= max_float_int ->
  not_negative (Prim2SF a) = true ->
  not_negative (Prim2SF (a / Py.float_of_Z n)) = true.
Proof.
  intros H Ha. destruct (float_of_Z_fits n H) as (m & e & E).
  rewrite div_spec, E. apply div_not_negative. exact Ha.
Qed.

Lemma sample_size_fits (n : Z) :
  0 < n -> 4 * n ^ 2 <= max_float_int ->
  0 < n <= max_float_int /\ 0 < 2 * n <= max_float_int /\
  0 < 4 * n ^ 2 <= max_float_int.
Proof.
  intros Hn Hb. rewrite Z.pow_2_r in *.
  assert (n * 1 <= n * n) by (apply Z.mul_le_mono_nonneg_l; lia).
  set (t := max_float_int) in *. clearbody t. lia.
Qed.

Lemma pow2_with_value (pw : float -> float -> float) (z : float) :
  is_infinity (square_with pw z) = false ->
  pow2_with pw z = Ok (square_with pw z).
Proof.
  unfold square_with, pow2_with.
  destruct (is_nan z); [reflexivity |].
  destruct (is_infinity z); [reflexivity |].
  destruct (z =? 0)%float; [reflexivity |].
  destruct (abs z =? 1)%float; [reflexivity |].
  intros ->. reflexivity.
Qed.

Lemma pow_half_with_value (pw : float -> float -> float) (r : float) :
  sign_clear (Prim2SF r) = true ->
  is_infinity (root_with pw r) = false ->
  pow_half_with pw r = Ok (Py.Real (root_with pw r)).
Proof.
  intros Hs. unfold root_with, pow_half_with.
  destruct (is_nan r); [reflexivity |].
  destruct (is_infinity r); [reflexivity |].
  destruct (r =? 0)%float; [reflexivity |].
  rewrite (sign_clear_ltb_zero r Hs).
  destruct (r =? 1)%float; [reflexivity |].
  intros ->. reflexivity.
Qed.

Lemma radicand_with_never_negative_zero
  (pw : float -> float -> float) (p : float) (n : Z) (z : float) :
  0 < n -> 4 * n ^ 2 <= max_float_int ->
  sign_clear (Prim2SF (square_with pw z)) = true ->
  (radicand_with pw p n z <? 0)%float = false ->
  sign_clear (Prim2SF (radicand_with pw p n z)) = true.
Proof.
  intros Hn Hb Hsq Hr. destruct (sample_size_fits n Hn Hb) as (_ & _ & H4).
  rewrite ltb_zero_SF in Hr. apply negb_false_iff in Hr.
  assert (Hz : Prim2SF (radicand_with pw p n z) <> S754_zero true).
  { unfold radicand_with. rewrite add_spec.
    apply add_not_negative_zero; try apply Prim2SF_valid.
    apply div_fits_sign_clear; [exact H4 | exact Hsq]. }
  destruct (Prim2SF (radicand_with pw p n z)) as [[] | [] | | [] m e];
    try reflexivity; try discriminate Hr.
  congruence.
Qed.

Lemma radicand_with_in_unit_interval
  (pw : float -> float -> float) (p : float) (n : Z) (z : float) :
  0 < n -> 4 * n ^ 2 <= max_float_int ->
  sign_clear (Prim2SF (square_with pw z)) = true ->
  (0 <=? p)%float = true -> (p <=? 1)%float = true ->
  sign_clear (Prim2SF (radicand_with pw p n z)) = true.
Proof.
  intros Hn Hb Hsq H0 H1p.
  destruct (sample_size_fits n Hn Hb) as (H1 & _ & H4).
  unfold radicand_with. rewrite add_spec. apply add_sign_clear.
  - apply div_fits_not_negative; [exact H1 |].
    rewrite mul_spec. apply mul_not_negative.
    + apply leb_zero_SF. exact H0.
    + rewrite sub_spec. change (Prim2SF 1) with SFone.
      apply one_minus_sign_clear; [apply Prim2SF_valid |].
      rewrite leb_spec in H1p. exact H1p.
  - apply div_fits_sign_clear; [exact H4 | exact Hsq].
Qed.

(** Where no division and no power raises, the function performs the
    steps of the formula. *)
Lemma wilson_interval_with_unfolded
  (pw : float -> float -> float) (p : float) (n : Z) (z : float) :
  0 < n -> 4 * n ^ 2 <= max_float_int ->
  is_infinity (square_with pw z) = false ->
  sign_clear (Prim2SF (square_with pw z)) = true ->
  pow_half_with pw (radicand_with pw p n z)
    = Ok (Py.Real (root_with pw (radicand_with pw p n z))) ->
  wilson_interval_with pw p n z = Ok (wilson_formula pw p n z).
Proof.
  intros Hn Hb Hz Hsq Hroot.
  destruct (sample_size_fits n Hn Hb) as (H1 & H2 & H4).
  unfold radicand_with in Hroot.
  unfold wilson_interval_with.
  rewrite (pow2_with_value pw z Hz). cbn [bind].
  rewrite !truediv_int_fits by assumption. cbn [bind].
  unfold Py.truediv.
  rewrite (denominator_nonzero (square_with pw z / Py.float_of_Z n)%float)
    by (apply div_fits_sign_clear; [exact H1 | exact Hsq]).
  cbn [bind].
  rewrite Hroot.
  cbn [Py.mul Py.div bind]. unfold Py.truediv.
  rewrite (denominator_nonzero (square_with pw z / Py.float_of_Z n)%float)
    by (apply div_fits_sign_clear; [exact H1 | exact Hsq]).
  reflexivity.
Qed.

Lemma wilson_interval_with_steps
  (pw : float -> float -> float) (p : float) (n : Z) (z : float) :
  0 < n -> 4 * n ^ 2 <= max_float_int ->
  is_infinity (square_with pw z) = false ->
  sign_clear (Prim2SF (square_with pw z)) = true ->
  sign_clear (Prim2SF (radicand_with pw p n z)) = true ->
  is_infinity (root_with pw (radicand_with pw p n z)) = false ->
  wilson_interval_with pw p n z = Ok (wilson_formula pw p n z).
Proof.
  intros Hn Hb Hz Hsq Hs Hroot.
  apply wilson_interval_with_unfolded; try assumption.
  apply pow_half_with_value; assumption.
Qed.

Lemma zero_sample_size_with (pw : float -> float -> float) (p z : float) :
  is_infinity (square_with pw z) = false ->
  wilson_interval_with pw p 0 z = Raise ZeroDivisionError.
Proof.
  intros Hz. unfold wilson_interval_with.
  rewrite (pow2_with_value pw z Hz). reflexivity.
Qed.

(** ** The square root of a finite number *)

(** The square root of a positive finite number is neither infinite, nor
    zero, nor nan. *)
Lemma sqrt_core_shape (m : positive) (e : Z) :
  valid_binary (S754_finite false m e) = true ->
  SF64sqrt (S754_finite false m e) <> S754_infinity false /\
  SF64sqrt (S754_finite false m e) <> S754_zero false /\
  SF64sqrt (S754_finite false m e) <> S754_nan.
Proof.
  intros Hv. destruct (valid_canonical _ _ _ Hv) as [Hc He].
  pose proof (Z.log2_nonneg (Zpos m)) as Hlm.
  unfold SF64sqrt, SFsqrt, SFsqrt_core_binary.
  simpl Zdigits2. rewrite digits2_log2, fexp_eq.
  rewrite !Z.div2_div.
  set (d := Z.log2 (Zpos m) + 1).
  set (e' := Z.min (Z.max ((d + e + 1) / 2 - 53) (-1074)) (e / 2)).
  pose proof (Z.div_mod e 2 ltac:(lia)) as Hdm1.
  pose proof (Z.mod_pos_bound e 2 ltac:(lia)) as Hb1.
  pose proof (Z.div_mod (d + e + 1) 2 ltac:(lia)) as Hdm2.
  pose proof (Z.mod_pos_bound (d + e + 1) 2 ltac:(lia)) as Hb2.
  assert (Hs : 0 <= e - 2 * e') by (unfold e'; lia).
  set (s := e - 2 * e') in *.
  set (m' := match s with 0 => Zpos m | Zpos _ => Z.shiftl (Zpos m) s | Zneg _ => 0 end).
  assert (Hm' : m' = Zpos m * 2 ^ s).
  { unfold m'. destruct s as [| sp | sp]; try lia.
    apply Z.shiftl_mul_pow2. lia. }
  clearbody m'.
  assert (Hm'pos : 0 < m').
  { rewrite Hm'. apply Z.mul_pos_pos; [lia | apply Z.pow_pos_nonneg; lia]. }
  assert (Hlog' : Z.log2 m' = Z.log2 (Zpos m) + s).
  { rewrite Hm'. rewrite Z.log2_mul_pow2; lia. }
  pose proof (Z.sqrtrem_spec m' ltac:(lia)) as Hsq.
  destruct (Z.sqrtrem m') as [q r]. destruct Hsq as [Hq Hr].
  assert (Hqpos : 0 < q) by nia.
  destruct q as [| qp | qp]; try lia.
  pose proof (Z.log2_nonneg (Zpos qp)) as Hlq.
  (* the size of the root *)
  assert (Hup : 2 * Z.log2 (Zpos qp) <= Z.log2 m').
  { destruct (Z.log2_spec (Zpos qp) ltac:(lia)) as [Hlo _].
    apply Z.log2_le_pow2; [lia |].
    replace (2 * Z.log2 (Zpos qp)) with (Z.log2 (Zpos qp) + Z.log2 (Zpos qp)) by lia.
    rewrite Z.pow_add_r by lia.
    assert (2 ^ Z.log2 (Zpos qp) * 2 ^ Z.log2 (Zpos qp) <= Zpos qp * Zpos qp)
      by (apply Z.mul_le_mono_nonneg; lia).
    lia. }
  assert (Hdown : Z.log2 m' <= 2 * Z.log2 (Zpos qp) + 1).
  { destruct (Z.log2_spec (Zpos qp) ltac:(lia)) as [_ Hhi].
    unfold Z.succ in Hhi.
    assert (Hlt : m' < 2 ^ (2 * Z.log2 (Zpos qp) + 2)).
    { replace (2 * Z.log2 (Zpos qp) + 2)
        with ((Z.log2 (Zpos qp) + 1) + (Z.log2 (Zpos qp) + 1)) by lia.
      rewrite Z.pow_add_r by lia.
      assert ((Zpos qp + 1) * (Zpos qp + 1)
              <= 2 ^ (Z.log2 (Zpos qp) + 1) * 2 ^ (Z.log2 (Zpos qp) + 1))
        by (apply Z.mul_le_mono_nonneg; lia).
      nia. }
    apply Z.log2_lt_pow2 in Hlt; lia. }
  destruct (binary_round_aux_spec false qp e'
              (if r =? 0 then loc_Exact
               else loc_Inexact (if r <=? Zpos qp then Lt else Gt)))
    as (_ & Hnan & Hnz & Hfin).
  - rewrite digits2_log2, fexp_eq. unfold e', s, d in *. lia.
  - split; [| split; [| exact Hnan]].
    + apply Hfin. rewrite digits2_log2. unfold e', s, d in *. lia.
    + apply Hnz. rewrite digits2_log2, fexp_eq. unfold e', s, d in *. lia.
Qed.

Lemma sqrt_finite (x : float) :
  is_infinity x = false -> is_infinity (sqrt x) = false.
Proof.
  rewrite !is_infinity_SF, sqrt_spec. intros H.
  pose proof (Prim2SF_valid x) as Hv.
  destruct (Prim2SF x) as [[] | [] | | [] m e]; try reflexivity;
    try discriminate H.
  destruct (sqrt_core_shape m e Hv) as (Hne & _ & _).
  pose proof (sqrt_sign_clear (S754_finite false m e) eq_refl) as Hs.
  destruct (SF64sqrt (S754_finite false m e)) as [[] | [] | | [] ? ?];
    try reflexivity; try discriminate Hs. congruence.
Qed.

(** ** The correctly rounded instance *)

Lemma mul_abs (x : float) : (abs x * abs x)%float = (x * x)%float.
Proof.
  apply Prim2SF_inj. rewrite !mul_spec, abs_spec.
  destruct (Prim2SF x) as [[] | [] | | [] m e]; reflexivity.
Qed.

Lemma eqb_one_SF (x : float) :
  (x =? 1)%float = true -> Prim2SF x = SFone.
Proof.
  rewrite eqb_spec. change (Prim2SF 1) with SFone.
  unfold SFeqb, SFone, SFcompare.
  destruct (Prim2SF x) as [[] | [] | | [] m e]; try discriminate.
  destruct (Z.compare_spec e (-52)) as [-> | _ | _]; try discriminate.
  destruct (Pos.compare_cont Eq m 4503599627370496) eqn:Ec;
    try discriminate.
  intros _. apply (Pos.compare_eq m 4503599627370496) in Ec.
  rewrite Ec. reflexivity.
Qed.

Lemma pow2_with_rounded (x : float) : pow2_with rounded_pow x = Py.pow2 x.
Proof.
  unfold pow2_with, Py.pow2.
  destruct (is_nan x); [reflexivity |].
  destruct (is_infinity x); [reflexivity |].
  destruct (x =? 0)%float eqn:E0.
  - rewrite eqb_zero_SF in E0.
    assert (Hz : (x * x)%float = 0%float).
    { apply Prim2SF_inj. rewrite mul_spec.
      destruct (Prim2SF x) as [[] | [] | | [] m e]; try discriminate E0;
        reflexivity. }
    rewrite Hz. reflexivity.
  - destruct (abs x =? 1)%float eqn:E1.
    + apply eqb_one_SF in E1. rewrite abs_spec in E1.
      assert (Hz : (x * x)%float = 1%float).
      { apply Prim2SF_inj. rewrite mul_spec.
        destruct (Prim2SF x) as [[] | [] | | [] m e]; try discriminate E1;
          injection E1 as -> ->; reflexivity. }
      rewrite Hz. reflexivity.
    + unfold rounded_pow. change (2 =? 2)%float with true. cbv iota.
      rewrite mul_abs. reflexivity.
Qed.

Lemma pow_half_with_rounded (x : float) :
  pow_half_with rounded_pow x = Ok (Py.pow_half x).
Proof.
  unfold pow_half_with, Py.pow_half.
  destruct (is_nan x); [reflexivity |].
  destruct (is_infinity x) eqn:Ei; [reflexivity |].
  destruct (x =? 0)%float; [reflexivity |].
  destruct (x <? 0)%float; [reflexivity |].
  destruct (x =? 1)%float eqn:E1.
  - apply eqb_one_SF in E1.
    assert (Hz : sqrt x = 1%float).
    { apply Prim2SF_inj. rewrite sqrt_spec, E1. reflexivity. }
    rewrite Hz. reflexivity.
  - unfold rounded_pow. change (0.5 =? 2)%float with false. cbv iota.
    rewrite (sqrt_finite x Ei). reflexivity.
Qed.

(** [wilson_interval] is [wilson_interval_with] for the correctly rounded
    [pow]. *)
Lemma wilson_interval_with_rounded (p : float) (n : Z) (z : float) :
  wilson_interval_with rounded_pow p n z = wilson_interval p n z.
Proof.
  unfold wilson_interval_with, wilson_interval.
  rewrite pow2_with_rounded.
  destruct (Py.pow2 z) as [zz | err]; [cbn [bind] | reflexivity].
  destruct (Py.truediv_int zz n) as [q1 | err]; [cbn [bind] | reflexivity].
  destruct (Py.truediv_int zz (2 * n)) as [q2 | err]; [cbn [bind] | reflexivity].
  destruct (Py.truediv (p + q2) (1 + q1)) as [c | err];
    [cbn [bind] | reflexivity].
  destruct (Py.truediv_int (p * (1 - p)) n) as [a | err];
    [cbn [bind] | reflexivity].
  destruct (Py.truediv_int zz (4 * n ^ 2)) as [b | err];
    [cbn [bind] | reflexivity].
  rewrite pow_half_with_rounded. reflexivity.
Qed.

(** ** Sample sizes whose square does not fit *)

Lemma oversized_sample_with
  (pw : float -> float -> float) (p : float) (n : Z) (z : float) :
  2 ^ 511 <= n ->
  is_infinity (square_with pw z) = false ->
  sign_clear (Prim2SF (square_with pw z)) = true ->
  wilson_interval_with pw p n z = Raise OverflowError.
Proof.
  intros Hn Hz Hsq.
  assert (Hp : 0 < 2 ^ 511) by (apply Z.pow_pos_nonneg; lia).
  assert (Hpos : 0 < n) by lia.
  pose proof (square_of_big n Hn) as Hbig.
  unfold wilson_interval_with.
  rewrite (pow2_with_value pw z Hz). cbn [bind].
  destruct (truediv_int_positive_cases (square_with pw z) n Hpos)
    as [-> | (-> & m & e & E)]; [reflexivity |].
  cbn [bind].
  destruct (truediv_int_positive_cases (square_with pw z) (2 * n))
    as [-> | (-> & _)]; [lia | reflexivity |].
  cbn [bind]. unfold Py.truediv at 1.
  rewrite (denominator_nonzero (square_with pw z / Py.float_of_Z n)%float).
  2:{ rewrite div_spec, E. apply div_sign_clear. exact Hsq. }
  cbn [bind].
  destruct (truediv_int_positive_cases (p * (1 - p)) n Hpos)
    as [-> | (-> & _)]; [reflexivity |].
  cbn [bind].
  unfold Py.truediv_int at 1.
  rewrite (float_of_int_overflow (4 * n ^ 2) Hbig). reflexivity.
Qed.

(** ** The error of one rounding *)

(** A finite result of rounding lies within one unit of the format's
    exponent [g] of the value that was rounded. *)
Lemma round_aux_value_bounds (M : positive) (e : Z) (l : location)
  (m2 : positive) (e2 : Z) :
  -1074 <= e ->
  e <= Z.max (Z.log2 (Zpos M) + 1 + e - 53) (-1074) ->
  binary_round_aux prec emax false (Zpos M) e l = S754_finite false m2 e2 ->
  let g := Z.max (Z.log2 (Zpos M) + 1 + e - 53) (-1074) in
  scaled (Zpos M) e - 2 ^ (g + 1074) < scaled (Zpos m2) e2
    <= scaled (Zpos M) e + 2 ^ (g + 1074).
Proof.
  intros He Hpre Hres g.
  destruct (binary_round_aux_shape M e l Hpre) as (m1 & Hm1 & Hcase).
  fold g in Hm1, Hcase.
  assert (Hg : -1074 <= g) by (unfold g; lia).
  destruct (scaled_split (Zpos M) e g He Hpre) as (HG & Hsplit & Hrem).
  set (F := Zpos M / 2 ^ (g - e)) in *.
  destruct Hcase as [[_ Hz] | (m2' & e2' & Hm2 & Hge & Hcan & Hr)].
  - rewrite Hz in Hres. discriminate Hres.
  - rewrite Hr in Hres. destruct (e2' <=? 971); [| discriminate Hres].
    injection Hres as <- <-.
    assert (Hval : scaled (Zpos m2') e2' = m1 * 2 ^ (g + 1074)).
    { rewrite (scaled_at (Zpos m2') e2' g Hg Hge), Hm2. reflexivity. }
    rewrite Hval.
    set (G := 2 ^ (g + 1074)) in *.
    set (r := Zpos M mod 2 ^ (g - e) * 2 ^ (e + 1074)) in *.
    clearbody G r F. clear - Hm1 Hsplit Hrem.
    destruct Hm1 as [-> | [-> _]]; lia.
Qed.

Lemma round_value_bounds (S : positive) (e : Z) (m2 : positive) (e2 : Z)
  (t : Z) :
  -1074 <= e -> -1074 <= t ->
  Z.log2 (Zpos S) + e - 52 <= t ->
  binary_round prec emax false S e = S754_finite false m2 e2 ->
  scaled (Zpos S) e - 2 ^ (t + 1074) < scaled (Zpos m2) e2
    <= scaled (Zpos S) e + 2 ^ (t + 1074).
Proof.
  intros He Ht Hmag Hres.
  destruct (binary_round_as_aux S e He) as (mz & ez & Hr & Hez & Hpre & Hv).
  rewrite Hr in Hres.
  pose proof (round_aux_value_bounds mz ez loc_Exact m2 e2 Hez Hpre Hres) as Hb.
  cbv zeta in Hb. rewrite Hv in Hb.
  assert (Hlog : Z.log2 (Zpos mz) + ez = Z.log2 (Zpos S) + e).
  { assert (H1 : Z.log2 (Zpos mz) + ez <= Z.log2 (Zpos S) + e)
      by (apply magnitude_of_scaled; lia).
    assert (H2 : Z.log2 (Zpos S) + e <= Z.log2 (Zpos mz) + ez)
      by (apply magnitude_of_scaled; lia).
    lia. }
  assert (HG : 2 ^ (Z.max (Z.log2 (Zpos mz) + 1 + ez - 53) (-1074) + 1074)
               <= 2 ^ (t + 1074)) by (apply Z.pow_le_mono_r; lia).
  lia.
Qed.

(** The sum of two positive numbers, bounded by [mk * 2^ek]. *)
Lemma add_value_bounds (ma mb mr : positive) (ea eb er : Z)
  (mk : positive) (ek t : Z) :
  -1074 <= ea -> -1074 <= eb -> -1074 <= ek -> -1074 <= t ->
  scaled (Zpos ma) ea + scaled (Zpos mb) eb <= scaled (Zpos mk) ek ->
  Z.log2 (Zpos mk) + ek - 52 <= t ->
  SF64add (S754_finite false ma ea) (S754_finite false mb eb)
    = S754_finite false mr er ->
  scaled (Zpos ma) ea + scaled (Zpos mb) eb - 2 ^ (t + 1074)
    < scaled (Zpos mr) er
    <= scaled (Zpos ma) ea + scaled (Zpos mb) eb + 2 ^ (t + 1074).
Proof.
  intros Ha Hb Hk Ht Hle Hmag. rewrite add_finite_unfold. unfold cond_Zopp.
  rewrite <- Pos2Z.inj_add. cbn [binary_normalize]. intros Hres.
  assert (Hsum : scaled (Zpos (fst (shl_align ma ea (Z.min ea eb))
                               + fst (shl_align mb eb (Z.min ea eb))))
                        (Z.min ea eb)
                 = scaled (Zpos ma) ea + scaled (Zpos mb) eb).
  { rewrite Pos2Z.inj_add. unfold scaled at 1. rewrite Z.mul_add_distr_r.
    fold (scaled (Zpos (fst (shl_align ma ea (Z.min ea eb)))) (Z.min ea eb)).
    fold (scaled (Zpos (fst (shl_align mb eb (Z.min ea eb)))) (Z.min ea eb)).
    rewrite !aligned_scaled by lia. reflexivity. }
  rewrite <- Hsum. rewrite <- Hsum in Hle.
  apply round_value_bounds; try assumption; [lia |].
  assert (Hm : Z.log2 (Zpos (fst (shl_align ma ea (Z.min ea eb))
                             + fst (shl_align mb eb (Z.min ea eb))))
               + Z.min ea eb <= Z.log2 (Zpos mk) + ek)
    by (apply magnitude_of_scaled; try lia; exact Hle).
  lia.
Qed.

(** ** The error of a quotient below one *)

Lemma div_value_bounds (mu mD : positive) (eu eD : Z) :
  Z.max (Z.log2 (Zpos mu) + 1 + eu - 53) (-1074) = eu ->
  Z.max (Z.log2 (Zpos mD) + 1 + eD - 53) (-1074) = eD ->
  scaled (Zpos mu) eu < scaled (Zpos mD) eD ->
  -1021 <= Z.log2 (Zpos mu) + eu - (Z.log2 (Zpos mD) + eD) ->
  exists mc ec,
    SF64div (S754_finite false mu eu) (S754_finite false mD eD)
      = S754_finite false mc ec /\
    (scaled (Zpos mc) ec - 2 ^ 1021) * scaled (Zpos mD) eD
      <= scaled (Zpos mu) eu * 2 ^ 1074
      < (scaled (Zpos mc) ec + 2 ^ 1022) * scaled (Zpos mD) eD.
Proof.
  intros Hcu HcD Hlt Hnorm.
  pose proof (Z.log2_nonneg (Zpos mu)) as Hlu.
  pose proof (Z.log2_nonneg (Zpos mD)) as HlD.
  assert (HX : Z.log2 (Zpos mu) + eu <= Z.log2 (Zpos mD) + eD).
  { apply magnitude_of_scaled; lia. }
  unfold SF64div, SFdiv, SFdiv_core_binary. cbn [xorb].
  simpl Zdigits2. rewrite !digits2_log2, fexp_eq.
  set (X := Z.log2 (Zpos mu) + 1 + eu - (Z.log2 (Zpos mD) + 1 + eD)).
  assert (He' : Z.min (Z.max (X - 53) (-1074)) (eu - eD) = X - 53)
    by (unfold X; lia).
  rewrite He'.
  set (s := eu - eD - (X - 53)).
  assert (Hs : s = 52 - Z.log2 (Zpos mu) + (Z.log2 (Zpos mD) + 1))
    by (unfold s, X; lia).
  assert (Hspos : 0 < s) by lia.
  destruct s as [| sp | sp] eqn:Es; try lia.
  rewrite Z.shiftl_mul_pow2 by lia. rewrite <- Es in *. clear Es sp.
  pose proof (Z_div_mod (Zpos mu * 2 ^ s) (Zpos mD) ltac:(lia)) as Hdiv.
  unfold Z.div_eucl in Hdiv |- *. fold (Z.div_eucl (Zpos mu * 2 ^ s) (Zpos mD)) in *.
  destruct (Z.div_eucl (Zpos mu * 2 ^ s) (Zpos mD)) as [q r].
  destruct Hdiv as [Hq Hr].
  pose proof (mantissa_bounds mu) as [Hmu_lo _].
  pose proof (mantissa_bounds mD) as [_ HmD_hi].
  assert (Hq52 : 2 ^ 52 <= q).
  { assert (H1 : 2 ^ (52 + (Z.log2 (Zpos mD) + 1)) <= Zpos mu * 2 ^ s).
    { replace (52 + (Z.log2 (Zpos mD) + 1)) with (Z.log2 (Zpos mu) + s) by lia.
      rewrite pow2_split by lia.
      apply Z.mul_le_mono_nonneg_r; [apply Z.pow_nonneg; lia | exact Hmu_lo]. }
    rewrite pow2_split in H1 by lia.
    set (A := 2 ^ 52) in *. set (B := 2 ^ (Z.log2 (Zpos mD) + 1)) in *.
    assert (HA : 0 < A) by (unfold A; lia).
    clearbody A B. clear - H1 Hq Hr HmD_hi HA.
    destruct (Z_le_gt_dec A q) as [H | H]; [exact H | exfalso].
    assert (Zpos mD * q <= Zpos mD * (A - 1))
      by (apply Z.mul_le_mono_nonneg_l; lia).
    assert (A * Zpos mD < A * B) by (apply Z.mul_lt_mono_pos_l; lia).
    lia. }
  assert (Hqpos : 0 < q) by (assert (0 < 2 ^ 52) by reflexivity; lia).
  assert (Ha : 0 <= eu + 1074) by lia.
  assert (Hb : 0 <= eD + 1074) by lia.
  assert (He : 0 <= X - 53 + 1074) by (unfold X; lia).
  (* the quotient against the operands, at the common scale *)
  assert (Hscale : scaled (Zpos mu) eu * 2 ^ 1074
                   = Zpos mu * 2 ^ s * (2 ^ (X - 53 + 1074) * 2 ^ (eD + 1074))).
  { unfold scaled. rewrite <- !Z.mul_assoc. f_equal.
    rewrite <- !pow2_split by lia. f_equal. unfold s. lia. }
  assert (Hlow : scaled q (X - 53) * scaled (Zpos mD) eD
                 <= scaled (Zpos mu) eu * 2 ^ 1074).
  { rewrite Hscale. unfold scaled.
    set (P := 2 ^ (X - 53 + 1074)) in *. set (Q := 2 ^ (eD + 1074)) in *.
    assert (HP : 0 < P) by (apply Z.pow_pos_nonneg; lia).
    assert (HQ : 0 < Q) by (apply Z.pow_pos_nonneg; lia).
    clearbody P Q. clear - Hq Hr HP HQ.
    replace (q * P * (Zpos mD * Q)) with (Zpos mD * q * (P * Q)) by ring.
    apply Z.mul_le_mono_nonneg_r; [apply Z.mul_nonneg_nonneg; lia | lia]. }
  assert (Hhigh : scaled (Zpos mu) eu * 2 ^ 1074
                  < (scaled q (X - 53) + 2 ^ (X - 53 + 1074))
                    * scaled (Zpos mD) eD).
  { rewrite Hscale. unfold scaled.
    set (P := 2 ^ (X - 53 + 1074)) in *. set (Q := 2 ^ (eD + 1074)) in *.
    assert (HP : 0 < P) by (apply Z.pow_pos_nonneg; lia).
    assert (HQ : 0 < Q) by (apply Z.pow_pos_nonneg; lia).
    clearbody P Q. clear - Hq Hr HP HQ.
    replace ((q * P + P) * (Zpos mD * Q)) with ((Zpos mD * q + Zpos mD) * (P * Q))
      by ring.
    apply Z.mul_lt_mono_pos_r; [apply Z.mul_pos_pos; assumption | lia]. }
  (* the size of the quotient *)
  assert (Hqlt : scaled q (X - 53) < 2 ^ 1074).
  { assert (HD : 0 < scaled (Zpos mD) eD).
    { unfold scaled. apply Z.mul_pos_pos; [lia | apply Z.pow_pos_nonneg; lia]. }
    assert (H1 : scaled q (X - 53) * scaled (Zpos mD) eD
                 < 2 ^ 1074 * scaled (Zpos mD) eD).
    { eapply Z.le_lt_trans; [exact Hlow |].
      rewrite (Z.mul_comm (2 ^ 1074)).
      apply Z.mul_lt_mono_pos_r; [apply Z.pow_pos_nonneg; lia | exact Hlt]. }
    apply (Z.mul_lt_mono_pos_r (scaled (Zpos mD) eD)); assumption. }
  destruct q as [| qp | qp]; try lia.
  assert (Hlq : 52 <= Z.log2 (Zpos qp)) by (apply Z.log2_le_pow2; lia).
  assert (Hlq' : Z.log2 (Zpos qp) + (X - 53) < 0).
  { destruct (Z_lt_ge_dec (Z.log2 (Zpos qp) + (X - 53)) 0) as [H | H];
      [exact H | exfalso].
    pose proof (mantissa_bounds qp) as [Hlo _].
    assert (2 ^ 1074 <= scaled (Zpos qp) (X - 53)).
    { unfold scaled.
      assert (2 ^ 1074 <= 2 ^ (Z.log2 (Zpos qp) + (X - 53 + 1074)))
        by (apply Z.pow_le_mono_r; lia).
      rewrite pow2_split in H0 by lia.
      assert (2 ^ Z.log2 (Zpos qp) * 2 ^ (X - 53 + 1074)
              <= Zpos qp * 2 ^ (X - 53 + 1074))
        by (apply Z.mul_le_mono_nonneg_r; [apply Z.pow_nonneg |]; lia).
      lia. }
    lia. }
  match goal with
  | |- context [binary_round_aux _ _ _ _ _ ?l] => set (loc := l)
  end.
  pose proof (binary_round_aux_rounded false (Zpos qp) (X - 53) loc) as Hrd.
  destruct (binary_round_aux_spec false qp (X - 53) loc)
    as (_ & Hnan & Hnz & Hni);
    [rewrite digits2_log2, fexp_eq; lia |].
  rewrite digits2_log2, fexp_eq in Hnz. rewrite digits2_log2 in Hni.
  destruct (binary_round_aux prec emax false (Zpos qp) (X - 53) loc)
    as [sz | sz | | sz mc ec] eqn:Hres.
  1:{ exfalso. inversion Hrd; subst. apply Hnz; [lia | reflexivity]. }
  1:{ exfalso. inversion Hrd; subst. apply Hni; [lia | reflexivity]. }
  1:{ exfalso. apply Hnan. reflexivity. }
  assert (sz = false) by (inversion Hrd; reflexivity). subst sz.
  exists mc, ec. split; [reflexivity |].
  pose proof (round_aux_value_bounds qp (X - 53) _ mc ec
                ltac:(unfold X; lia) ltac:(lia) Hres) as Hb2.
  cbv zeta in Hb2.
  assert (HG : 2 ^ (Z.max (Z.log2 (Zpos qp) + 1 + (X - 53) - 53) (-1074) + 1074)
               <= 2 ^ 1021) by (apply Z.pow_le_mono_r; lia).
  assert (HP : 2 ^ (X - 53 + 1074) <= 2 ^ 1021)
    by (apply Z.pow_le_mono_r; unfold X; lia).
  assert (HD : 0 < scaled (Zpos mD) eD).
  { unfold scaled. apply Z.mul_pos_pos; [lia | apply Z.pow_pos_nonneg; lia]. }
  change (2 ^ 1022) with (2 ^ 1021 + 2 ^ 1021).
  set (G := 2 ^ (Z.max (Z.log2 (Zpos qp) + 1 + (X - 53) - 53) (-1074) + 1074)) in *.
  set (P := 2 ^ (X - 53 + 1074)) in *.
  set (E := 2 ^ 1021) in *.
  set (Vq := scaled (Zpos qp) (X - 53)) in *.
  set (Vc := scaled (Zpos mc) ec) in *.
  set (VD := scaled (Zpos mD) eD) in *.
  set (N := scaled (Zpos mu) eu * 2 ^ 1074) in *.
  clearbody G P E Vq Vc VD N. clear - Hlow Hhigh Hb2 HG HP HD.
  split.
  - assert ((Vc - E) * VD <= Vq * VD)
      by (apply Z.mul_le_mono_nonneg_r; lia).
    lia.
  - assert ((Vq + P) * VD <= (Vc + E + E) * VD)
      by (apply Z.mul_le_mono_nonneg_r; lia).
    replace (Vc + (E + E)) with (Vc + E + E) by ring. lia.
Qed.

(** ** The centre of the default interval against the confidence *)

Lemma thresholds :
  Prim2SF 0.5000001 = S754_finite false 4503600528090421 (-53) /\
  Prim2SF 0.4999999 = S754_finite false 9007197453301141 (-54).
Proof. split; vm_compute; reflexivity. Qed.

(** The centre [(p + z**2/(2n)) / (1 + z**2/n)] is not above a [p] from
    0.5000001 on and not below a [p] up to 0.4999999. *)
Lemma centre_against_confidence (p : float) :
  (0 <=? p)%float = true -> (p <=? 1)%float = true ->
  let c := ((p + default_z * default_z / Py.float_of_Z (2 * default_n))
            / (1 + default_z * default_z / Py.float_of_Z default_n))%float in
  ((0.5000001 <=? p)%float = true -> (c <=? p)%float = true) /\
  ((p <=? 0.4999999)%float = true -> (p <=? c)%float = true).
Proof.
  intros H0 H1 c. unfold c.
  destruct default_constants as [Eq2 ED].
  destruct default_constants_ordered as [N1 N2].
  destruct thresholds as [T1 T2].
  rewrite !leb_spec, div_spec, add_spec, Eq2, ED, T1, T2.
  rewrite leb_spec in H0, H1.
  change (Prim2SF 0) with (S754_zero false) in H0.
  change (Prim2SF 1) with SFone in H1.
  pose proof (Prim2SF_valid p) as Hvp.
  pose proof (Prim2SF_valid (p + default_z * default_z / Py.float_of_Z (2 * default_n)))
    as HvU.
  pose proof (Prim2SF_valid
                ((p + default_z * default_z / Py.float_of_Z (2 * default_n))
                 / (1 + default_z * default_z / Py.float_of_Z default_n)))
    as HvC.
  rewrite add_spec, Eq2 in HvU. rewrite div_spec, add_spec, Eq2, ED in HvC.
  destruct (Prim2SF p) as [[] | [] | | [] mp ep];
    try discriminate H0; try discriminate H1.
  1-2: split; [discriminate | intros _; vm_compute; reflexivity].
  destruct (valid_canonical _ _ _ Hvp) as [Hcp Hep].
  assert (Hq2v : valid_binary (S754_finite false 5536329065122079 (-58)) = true)
    by reflexivity.
  pose proof (scaled_of_SFleb mp 4503599627370496 ep (-52) Hcp eq_refl H1) as Hp1.
  assert (HUle : SFleb (SF64add (S754_finite false mp ep)
                          (S754_finite false 5536329065122079 (-58)))
                       (S754_finite false 4644337115725824 (-52)) = true).
  { apply add_le; try reflexivity; lia. }
  pose proof (add_ge_right mp 5536329065122079 ep (-58) Hvp Hq2v) as HUge.
  destruct (SF64add (S754_finite false mp ep)
              (S754_finite false 5536329065122079 (-58)))
    as [[] | [] | | [] mu eu] eqn:EU;
    try discriminate HUle; try discriminate HUge.
  destruct (valid_canonical _ _ _ HvU) as [Hcu Heu].
  pose proof (scaled_of_SFleb mu 4644337115725824 eu (-52) Hcu eq_refl HUle)
    as Hu1.
  pose proof (scaled_of_SFleb 5536329065122079 mu (-58) eu eq_refl Hcu HUge)
    as Hu2.
  pose proof (magnitude_of_scaled 5536329065122079 (Zpos mu) (-58) eu
                eq_refl (Pos2Z.is_pos mu) ltac:(lia) ltac:(lia) Hu2) as Hmag.
  change (Z.log2 5536329065122079) with 52 in Hmag.
  (* the sum within one unit in the last place *)
  pose proof (add_value_bounds mp 5536329065122079 mu ep (-58) eu
                4644337115725824 (-52) (-52)
                ltac:(lia) ltac:(lia) ltac:(lia) ltac:(lia)
                ltac:(lia) ltac:(reflexivity) EU) as Hadd.
  change (2 ^ (-52 + 1074)) with (2 ^ 1022) in Hadd.
  (* the quotient *)
  destruct (div_value_bounds mu 4676609910655561 eu (-52) Hcu eq_refl)
    as (mc & ec & EC & Hdiv).
  { lia. }
  { change (Z.log2 4676609910655561) with 52. lia. }
  rewrite EC in HvC |- *.
  destruct (valid_canonical _ _ _ HvC) as [Hcc Hec].
  set (VD := scaled 4676609910655561 (-52)) in *.
  set (Vq := scaled 5536329065122079 (-58)) in *.
  set (Vu := scaled (Zpos mu) eu) in *.
  set (Vc := scaled (Zpos mc) ec) in *.
  set (Vp := scaled (Zpos mp) ep) in *.
  set (T := 2 ^ 1074) in *.
  set (E1 := 2 ^ 1021) in *.
  set (E2 := 2 ^ 1022) in *.
  assert (HT : 0 < T) by reflexivity.
  assert (HVD : 0 < VD) by reflexivity.
  assert (HA : 0 < VD - T) by reflexivity.
  split.
  - intros Hth.
    pose proof (scaled_of_SFleb 4503600528090421 mp (-53) ep eq_refl Hcp Hth)
      as Hp0.
    apply SFleb_of_scaled; try assumption. fold Vc Vp.
    set (P0 := scaled 4503600528090421 (-53)) in *.
    assert (K1 : (Vq + E2) * T + E1 * VD < P0 * (VD - T))
      by (vm_compute; reflexivity).
    destruct (Z_le_gt_dec Vc Vp) as [Hle | Hgt]; [exact Hle | exfalso].
    assert (F1 : (Vp + 1 - E1) * VD <= (Vc - E1) * VD)
      by (apply Z.mul_le_mono_nonneg_r; lia).
    assert (F2 : Vu * T <= (Vp + Vq + E2) * T)
      by (apply Z.mul_le_mono_nonneg_r; lia).
    assert (F3 : P0 * (VD - T) <= Vp * (VD - T))
      by (apply Z.mul_le_mono_nonneg_r; lia).
    clearbody VD Vq Vu Vc Vp T E1 E2 P0.
    clear - Hdiv F1 F2 F3 K1 HVD. lia.
  - intros Hth.
    pose proof (scaled_of_SFleb mp 9007197453301141 ep (-54) Hcp eq_refl Hth)
      as Hp0.
    apply SFleb_of_scaled; try assumption. fold Vc Vp.
    set (P1 := scaled 9007197453301141 (-54)) in *.
    assert (K2 : P1 * (VD - T) <= Vq * T - E2 * T - E2 * VD)
      by (vm_compute; discriminate).
    destruct (Z_le_gt_dec Vp Vc) as [Hle | Hgt]; [exact Hle | exfalso].
    assert (F1 : (Vc + E2) * VD <= (Vp - 1 + E2) * VD)
      by (apply Z.mul_le_mono_nonneg_r; lia).
    assert (F2 : (Vp + Vq - E2 + 1) * T <= Vu * T)
      by (apply Z.mul_le_mono_nonneg_r; lia).
    assert (F3 : Vp * (VD - T) <= P1 * (VD - T))
      by (apply Z.mul_le_mono_nonneg_r; lia).
    clearbody VD Vq Vu Vc Vp T E1 E2 P1.
    clear - Hdiv F1 F2 F3 K2 HVD HT. lia.
Qed.

(** * Containment of the confidence

    The limits enclose the confidence [p] except at the two ends of the
    unit interval.  The proof bounds every intermediate quantity of the
    formula on a cell of confidences and compares the bounds exactly. *)

(** ** Dyadic numbers *)

Lemma dy_scale (m a e k : Z) :
  e <= a -> 0 <= e + k -> m * 2 ^ (a - e) * 2 ^ (e + k) = m * 2 ^ (a + k).
Proof.
  intros H1 H2. rewrite <- Z.mul_assoc, <- pow2_split by lia.
  do 2 f_equal. lia.
Qed.

Lemma dy_leb_sound (a b : dyadic) (k : Z) :
  0 <= snd a + k -> 0 <= snd b + k ->
  dy_leb a b = true -> dy_value k a <= dy_value k b.
Proof.
  intros Ha Hb H. unfold dy_leb in H. apply Z.leb_le in H.
  unfold dy_value. set (e := Z.min (snd a) (snd b)) in *.
  rewrite <- (dy_scale (fst a) (snd a) e k),
          <- (dy_scale (fst b) (snd b) e k) by (unfold e; lia).
  apply Z.mul_le_mono_nonneg_r; [apply Z.pow_nonneg; lia | exact H].
Qed.

Lemma dy_ltb_sound (a b : dyadic) (k : Z) :
  0 <= snd a + k -> 0 <= snd b + k ->
  dy_ltb a b = true -> dy_value k a < dy_value k b.
Proof.
  intros Ha Hb H. unfold dy_ltb in H. apply Z.ltb_lt in H.
  unfold dy_value. set (e := Z.min (snd a) (snd b)) in *.
  rewrite <- (dy_scale (fst a) (snd a) e k),
          <- (dy_scale (fst b) (snd b) e k) by (unfold e; lia).
  apply Z.mul_lt_mono_pos_r; [apply Z.pow_pos_nonneg; unfold e; lia | exact H].
Qed.

Lemma dy_value_add (a b : dyadic) (k : Z) :
  0 <= snd a + k -> 0 <= snd b + k ->
  dy_value k (dy_add a b) = dy_value k a + dy_value k b.
Proof.
  intros Ha Hb. unfold dy_value, dy_add. cbn [fst snd].
  set (e := Z.min (snd a) (snd b)).
  rewrite Z.mul_add_distr_r, !dy_scale by (unfold e; lia). reflexivity.
Qed.

Lemma dy_value_sub (a b : dyadic) (k : Z) :
  0 <= snd a + k -> 0 <= snd b + k ->
  dy_value k (dy_sub a b) = dy_value k a - dy_value k b.
Proof.
  intros Ha Hb. unfold dy_value, dy_sub. cbn [fst snd].
  set (e := Z.min (snd a) (snd b)).
  rewrite Z.mul_sub_distr_r, !dy_scale by (unfold e; lia). reflexivity.
Qed.

Lemma dy_value_mul (a b : dyadic) (k1 k2 : Z) :
  0 <= snd a + k1 -> 0 <= snd b + k2 ->
  dy_value (k1 + k2) (dy_mul a b) = dy_value k1 a * dy_value k2 b.
Proof.
  intros Ha Hb. unfold dy_value, dy_mul. cbn [fst snd].
  replace (snd a + snd b + (k1 + k2)) with ((snd a + k1) + (snd b + k2)) by lia.
  rewrite pow2_split by lia. ring.
Qed.

Lemma dy_value_shift (a : dyadic) (k j : Z) :
  0 <= snd a + k -> 0 <= j -> dy_value (k + j) a = dy_value k a * 2 ^ j.
Proof.
  intros Ha Hj. unfold dy_value.
  replace (snd a + (k + j)) with ((snd a + k) + j) by lia.
  rewrite pow2_split by lia. ring.
Qed.

Lemma dy_value_of (f : fin) : dy_value 1074 (dy_of f) = fin_value f.
Proof. reflexivity. Qed.

(** ** Normal numbers *)

Lemma normal_spec (f : fin) :
  normal f = true ->
  2 ^ 52 <= Zpos (fst f) < 2 ^ 53 /\ -1074 <= snd f <= 971 /\
  Z.log2 (Zpos (fst f)) = 52 /\
  Z.max (Z.log2 (Zpos (fst f)) + 1 + snd f - 53) (-1074) = snd f.
Proof.
  unfold normal. intros H.
  apply andb_prop in H. destruct H as [H H4].
  apply andb_prop in H. destruct H as [H H3].
  apply andb_prop in H. destruct H as [H1 H2].
  apply Z.leb_le in H1, H3, H4. apply Z.ltb_lt in H2.
  assert (Hl : Z.log2 (Zpos (fst f)) = 52).
  { apply Z.log2_unique; [lia |]. change (2 ^ (52 + 1)) with (2 ^ 53). lia. }
  repeat split; try assumption. rewrite Hl. lia.
Qed.

Lemma scaled_pos (m : positive) (e : Z) : -1074 <= e -> 0 < scaled (Zpos m) e.
Proof.
  intros H. unfold scaled.
  apply Z.mul_pos_pos; [lia | apply Z.pow_pos_nonneg; lia].
Qed.

(** A canonical number not below a normal one is normal. *)
Lemma normal_above (L : fin) (m : positive) (e : Z) :
  normal L = true ->
  valid_binary (S754_finite false m e) = true ->
  fin_value L <= scaled (Zpos m) e ->
  normal (m, e) = true.
Proof.
  intros HL Hv Hle. destruct (normal_spec L HL) as (HmL & HeL & HlL & HcL).
  destruct (valid_canonical _ _ _ Hv) as [Hc He].
  destruct (valid_finite _ _ _ Hv) as [Hrange Hm].
  pose proof (Z.log2_nonneg (Zpos m)) as Hnn.
  pose proof (magnitude_of_scaled (Zpos (fst L)) (Zpos m) (snd L) e
                (Pos2Z.is_pos _) (Pos2Z.is_pos m) ltac:(lia) ltac:(lia) Hle)
    as Hmag.
  assert (Hl : Z.log2 (Zpos m) = 52) by lia.
  pose proof (mantissa_bounds m) as [Hlo _]. rewrite Hl in Hlo.
  unfold normal. cbn [fst snd].
  apply andb_true_intro; split; [| apply Z.leb_le; lia].
  apply andb_true_intro; split; [| apply Z.leb_le; lia].
  apply andb_true_intro; split; [apply Z.leb_le | apply Z.ltb_lt]; lia.
Qed.

(** ** Quantities between two bounds *)

Lemma between_intro (L H : fin) (x : float) :
  normal L = true -> normal H = true ->
  SFleb (S754_finite false (fst L) (snd L)) (Prim2SF x) = true ->
  SFleb (Prim2SF x) (S754_finite false (fst H) (snd H)) = true ->
  between (L, H) x.
Proof.
  intros HL HH H1 H2. pose proof (Prim2SF_valid x) as Hv.
  destruct (normal_spec L HL) as (_ & _ & _ & HcL).
  destruct (normal_spec H HH) as (_ & _ & _ & HcH).
  split; [exact HL |]. split; [exact HH |]. cbn [fst snd].
  destruct (Prim2SF x) as [[] | [] | | [] m e];
    try discriminate H1; try discriminate H2.
  destruct (valid_canonical _ _ _ Hv) as [Hc _].
  exists m, e. split; [reflexivity |]. unfold fin_value. split.
  - apply scaled_of_SFleb; assumption.
  - apply scaled_of_SFleb; assumption.
Qed.

Lemma between_inv (X : bounds) (x : float) :
  between X x ->
  exists m e,
    Prim2SF x = S754_finite false m e /\ normal (m, e) = true /\
    normal (fst X) = true /\ normal (snd X) = true /\
    fin_value (fst X) <= scaled (Zpos m) e <= fin_value (snd X).
Proof.
  intros (HL & HH & m & e & E & Hb). exists m, e.
  split; [exact E |]. split; [| auto].
  apply (normal_above (fst X)); [exact HL | | apply Hb].
  rewrite <- E. apply Prim2SF_valid.
Qed.

Lemma between_exactly (f : fin) (x : float) :
  normal f = true ->
  Prim2SF x = S754_finite false (fst f) (snd f) ->
  between (exactly f) x.
Proof.
  intros Hn E. split; [exact Hn |]. split; [exact Hn |].
  exists (fst f), (snd f). split; [exact E |]. cbn [exactly fst snd].
  unfold fin_value. lia.
Qed.

Lemma between_leb (X : bounds) (x : float) :
  between X x ->
  SFleb (S754_finite false (fst (fst X)) (snd (fst X))) (Prim2SF x) = true /\
  SFleb (Prim2SF x) (S754_finite false (fst (snd X)) (snd (snd X))) = true.
Proof.
  intros Hx. destruct (between_inv X x Hx) as (m & e & E & Hn & HL & HH & Hb).
  destruct (normal_spec _ Hn) as (_ & _ & _ & Hc).
  destruct (normal_spec _ HL) as (_ & _ & _ & HcL).
  destruct (normal_spec _ HH) as (_ & _ & _ & HcH).
  cbn [fst snd] in Hc. rewrite E.
  split; apply SFleb_of_scaled; try assumption; apply Hb.
Qed.

(** ** Sums *)

Lemma add_bounds_sound (X Y Z : bounds) (x y : float) :
  add_bounds X Y = Some Z -> between X x -> between Y y ->
  between Z (x + y).
Proof.
  unfold add_bounds. intros HZ Hx Hy.
  destruct (between_inv X x Hx) as (mx & ex & Ex & Hnx & HLx & HHx & Hbx).
  destruct (between_inv Y y Hy) as (my & ey & Ey & Hny & HLy & HHy & Hby).
  match type of HZ with
  | (if ?c then _ else _) = _ => destruct c eqn:Hc; [| discriminate HZ]
  end.
  injection HZ as <-.
  apply andb_prop in Hc. destruct Hc as [Hc C4].
  apply andb_prop in Hc. destruct Hc as [Hc C3].
  apply andb_prop in Hc. destruct Hc as [C1 C2].
  destruct (normal_spec _ Hnx) as (_ & Hex & _ & _).
  destruct (normal_spec _ Hny) as (_ & Hey & _ & _).
  destruct (normal_spec _ HLx) as (_ & HeLx & _ & _).
  destruct (normal_spec _ HLy) as (_ & HeLy & _ & _).
  destruct (normal_spec _ HHx) as (_ & HeHx & _ & _).
  destruct (normal_spec _ HHy) as (_ & HeHy & _ & _).
  destruct (normal_spec _ C1) as (_ & HeL & _ & HcL).
  destruct (normal_spec _ C2) as (_ & HeH & _ & HcH).
  cbn [fst snd] in Hex, Hey.
  apply (dy_leb_sound _ _ 1074) in C3; [| cbn; lia | cbn; lia].
  apply (dy_leb_sound _ _ 1074) in C4; [| cbn; lia | cbn; lia].
  rewrite dy_value_add in C3, C4 by (cbn; lia).
  rewrite !dy_value_of in C3, C4.
  apply between_intro; try assumption; rewrite add_spec, Ex, Ey.
  - apply add_ge; try assumption; try lia. fold (fin_value (round_down
      (dy_add (dy_of (fst X)) (dy_of (fst Y))))). lia.
  - apply add_le; try assumption; try lia. fold (fin_value (round_up
      (dy_add (dy_of (snd X)) (dy_of (snd Y))))). lia.
Qed.

(** ** Differences *)

Lemma sub_ge (ma mb mc : positive) (ea eb ec : Z) :
  -1074 <= ea -> -1074 <= eb ->
  Z.max (Z.log2 (Zpos mc) + 1 + ec - 53) (-1074) = ec ->
  scaled (Zpos mc) ec <= scaled (Zpos ma) ea - scaled (Zpos mb) eb ->
  SFleb (S754_finite false mc ec)
        (SF64sub (S754_finite false ma ea) (S754_finite false mb eb)) = true.
Proof.
  intros Ha Hb Hc Hle.
  rewrite sub_finite_unfold. unfold cond_Zopp.
  pose proof (aligned_scaled ma ea (Z.min ea eb) ltac:(lia) ltac:(lia)) as Hsa.
  pose proof (aligned_scaled mb eb (Z.min ea eb) ltac:(lia) ltac:(lia)) as Hsb.
  set (Ma := Zpos (fst (shl_align ma ea (Z.min ea eb)))) in *.
  set (Mb := Zpos (fst (shl_align mb eb (Z.min ea eb)))) in *.
  assert (Hcpos : 0 < scaled (Zpos mc) ec) by (apply scaled_pos; lia).
  assert (HP : 0 < 2 ^ (Z.min ea eb + 1074)) by (apply Z.pow_pos_nonneg; lia).
  assert (Hd : scaled (Ma - Mb) (Z.min ea eb)
               = scaled (Zpos ma) ea - scaled (Zpos mb) eb).
  { rewrite <- Hsa, <- Hsb. unfold scaled. ring. }
  destruct (Ma - Mb) as [| S | S] eqn:E; cbn [binary_normalize].
  - exfalso. unfold scaled in Hd at 1. lia.
  - apply binary_round_ge; try assumption; [lia |]. lia.
  - exfalso. unfold scaled in Hd at 1.
    assert (Z.neg S * 2 ^ (Z.min ea eb + 1074) < 0)
      by (apply Z.mul_neg_pos; lia).
    lia.
Qed.

(** A difference against a positive number above it; the difference may
    be negative. *)
Lemma sub_upper (ma mb mc : positive) (ea eb ec : Z) :
  -1074 <= ea -> -1074 <= eb ->
  Z.max (Z.log2 (Zpos mc) + 1 + ec - 53) (-1074) = ec -> ec <= 971 ->
  scaled (Zpos ma) ea - scaled (Zpos mb) eb <= scaled (Zpos mc) ec ->
  SFleb (SF64sub (S754_finite false ma ea) (S754_finite false mb eb))
        (S754_finite false mc ec) = true.
Proof.
  intros Ha Hb Hc Hec Hle.
  rewrite sub_finite_unfold. unfold cond_Zopp.
  pose proof (aligned_scaled ma ea (Z.min ea eb) ltac:(lia) ltac:(lia)) as Hsa.
  pose proof (aligned_scaled mb eb (Z.min ea eb) ltac:(lia) ltac:(lia)) as Hsb.
  set (Ma := Zpos (fst (shl_align ma ea (Z.min ea eb)))) in *.
  set (Mb := Zpos (fst (shl_align mb eb (Z.min ea eb)))) in *.
  assert (Hd : scaled (Ma - Mb) (Z.min ea eb)
               = scaled (Zpos ma) ea - scaled (Zpos mb) eb).
  { rewrite <- Hsa, <- Hsb. unfold scaled. ring. }
  destruct (Ma - Mb) as [| S | S] eqn:E; cbn [binary_normalize].
  - reflexivity.
  - apply binary_round_le; try assumption; [lia |]. lia.
  - destruct (binary_round_spec true S (Z.min ea eb)) as (_ & Hr & Hn & _).
    inversion Hr as [E1 | E1 | E1 | m e E1]; try reflexivity.
    exfalso. apply Hn. symmetry. exact E1.
Qed.

Lemma sub_bounds_sound (X Y Z : bounds) (x y : float) :
  sub_bounds X Y = Some Z -> between X x -> between Y y ->
  between Z (x - y).
Proof.
  unfold sub_bounds. intros HZ Hx Hy.
  destruct (between_inv X x Hx) as (mx & ex & Ex & Hnx & HLx & HHx & Hbx).
  destruct (between_inv Y y Hy) as (my & ey & Ey & Hny & HLy & HHy & Hby).
  match type of HZ with
  | (if ?c then _ else _) = _ => destruct c eqn:Hc; [| discriminate HZ]
  end.
  injection HZ as <-.
  apply andb_prop in Hc. destruct Hc as [Hc C4].
  apply andb_prop in Hc. destruct Hc as [Hc C3].
  apply andb_prop in Hc. destruct Hc as [Hc C2].
  apply andb_prop in Hc. destruct Hc as [_ C1].
  destruct (normal_spec _ Hnx) as (_ & Hex & _ & _).
  destruct (normal_spec _ Hny) as (_ & Hey & _ & _).
  destruct (normal_spec _ HLx) as (_ & HeLx & _ & _).
  destruct (normal_spec _ HLy) as (_ & HeLy & _ & _).
  destruct (normal_spec _ HHx) as (_ & HeHx & _ & _).
  destruct (normal_spec _ HHy) as (_ & HeHy & _ & _).
  destruct (normal_spec _ C1) as (_ & HeL & _ & HcL).
  destruct (normal_spec _ C2) as (_ & HeH & _ & HcH).
  cbn [fst snd] in Hex, Hey.
  apply (dy_leb_sound _ _ 1074) in C3; [| cbn; lia | cbn; lia].
  apply (dy_leb_sound _ _ 1074) in C4; [| cbn; lia | cbn; lia].
  rewrite dy_value_sub in C3, C4 by (cbn; lia).
  rewrite !dy_value_of in C3, C4.
  apply between_intro; try assumption; rewrite sub_spec, Ex, Ey.
  - apply sub_ge; try assumption; try lia.
    fold (fin_value (round_down
      (dy_sub (dy_of (fst X)) (dy_of (snd Y))))). lia.
  - apply sub_upper; try assumption; try lia.
    fold (fin_value (round_up
      (dy_sub (dy_of (snd X)) (dy_of (fst Y))))). lia.
Qed.

(** ** Products *)

Lemma mul_value (mx my : positive) (ex ey : Z) :
  -1074 <= ex -> -1074 <= ey -> -1074 <= ex + ey ->
  scaled (Zpos (mx * my)) (ex + ey) * 2 ^ 1074
  = scaled (Zpos mx) ex * scaled (Zpos my) ey.
Proof.
  intros Hx Hy Hxy. unfold scaled. rewrite Pos2Z.inj_mul.
  rewrite <- Z.mul_assoc, <- (pow2_split (ex + ey + 1074) 1074) by lia.
  replace (ex + ey + 1074 + 1074) with ((ex + 1074) + (ey + 1074)) by lia.
  rewrite pow2_split by lia. ring.
Qed.

Lemma mul_log2 (mx my : positive) :
  Z.log2 (Zpos mx) = 52 -> Z.log2 (Zpos my) = 52 ->
  104 <= Z.log2 (Zpos (mx * my)).
Proof.
  intros Hx Hy. rewrite Pos2Z.inj_mul.
  pose proof (Z.log2_mul_below (Zpos mx) (Zpos my) ltac:(lia) ltac:(lia)).
  lia.
Qed.

Lemma mul_ge (mx my mc : positive) (ex ey ec : Z) :
  Z.log2 (Zpos mx) = 52 -> Z.log2 (Zpos my) = 52 ->
  -1074 <= ex -> -1074 <= ey -> -1074 <= ex + ey ->
  Z.max (Z.log2 (Zpos mc) + 1 + ec - 53) (-1074) = ec ->
  scaled (Zpos mc) ec * 2 ^ 1074 <= scaled (Zpos mx) ex * scaled (Zpos my) ey ->
  SFleb (S754_finite false mc ec)
        (SF64mul (S754_finite false mx ex) (S754_finite false my ey)) = true.
Proof.
  intros Hlx Hly Hx Hy Hxy Hc Hle.
  change (SF64mul (S754_finite false mx ex) (S754_finite false my ey))
    with (binary_round_aux prec emax false (Zpos (mx * my)) (ex + ey) loc_Exact).
  pose proof (mul_log2 mx my Hlx Hly) as Hl.
  rewrite <- mul_value in Hle by assumption.
  apply round_aux_ge; try assumption; [lia |].
  apply (Z.mul_le_mono_pos_r _ _ (2 ^ 1074)); [reflexivity | exact Hle].
Qed.

Lemma mul_le (mx my mc : positive) (ex ey ec : Z) :
  Z.log2 (Zpos mx) = 52 -> Z.log2 (Zpos my) = 52 ->
  -1074 <= ex -> -1074 <= ey -> -1074 <= ex + ey ->
  Z.max (Z.log2 (Zpos mc) + 1 + ec - 53) (-1074) = ec -> ec <= 971 ->
  scaled (Zpos mx) ex * scaled (Zpos my) ey <= scaled (Zpos mc) ec * 2 ^ 1074 ->
  SFleb (SF64mul (S754_finite false mx ex) (S754_finite false my ey))
        (S754_finite false mc ec) = true.
Proof.
  intros Hlx Hly Hx Hy Hxy Hc Hec Hle.
  change (SF64mul (S754_finite false mx ex) (S754_finite false my ey))
    with (binary_round_aux prec emax false (Zpos (mx * my)) (ex + ey) loc_Exact).
  pose proof (mul_log2 mx my Hlx Hly) as Hl.
  rewrite <- mul_value in Hle by assumption.
  apply round_aux_le; try assumption; [lia | | left; reflexivity].
  apply (Z.mul_le_mono_pos_r _ _ (2 ^ 1074)); [reflexivity | exact Hle].
Qed.

Lemma mul_bounds_sound (X Y Z : bounds) (x y : float) :
  mul_bounds X Y = Some Z -> between X x -> between Y y ->
  between Z (x * y).
Proof.
  unfold mul_bounds. intros HZ Hx Hy.
  destruct (between_inv X x Hx) as (mx & ex & Ex & Hnx & HLx & HHx & Hbx).
  destruct (between_inv Y y Hy) as (my & ey & Ey & Hny & HLy & HHy & Hby).
  match type of HZ with
  | (if ?c then _ else _) = _ => destruct c eqn:Hc; [| discriminate HZ]
  end.
  injection HZ as <-.
  apply andb_prop in Hc. destruct Hc as [Hc C4].
  apply andb_prop in Hc. destruct Hc as [Hc C3].
  apply andb_prop in Hc. destruct Hc as [Hc C2].
  apply andb_prop in Hc. destruct Hc as [C0 C1].
  apply Z.leb_le in C0.
  destruct (normal_spec _ Hnx) as (Hmx & Hex & Hlx & Hcx).
  destruct (normal_spec _ Hny) as (Hmy & Hey & Hly & Hcy).
  destruct (normal_spec _ HLx) as (HmLx & HeLx & HlLx & HcLx).
  destruct (normal_spec _ HLy) as (HmLy & HeLy & HlLy & HcLy).
  destruct (normal_spec _ HHx) as (_ & HeHx & _ & _).
  destruct (normal_spec _ HHy) as (_ & HeHy & _ & _).
  destruct (normal_spec _ C1) as (_ & HeL & _ & HcL).
  destruct (normal_spec _ C2) as (_ & HeH & _ & HcH).
  cbn [fst snd] in Hex, Hey, Hlx, Hly, Hcx, Hcy, Hmx, Hmy.
  (* the exponents of the operands are not below those of their bounds *)
  assert (Hxe : snd (fst X) <= ex).
  { pose proof (magnitude_of_scaled (Zpos (fst (fst X))) (Zpos mx)
                  (snd (fst X)) ex (Pos2Z.is_pos _) (Pos2Z.is_pos _)
                  ltac:(lia) ltac:(lia) (proj1 Hbx)). lia. }
  assert (Hye : snd (fst Y) <= ey).
  { pose proof (magnitude_of_scaled (Zpos (fst (fst Y))) (Zpos my)
                  (snd (fst Y)) ey (Pos2Z.is_pos _) (Pos2Z.is_pos _)
                  ltac:(lia) ltac:(lia) (proj1 Hby)). lia. }
  apply (dy_leb_sound _ _ 2148) in C3; [| cbn; lia | cbn; lia].
  apply (dy_leb_sound _ _ 2148) in C4; [| cbn; lia | cbn; lia].
  change 2148 with (1074 + 1074) in C3, C4.
  rewrite dy_value_mul in C3, C4 by (cbn; lia).
  rewrite dy_value_shift in C3, C4 by (cbn; lia).
  rewrite !dy_value_of in C3, C4.
  assert (P1 : 0 < fin_value (fst X)) by (apply scaled_pos; lia).
  assert (P2 : 0 < fin_value (fst Y)) by (apply scaled_pos; lia).
  assert (P3 : 0 < scaled (Zpos mx) ex) by (apply scaled_pos; lia).
  assert (P4 : 0 < scaled (Zpos my) ey) by (apply scaled_pos; lia).
  apply between_intro; try assumption; rewrite mul_spec, Ex, Ey.
  - apply mul_ge; try assumption; try lia.
    eapply Z.le_trans; [exact C3 |].
    apply Z.mul_le_mono_nonneg; lia.
  - apply mul_le; try assumption; try lia.
    eapply Z.le_trans; [| exact C4].
    apply Z.mul_le_mono_nonneg; lia.
Qed.

(** The breakpoints form a chain of checked cells. *)

Lemma chain_checked : chain_check breakpoints = true.
Proof. vm_compute. reflexivity. Qed.

(** ** Quotients *)

(** A number of 53 bits below the successor of a truncated value is not
    above the truncated value. *)
Lemma below_next (mc : positive) (ec : Z) (q e : Z) :
  Z.max (Z.log2 (Zpos mc) + 1 + ec - 53) (-1074) = ec ->
  -1074 <= e -> 2 ^ 52 <= q ->
  scaled (Zpos mc) ec < scaled q e + 2 ^ (e + 1074) ->
  scaled (Zpos mc) ec <= scaled q e.
Proof.
  intros Hc He Hq Hlt.
  pose proof (Z.log2_nonneg (Zpos mc)) as Hl.
  assert (HG : 0 < 2 ^ (e + 1074)) by (apply Z.pow_pos_nonneg; lia).
  destruct (Z_le_gt_dec e ec) as [Hle | Hgt].
  - rewrite (scaled_at (Zpos mc) ec e He Hle) in *.
    unfold scaled in *.
    set (T := Zpos mc * 2 ^ (ec - e)) in *. set (G := 2 ^ (e + 1074)) in *.
    clearbody T G. clear - Hlt HG.
    assert (T * G < (q + 1) * G) by lia.
    assert (T < q + 1) by (apply (Z.mul_lt_mono_pos_r G); assumption).
    apply Z.mul_le_mono_nonneg_r; lia.
  - pose proof (mantissa_bounds mc) as [_ Hmc].
    assert (Hmc' : Zpos mc < 2 ^ 53).
    { eapply Z.lt_le_trans; [exact Hmc | apply Z.pow_le_mono_r; lia]. }
    unfold scaled.
    assert (HP : 0 < 2 ^ (ec + 1074)) by (apply Z.pow_pos_nonneg; lia).
    assert (HQ : 2 * 2 ^ (ec + 1074) <= 2 ^ (e + 1074)).
    { change 2 with (2 ^ 1) at 1. rewrite <- pow2_split by lia.
      apply Z.pow_le_mono_r; lia. }
    change (2 ^ 53) with (2 * 2 ^ 52) in Hmc'.
    set (A := 2 ^ 52) in *. set (P := 2 ^ (ec + 1074)) in *.
    set (G := 2 ^ (e + 1074)) in *.
    assert (HA : 0 < A) by (unfold A; lia).
    clearbody A P G. clear - Hq Hmc' HP HQ HA.
    assert (H1 : Zpos mc * P < 2 * A * P)
      by (apply Z.mul_lt_mono_pos_r; assumption).
    assert (H2 : A * (2 * P) <= A * G)
      by (apply Z.mul_le_mono_nonneg_l; lia).
    assert (H3 : A * G <= q * G)
      by (apply Z.mul_le_mono_nonneg_r; lia).
    lia.
Qed.

Lemma new_location_exact (d r : Z) :
  new_location d r = loc_Exact \/ r <> 0.
Proof.
  unfold new_location, new_location_even, new_location_odd.
  destruct (Z.eqb_spec r 0) as [-> | Hr]; [left | right; exact Hr].
  destruct (Z.even d); reflexivity.
Qed.

(** The quotient of two normal numbers before it is rounded. *)
Lemma div_core (mu mD : positive) (eu eD : Z) :
  Z.log2 (Zpos mu) = 52 -> Z.log2 (Zpos mD) = 52 ->
  -1074 <= eu -> -1074 <= eD -> -1021 <= eu - eD ->
  exists (q : positive) (e : Z) (l : location),
    SF64div (S754_finite false mu eu) (S754_finite false mD eD)
      = binary_round_aux prec emax false (Zpos q) e l /\
    -1074 <= e /\ 2 ^ 52 <= Zpos q /\
    scaled (Zpos q) e * scaled (Zpos mD) eD <= scaled (Zpos mu) eu * 2 ^ 1074 /\
    scaled (Zpos mu) eu * 2 ^ 1074
      < (scaled (Zpos q) e + 2 ^ (e + 1074)) * scaled (Zpos mD) eD /\
    (l = loc_Exact
     \/ scaled (Zpos q) e * scaled (Zpos mD) eD < scaled (Zpos mu) eu * 2 ^ 1074).
Proof.
  intros Hlu HlD Heu HeD Hnorm.
  unfold SF64div, SFdiv, SFdiv_core_binary. cbn [xorb].
  simpl Zdigits2. rewrite !digits2_log2, fexp_eq, Hlu, HlD.
  set (e' := eu - eD - 53).
  assert (He' : Z.min (Z.max (52 + 1 + eu - (52 + 1 + eD) - 53) (-1074))
                      (eu - eD) = e') by (unfold e'; lia).
  rewrite He'.
  replace (eu - eD - e') with 53 by (unfold e'; lia).
  rewrite Z.shiftl_mul_pow2 by lia.
  pose proof (Z_div_mod (Zpos mu * 2 ^ 53) (Zpos mD) ltac:(lia)) as Hdiv.
  unfold Z.div_eucl in Hdiv |- *.
  fold (Z.div_eucl (Zpos mu * 2 ^ 53) (Zpos mD)) in *.
  destruct (Z.div_eucl (Zpos mu * 2 ^ 53) (Zpos mD)) as [q r].
  destruct Hdiv as [Hq Hr].
  pose proof (mantissa_bounds mu) as [Hmu_lo _]. rewrite Hlu in Hmu_lo.
  pose proof (mantissa_bounds mD) as [_ HmD_hi]. rewrite HlD in HmD_hi.
  change (2 ^ (52 + 1)) with (2 ^ 53) in HmD_hi.
  assert (Hq52 : 2 ^ 52 <= q).
  { destruct (Z_le_gt_dec (2 ^ 52) q) as [H | H]; [exact H | exfalso].
    assert (Zpos mD * q <= Zpos mD * (2 ^ 52 - 1))
      by (apply Z.mul_le_mono_nonneg_l; lia).
    assert (2 ^ 52 * 2 ^ 53 <= Zpos mu * 2 ^ 53)
      by (apply Z.mul_le_mono_nonneg_r; lia).
    assert (2 ^ 52 * Zpos mD < 2 ^ 52 * 2 ^ 53)
      by (apply Z.mul_lt_mono_pos_l; [reflexivity | lia]).
    lia. }
  assert (Hqpos : 0 < q) by (assert (0 < 2 ^ 52) by reflexivity; lia).
  destruct q as [| qp | qp]; try lia.
  exists qp, e', (new_location (Zpos mD) r).
  split; [reflexivity |]. split; [unfold e'; lia |]. split; [exact Hq52 |].
  assert (Hscale : scaled (Zpos mu) eu * 2 ^ 1074
                   = Zpos mu * 2 ^ 53 * (2 ^ (e' + 1074) * 2 ^ (eD + 1074))).
  { unfold scaled. rewrite <- !Z.mul_assoc. f_equal.
    rewrite <- !pow2_split by (unfold e'; lia). f_equal. unfold e'. lia. }
  rewrite Hscale. unfold scaled.
  set (P := 2 ^ (e' + 1074)) in *. set (Q := 2 ^ (eD + 1074)) in *.
  assert (HP : 0 < P) by (apply Z.pow_pos_nonneg; unfold e'; lia).
  assert (HQ : 0 < Q) by (apply Z.pow_pos_nonneg; lia).
  assert (HPQ : 0 < P * Q) by (apply Z.mul_pos_pos; assumption).
  clearbody P Q.
  replace (Zpos qp * P * (Zpos mD * Q)) with (Zpos mD * Zpos qp * (P * Q))
    by ring.
  replace ((Zpos qp * P + P) * (Zpos mD * Q))
    with ((Zpos mD * Zpos qp + Zpos mD) * (P * Q)) by ring.
  split; [apply Z.mul_le_mono_nonneg_r; lia |].
  split; [apply Z.mul_lt_mono_pos_r; lia |].
  destruct (new_location_exact (Zpos mD) r) as [Hl | Hne]; [left; exact Hl |].
  right. apply Z.mul_lt_mono_pos_r; lia.
Qed.

Lemma div_ge (mu mD mc : positive) (eu eD ec : Z) :
  Z.log2 (Zpos mu) = 52 -> Z.log2 (Zpos mD) = 52 ->
  -1074 <= eu -> -1074 <= eD -> -1021 <= eu - eD ->
  Z.max (Z.log2 (Zpos mc) + 1 + ec - 53) (-1074) = ec ->
  scaled (Zpos mc) ec * scaled (Zpos mD) eD <= scaled (Zpos mu) eu * 2 ^ 1074 ->
  SFleb (S754_finite false mc ec)
        (SF64div (S754_finite false mu eu) (S754_finite false mD eD)) = true.
Proof.
  intros Hlu HlD Heu HeD Hnorm Hc Hle.
  destruct (div_core mu mD eu eD Hlu HlD Heu HeD Hnorm)
    as (q & e & l & -> & He & Hq & Hlo & Hhi & _).
  assert (Hl : 52 <= Z.log2 (Zpos q)) by (apply Z.log2_le_pow2; lia).
  assert (HD : 0 < scaled (Zpos mD) eD) by (apply scaled_pos; lia).
  apply round_aux_ge; try assumption; [lia |].
  apply below_next; try assumption.
  apply (Z.mul_lt_mono_pos_r (scaled (Zpos mD) eD)); [exact HD | lia].
Qed.

Lemma div_le (mu mD mc : positive) (eu eD ec : Z) :
  Z.log2 (Zpos mu) = 52 -> Z.log2 (Zpos mD) = 52 ->
  -1074 <= eu -> -1074 <= eD -> -1021 <= eu - eD ->
  Z.max (Z.log2 (Zpos mc) + 1 + ec - 53) (-1074) = ec -> ec <= 971 ->
  scaled (Zpos mu) eu * 2 ^ 1074 <= scaled (Zpos mc) ec * scaled (Zpos mD) eD ->
  SFleb (SF64div (S754_finite false mu eu) (S754_finite false mD eD))
        (S754_finite false mc ec) = true.
Proof.
  intros Hlu HlD Heu HeD Hnorm Hc Hec Hle.
  destruct (div_core mu mD eu eD Hlu HlD Heu HeD Hnorm)
    as (q & e & l & -> & He & Hq & Hlo & Hhi & Hex).
  assert (Hl : 52 <= Z.log2 (Zpos q)) by (apply Z.log2_le_pow2; lia).
  assert (HD : 0 < scaled (Zpos mD) eD) by (apply scaled_pos; lia).
  apply round_aux_le; try assumption; [lia | |].
  - apply (Z.mul_le_mono_pos_r _ _ (scaled (Zpos mD) eD)); [exact HD | lia].
  - destruct Hex as [Hex | Hex]; [left; exact Hex | right].
    apply (Z.mul_lt_mono_pos_r (scaled (Zpos mD) eD)); [exact HD | lia].
Qed.

Lemma div_bounds_sound (X Y Z : bounds) (x y : float) :
  div_bounds X Y = Some Z -> between X x -> between Y y ->
  between Z (x / y).
Proof.
  unfold div_bounds. intros HZ Hx Hy.
  destruct (between_inv X x Hx) as (mx & ex & Ex & Hnx & HLx & HHx & Hbx).
  destruct (between_inv Y y Hy) as (my & ey & Ey & Hny & HLy & HHy & Hby).
  match type of HZ with
  | (if ?c then _ else _) = _ => destruct c eqn:Hc; [| discriminate HZ]
  end.
  injection HZ as <-.
  apply andb_prop in Hc. destruct Hc as [Hc C4].
  apply andb_prop in Hc. destruct Hc as [Hc C3].
  apply andb_prop in Hc. destruct Hc as [Hc C2].
  apply andb_prop in Hc. destruct Hc as [C0 C1].
  apply Z.leb_le in C0.
  destruct (normal_spec _ Hnx) as (Hmx & Hex & Hlx & Hcx).
  destruct (normal_spec _ Hny) as (Hmy & Hey & Hly & Hcy).
  destruct (normal_spec _ HLx) as (HmLx & HeLx & HlLx & HcLx).
  destruct (normal_spec _ HLy) as (HmLy & HeLy & HlLy & HcLy).
  destruct (normal_spec _ HHx) as (HmHx & HeHx & HlHx & _).
  destruct (normal_spec _ HHy) as (HmHy & HeHy & HlHy & _).
  destruct (normal_spec _ C1) as (_ & HeL & _ & HcL).
  destruct (normal_spec _ C2) as (_ & HeH & _ & HcH).
  cbn [fst snd] in Hex, Hey, Hlx, Hly, Hcx, Hcy, Hmx, Hmy.
  assert (Hxe : snd (fst X) <= ex).
  { pose proof (magnitude_of_scaled (Zpos (fst (fst X))) (Zpos mx)
                  (snd (fst X)) ex (Pos2Z.is_pos _) (Pos2Z.is_pos _)
                  ltac:(lia) ltac:(lia) (proj1 Hbx)). lia. }
  assert (Hye : ey <= snd (snd Y)).
  { pose proof (magnitude_of_scaled (Zpos my) (Zpos (fst (snd Y)))
                  ey (snd (snd Y)) (Pos2Z.is_pos _) (Pos2Z.is_pos _)
                  ltac:(lia) ltac:(lia) (proj2 Hby)). lia. }
  apply (dy_leb_sound _ _ 2148) in C3; [| cbn; lia | cbn; lia].
  apply (dy_leb_sound _ _ 2148) in C4; [| cbn; lia | cbn; lia].
  change 2148 with (1074 + 1074) in C3, C4.
  rewrite dy_value_mul in C3, C4 by (cbn; lia).
  rewrite dy_value_shift in C3, C4 by (cbn; lia).
  rewrite !dy_value_of in C3, C4.
  set (L := round_down (dy_div (dy_of (fst X)) (dy_of (snd Y)))) in *.
  set (H := round_up (dy_next (dy_div (dy_of (snd X)) (dy_of (fst Y))))) in *.
  assert (PL : 0 < fin_value L) by (apply scaled_pos; lia).
  assert (PH : 0 < fin_value H) by (apply scaled_pos; lia).
  assert (P3 : 0 < scaled (Zpos mx) ex) by (apply scaled_pos; lia).
  assert (P4 : 0 < scaled (Zpos my) ey) by (apply scaled_pos; lia).
  apply between_intro; try assumption; rewrite div_spec, Ex, Ey.
  - apply div_ge; try assumption; try lia. fold (fin_value L).
    assert (fin_value L * scaled (Zpos my) ey
            <= fin_value L * fin_value (snd Y))
      by (apply Z.mul_le_mono_nonneg_l; lia).
    assert (fin_value (fst X) * 2 ^ 1074 <= scaled (Zpos mx) ex * 2 ^ 1074)
      by (apply Z.mul_le_mono_nonneg_r; lia).
    lia.
  - apply div_le; try assumption; try lia. fold (fin_value H).
    assert (fin_value H * fin_value (fst Y)
            <= fin_value H * scaled (Zpos my) ey)
      by (apply Z.mul_le_mono_nonneg_l; lia).
    assert (scaled (Zpos mx) ex * 2 ^ 1074 <= fin_value (snd X) * 2 ^ 1074)
      by (apply Z.mul_le_mono_nonneg_r; lia).
    lia.
Qed.

(** ** Square roots *)

Lemma square_le_cancel (a b : Z) : 0 <= a -> 0 <= b -> a * a <= b * b -> a <= b.
Proof.
  intros Ha Hb H. destruct (Z_le_gt_dec a b) as [Hle | Hgt]; [exact Hle |].
  exfalso. assert (b * b < a * a) by (apply Z.mul_lt_mono_nonneg; lia). lia.
Qed.

Lemma square_lt_cancel (a b : Z) : 0 <= a -> 0 <= b -> a * a < b * b -> a < b.
Proof.
  intros Ha Hb H. destruct (Z_lt_ge_dec a b) as [Hlt | Hge]; [exact Hlt |].
  exfalso. assert (b * b <= a * a) by (apply Z.mul_le_mono_nonneg; lia). lia.
Qed.

(** The square root of a normal number before it is rounded. *)
Lemma sqrt_core (m : positive) (e : Z) :
  Z.log2 (Zpos m) = 52 -> -1074 <= e ->
  exists (q : positive) (e' : Z) (l : location),
    SF64sqrt (S754_finite false m e)
      = binary_round_aux prec emax false (Zpos q) e' l /\
    -1074 <= e' /\ 2 ^ 52 <= Zpos q /\
    scaled (Zpos q) e' * scaled (Zpos q) e' <= scaled (Zpos m) e * 2 ^ 1074 /\
    scaled (Zpos m) e * 2 ^ 1074
      < (scaled (Zpos q) e' + 2 ^ (e' + 1074))
        * (scaled (Zpos q) e' + 2 ^ (e' + 1074)) /\
    (l = loc_Exact
     \/ scaled (Zpos q) e' * scaled (Zpos q) e' < scaled (Zpos m) e * 2 ^ 1074).
Proof.
  intros Hl He.
  unfold SF64sqrt, SFsqrt, SFsqrt_core_binary.
  simpl Zdigits2. rewrite digits2_log2, fexp_eq, Hl.
  rewrite !Z.div2_div.
  pose proof (Z.div_mod e 2 ltac:(lia)) as Hdm1.
  pose proof (Z.mod_pos_bound e 2 ltac:(lia)) as Hb1.
  pose proof (Z.div_mod (52 + 1 + e + 1) 2 ltac:(lia)) as Hdm2.
  pose proof (Z.mod_pos_bound (52 + 1 + e + 1) 2 ltac:(lia)) as Hb2.
  set (e' := e / 2 - 26).
  assert (He' : Z.min (Z.max ((52 + 1 + e + 1) / 2 - 53) (-1074)) (e / 2) = e')
    by (unfold e'; lia).
  rewrite He'.
  set (s := e - 2 * e').
  assert (Hs : s = 52 \/ s = 53) by (unfold s, e'; lia).
  assert (Hspos : 0 < s) by lia.
  destruct s as [| sp | sp] eqn:Es; try lia.
  rewrite Z.shiftl_mul_pow2 by lia. rewrite <- Es in *. clear Es sp.
  pose proof (mantissa_bounds m) as [Hm_lo Hm_hi]. rewrite Hl in Hm_lo, Hm_hi.
  change (2 ^ (52 + 1)) with (2 ^ 53) in Hm_hi.
  assert (Hm'lo : 2 ^ 104 <= Zpos m * 2 ^ s).
  { destruct Hs as [-> | ->].
    - change (2 ^ 104) with (2 ^ 52 * 2 ^ 52).
      apply Z.mul_le_mono_nonneg_r; [reflexivity || lia | lia].
    - change (2 ^ 104) with (2 ^ 51 * 2 ^ 53).
      apply Z.mul_le_mono_nonneg_r; [lia |].
      assert (2 ^ 51 <= 2 ^ 52) by (apply Z.pow_le_mono_r; lia). lia. }
  pose proof (Z.sqrtrem_spec (Zpos m * 2 ^ s) ltac:(lia)) as Hsq.
  destruct (Z.sqrtrem (Zpos m * 2 ^ s)) as [q r]. destruct Hsq as [Hq Hr].
  assert (Hq52 : 2 ^ 52 <= q).
  { destruct (Z_le_gt_dec (2 ^ 52) q) as [H | H]; [exact H | exfalso].
    assert (Hq1 : q <= 2 ^ 52 - 1) by lia.
    assert (0 <= q) by lia.
    assert (q * q <= (2 ^ 52 - 1) * (2 ^ 52 - 1))
      by (apply Z.mul_le_mono_nonneg; lia).
    change (2 ^ 104) with (2 ^ 52 * 2 ^ 52) in Hm'lo.
    set (A := 2 ^ 52) in *. assert (0 < A) by reflexivity.
    clearbody A. nia. }
  destruct q as [| qp | qp]; try (assert (0 < 2 ^ 52) by reflexivity; lia).
  exists qp, e',
    (if r =? 0 then loc_Exact
     else loc_Inexact (if r <=? Zpos qp then Lt else Gt)).
  split; [reflexivity |]. split; [unfold e'; lia |]. split; [exact Hq52 |].
  assert (He'' : 0 <= e' + 1074) by (unfold e'; lia).
  assert (Hscale : scaled (Zpos m) e * 2 ^ 1074
                   = Zpos m * 2 ^ s * (2 ^ (e' + 1074) * 2 ^ (e' + 1074))).
  { unfold scaled. rewrite <- !Z.mul_assoc. f_equal.
    rewrite <- !pow2_split by lia. f_equal. unfold s. lia. }
  rewrite Hscale. unfold scaled.
  set (P := 2 ^ (e' + 1074)) in *.
  assert (HP : 0 < P) by (apply Z.pow_pos_nonneg; lia).
  assert (HPP : 0 < P * P) by (apply Z.mul_pos_pos; assumption).
  set (M := Zpos m * 2 ^ s) in *. clearbody P M.
  replace (Zpos qp * P * (Zpos qp * P)) with (Zpos qp * Zpos qp * (P * P))
    by ring.
  replace ((Zpos qp * P + P) * (Zpos qp * P + P))
    with ((Zpos qp + 1) * (Zpos qp + 1) * (P * P)) by ring.
  split; [apply Z.mul_le_mono_nonneg_r; lia |].
  split; [apply Z.mul_lt_mono_pos_r; lia |].
  destruct (Z.eqb_spec r 0) as [Hr0 | Hr0]; [left; reflexivity | right].
  apply Z.mul_lt_mono_pos_r; lia.
Qed.

Lemma sqrt_ge (m mc : positive) (e ec : Z) :
  Z.log2 (Zpos m) = 52 -> -1074 <= e ->
  Z.max (Z.log2 (Zpos mc) + 1 + ec - 53) (-1074) = ec ->
  scaled (Zpos mc) ec * scaled (Zpos mc) ec <= scaled (Zpos m) e * 2 ^ 1074 ->
  SFleb (S754_finite false mc ec) (SF64sqrt (S754_finite false m e)) = true.
Proof.
  intros Hl He Hc Hle.
  destruct (sqrt_core m e Hl He) as (q & e' & l & -> & He' & Hq & Hlo & Hhi & _).
  assert (Hlq : 52 <= Z.log2 (Zpos q)) by (apply Z.log2_le_pow2; lia).
  assert (Hcpos : 0 < scaled (Zpos mc) ec) by (apply scaled_pos; lia).
  assert (Hqpos : 0 < scaled (Zpos q) e') by (apply scaled_pos; lia).
  assert (HG : 0 < 2 ^ (e' + 1074)) by (apply Z.pow_pos_nonneg; lia).
  apply round_aux_ge; try assumption; [lia |].
  apply below_next; try assumption.
  apply square_lt_cancel; lia.
Qed.

Lemma sqrt_le (m mc : positive) (e ec : Z) :
  Z.log2 (Zpos m) = 52 -> -1074 <= e ->
  Z.max (Z.log2 (Zpos mc) + 1 + ec - 53) (-1074) = ec -> ec <= 971 ->
  scaled (Zpos m) e * 2 ^ 1074 <= scaled (Zpos mc) ec * scaled (Zpos mc) ec ->
  SFleb (SF64sqrt (S754_finite false m e)) (S754_finite false mc ec) = true.
Proof.
  intros Hl He Hc Hec Hle.
  destruct (sqrt_core m e Hl He) as (q & e' & l & -> & He' & Hq & Hlo & Hhi & Hex).
  assert (Hlq : 52 <= Z.log2 (Zpos q)) by (apply Z.log2_le_pow2; lia).
  assert (Hcpos : 0 < scaled (Zpos mc) ec) by (apply scaled_pos; lia).
  assert (Hqpos : 0 < scaled (Zpos q) e') by (apply scaled_pos; lia).
  apply round_aux_le; try assumption; [lia | |].
  - apply square_le_cancel; lia.
  - destruct Hex as [Hex | Hex]; [left; exact Hex | right].
    apply square_lt_cancel; lia.
Qed.

Lemma sqrt_bounds_sound (X Z : bounds) (x : float) :
  sqrt_bounds X = Some Z -> between X x -> between Z (sqrt x).
Proof.
  unfold sqrt_bounds. intros HZ Hx.
  destruct (between_inv X x Hx) as (mx & ex & Ex & Hnx & HLx & HHx & Hbx).
  match type of HZ with
  | (if ?c then _ else _) = _ => destruct c eqn:Hc; [| discriminate HZ]
  end.
  injection HZ as <-.
  apply andb_prop in Hc. destruct Hc as [Hc C4].
  apply andb_prop in Hc. destruct Hc as [Hc C3].
  apply andb_prop in Hc. destruct Hc as [C1 C2].
  destruct (normal_spec _ Hnx) as (Hmx & Hex & Hlx & Hcx).
  destruct (normal_spec _ HLx) as (HmLx & HeLx & HlLx & HcLx).
  destruct (normal_spec _ HHx) as (HmHx & HeHx & HlHx & _).
  destruct (normal_spec _ C1) as (_ & HeL & _ & HcL).
  destruct (normal_spec _ C2) as (_ & HeH & _ & HcH).
  cbn [fst snd] in Hex, Hlx, Hcx, Hmx.
  apply (dy_leb_sound _ _ 2148) in C3; [| cbn; lia | cbn; lia].
  apply (dy_leb_sound _ _ 2148) in C4; [| cbn; lia | cbn; lia].
  change 2148 with (1074 + 1074) in C3, C4.
  rewrite dy_value_mul in C3, C4 by (cbn; lia).
  rewrite dy_value_shift in C3, C4 by (cbn; lia).
  rewrite !dy_value_of in C3, C4.
  set (L := round_down (dy_sqrt (dy_of (fst X)))) in *.
  set (H := round_up (dy_next (dy_sqrt (dy_of (snd X))))) in *.
  apply between_intro; try assumption; rewrite sqrt_spec, Ex.
  - apply sqrt_ge; try assumption; try lia. fold (fin_value L).
    assert (fin_value (fst X) * 2 ^ 1074 <= scaled (Zpos mx) ex * 2 ^ 1074)
      by (apply Z.mul_le_mono_nonneg_r; lia).
    lia.
  - apply sqrt_le; try assumption; try lia. fold (fin_value H).
    assert (scaled (Zpos mx) ex * 2 ^ 1074 <= fin_value (snd X) * 2 ^ 1074)
      by (apply Z.mul_le_mono_nonneg_r; lia).
    lia.
Qed.

(** ** The square root up to its last bit *)

Lemma SFltb_of_scaled (ma mb : positive) (ea eb : Z) :
  Z.max (Z.log2 (Zpos ma) + 1 + ea - 53) (-1074) = ea ->
  Z.max (Z.log2 (Zpos mb) + 1 + eb - 53) (-1074) = eb ->
  scaled (Zpos ma) ea < scaled (Zpos mb) eb ->
  SFltb (S754_finite false ma ea) (S754_finite false mb eb) = true.
Proof.
  intros Ha Hb Hlt. apply SFleb_false_ltb; try discriminate.
  destruct (SFleb (S754_finite false mb eb) (S754_finite false ma ea)) eqn:E;
    [| reflexivity].
  pose proof (scaled_of_SFleb mb ma eb ea Hb Ha E). lia.
Qed.

Lemma SFltb_leb_trans (x y z : spec_float) :
  SFltb x y = true -> SFleb y z = true -> SFltb x z = true.
Proof.
  unfold SFleb, SFltb, SFcompare.
  destruct x as [[] | [] | | [] mx ex];
    destruct y as [[] | [] | | [] my ey]; try discriminate;
    destruct z as [[] | [] | | [] mz ez]; try discriminate;
    try reflexivity; intros H1 H2; compare_cases.
Qed.

Lemma normal_valid (f : fin) :
  normal f = true -> valid_binary (S754_finite false (fst f) (snd f)) = true.
Proof.
  intros H. destruct (normal_spec f H) as (_ & He & Hl & Hc).
  cbn [SpecFloat.valid_binary]. unfold bounded, canonical_mantissa.
  rewrite digits2_log2, fexp_eq. change (emax - prec) with 971.
  apply andb_true_intro. split; [apply Z.eqb_eq; exact Hc | apply Z.leb_le; lia].
Qed.

Lemma between_positive (X : bounds) (x : float) :
  between X x ->
  (0 <? x)%float = true /\ is_infinity x = false /\ is_nan x = false /\
  (x =? 0)%float = false.
Proof.
  intros (_ & _ & m & e & E & _).
  rewrite ltb_spec, is_infinity_SF, is_nan_SF, eqb_zero_SF, E.
  repeat split; reflexivity.
Qed.

(** [pow(x, 0.5)] between the widened bounds of the square root. *)
Lemma root_between (pw : float -> float -> float) (X Z S : bounds) (x : float) :
  faithful_pow pw ->
  sqrt_bounds X = Some Z -> widen Z = Some S -> between X x ->
  between S (pw x 0.5%float).
Proof.
  intros [_ Hpw] HZ HS Hx.
  destruct (between_positive X x Hx) as (Hpos & Hinf & _ & _).
  destruct (Hpw x Hpos Hinf) as (_ & _ & Hlow & Hhigh).
  pose proof (sqrt_bounds_sound X Z x HZ Hx) as Hq.
  destruct (between_leb Z (sqrt x) Hq) as [Hq1 Hq2].
  destruct Hq as (HnL & HnH & _).
  unfold widen in HS.
  match type of HS with
  | (if ?c then _ else _) = _ => destruct c eqn:Hc; [| discriminate HS]
  end.
  injection HS as <-.
  apply andb_prop in Hc. destruct Hc as [Hc C4].
  apply andb_prop in Hc. destruct Hc as [Hc C3].
  apply andb_prop in Hc. destruct Hc as [C1 C2].
  set (L := fin_pred (fst Z)) in *. set (H := fin_succ (snd Z)) in *.
  destruct (normal_spec _ HnL) as (_ & HeZL & _ & HcZL).
  destruct (normal_spec _ HnH) as (_ & HeZH & _ & HcZH).
  destruct (normal_spec _ C1) as (_ & HeL & _ & HcL).
  destruct (normal_spec _ C2) as (_ & HeH & _ & HcH).
  apply (dy_ltb_sound _ _ 1074) in C3; [| cbn; lia | cbn; lia].
  apply (dy_ltb_sound _ _ 1074) in C4; [| cbn; lia | cbn; lia].
  rewrite !dy_value_of in C3, C4.
  apply between_intro; try assumption.
  - specialize (Hlow (SF2Prim (S754_finite false (fst L) (snd L)))).
    rewrite ltb_spec, leb_spec in Hlow.
    rewrite Prim2SF_SF2Prim in Hlow by (apply normal_valid; exact C1).
    apply Hlow.
    eapply SFltb_leb_trans; [| exact Hq1].
    apply SFltb_of_scaled; assumption.
  - specialize (Hhigh (SF2Prim (S754_finite false (fst H) (snd H)))).
    rewrite ltb_spec, leb_spec in Hhigh.
    rewrite Prim2SF_SF2Prim in Hhigh by (apply normal_valid; exact C2).
    apply Hhigh.
    eapply SFleb_ltb_trans; [exact Hq2 |].
    apply SFltb_of_scaled; assumption.
Qed.

(** A number below one is not the base 1.0 of [float_pow]. *)
Lemma below_one_not_one (X : bounds) (x : float) :
  between X x -> dy_ltb (dy_of (snd X)) (dy_of fin_one) = true ->
  (x =? 1)%float = false.
Proof.
  intros Hx Hlt.
  destruct (between_inv X x Hx) as (m & e & E & Hn & _ & HH & Hb).
  destruct (normal_spec _ HH) as (_ & HeH & _ & _).
  apply (dy_ltb_sound _ _ 1074) in Hlt; [| cbn; lia | cbn; lia].
  rewrite !dy_value_of in Hlt.
  destruct (x =? 1)%float eqn:E1; [exfalso | reflexivity].
  rewrite eqb_spec, E in E1. change (Prim2SF 1) with SFone in E1.
  unfold SFeqb, SFone, SFcompare in E1.
  destruct (Z.compare_spec e (-52)) as [-> | _ | _]; try discriminate E1.
  destruct (Pos.compare_cont Eq m 4503599627370496) eqn:Ec;
    try discriminate E1.
  apply (Pos.compare_eq m 4503599627370496) in Ec. subst m.
  unfold fin_value in Hlt, Hb. cbn [fin_one fst snd] in Hlt. lia.
Qed.

Lemma root_with_between (pw : float -> float -> float) (X Z S : bounds)
  (x : float) :
  faithful_pow pw ->
  sqrt_bounds X = Some Z -> widen Z = Some S -> between X x ->
  dy_ltb (dy_of (snd X)) (dy_of fin_one) = true ->
  between S (root_with pw x).
Proof.
  intros Hpw HZ HS Hx Hlt.
  destruct (between_positive X x Hx) as (_ & Hinf & Hnan & Hz).
  unfold root_with.
  rewrite Hnan, Hinf, Hz, (below_one_not_one X x Hx Hlt).
  exact (root_between pw X Z S x Hpw HZ HS Hx).
Qed.

(** ** One cell of confidences *)

Lemma default_fins :
  Prim2SF 1 = S754_finite false (fst fin_one) (snd fin_one) /\
  Prim2SF default_z = S754_finite false (fst fin_z) (snd fin_z) /\
  Prim2SF (Py.float_of_Z default_n)
    = S754_finite false (fst fin_n) (snd fin_n) /\
  Prim2SF (1 + default_z * default_z / Py.float_of_Z default_n)
    = S754_finite false (fst fin_denom) (snd fin_denom) /\
  Prim2SF (default_z * default_z / Py.float_of_Z (2 * default_n))
    = S754_finite false (fst fin_shift) (snd fin_shift) /\
  Prim2SF (default_z * default_z / Py.float_of_Z (4 * default_n ^ 2))
    = S754_finite false (fst fin_floor) (snd fin_floor).
Proof. repeat split; vm_compute; reflexivity. Qed.

Lemma square_with_default (pw : float -> float -> float) :
  faithful_pow pw ->
  square_with pw default_z = (default_z * default_z)%float.
Proof. intros [H _]. exact H. Qed.

Lemma cell_check_normal (a b : fin) :
  cell_check a b = true -> normal a = true /\ normal b = true.
Proof.
  unfold cell_check. intros H.
  repeat match type of H with
         | match ?c with Some _ => _ | None => _ end = _ =>
             destruct c; [| discriminate H]
         end.
  apply andb_prop in H. destruct H as [H _].
  apply andb_prop in H. destruct H as [H _].
  apply andb_prop in H. destruct H as [H _].
  apply andb_prop in H. exact H.
Qed.

(** On a checked cell the limits enclose the confidence. *)
Lemma cell_sound (pw : float -> float -> float) (a b : fin) (p : float) :
  faithful_pow pw -> cell_check a b = true -> between (a, b) p ->
  (p <=? 1)%float = true ->
  (fst (wilson_formula pw p default_n default_z) <=? p)%float = true /\
  (p <=? snd (wilson_formula pw p default_n default_z))%float = true.
Proof.
  intros Hpw Hc Hp Hp1.
  destruct default_fins as (E1 & Ez & En & Ed & Es & Ef).
  unfold cell_check in Hc.
  destruct (add_bounds (a, b) (exactly fin_shift)) as [bu |] eqn:Bu;
    [| discriminate Hc].
  destruct (div_bounds bu (exactly fin_denom)) as [bc |] eqn:Bc;
    [| discriminate Hc].
  destruct (sub_bounds (exactly fin_one) (a, b)) as [bw |] eqn:Bw;
    [| discriminate Hc].
  destruct (mul_bounds (a, b) bw) as [bv |] eqn:Bv; [| discriminate Hc].
  destruct (div_bounds bv (exactly fin_n)) as [bt |] eqn:Bt;
    [| discriminate Hc].
  destruct (add_bounds bt (exactly fin_floor)) as [br |] eqn:Br;
    [| discriminate Hc].
  destruct (sqrt_bounds br) as [bq |] eqn:Bq; [| discriminate Hc].
  destruct (widen bq) as [bs |] eqn:Bs; [| discriminate Hc].
  destruct (mul_bounds (exactly fin_z) bs) as [bz |] eqn:Bz;
    [| discriminate Hc].
  destruct (div_bounds bz (exactly fin_denom)) as [bh |] eqn:Bh;
    [| discriminate Hc].
  destruct (add_bounds bc bh) as [byy |] eqn:By; [| discriminate Hc].
  apply andb_prop in Hc. destruct Hc as [Hc K4].
  apply andb_prop in Hc. destruct Hc as [Hc K3].
  apply andb_prop in Hc. destruct Hc as [Hc K2].
  apply andb_prop in Hc. destruct Hc as [Ka Kb].
  unfold wilson_formula. cbv zeta. cbn [fst snd].
  rewrite (square_with_default pw Hpw).
  set (zz := (default_z * default_z)%float) in *.
  set (shift := (zz / Py.float_of_Z (2 * default_n))%float) in *.
  set (denom := (1 + zz / Py.float_of_Z default_n)%float) in *.
  set (floor := (zz / Py.float_of_Z (4 * default_n ^ 2))%float) in *.
  assert (H1 : between (exactly fin_one) 1)
    by (apply between_exactly; [reflexivity | exact E1]).
  assert (Hz : between (exactly fin_z) default_z)
    by (apply between_exactly; [reflexivity | exact Ez]).
  assert (Hn : between (exactly fin_n) (Py.float_of_Z default_n))
    by (apply between_exactly; [reflexivity | exact En]).
  assert (Hd : between (exactly fin_denom) denom)
    by (apply between_exactly; [reflexivity | exact Ed]).
  assert (Hs : between (exactly fin_shift) shift)
    by (apply between_exactly; [reflexivity | exact Es]).
  assert (Hf : between (exactly fin_floor) floor)
    by (apply between_exactly; [reflexivity | exact Ef]).
  pose proof (add_bounds_sound _ _ _ _ _ Bu Hp Hs) as Hu.
  pose proof (div_bounds_sound _ _ _ _ _ Bc Hu Hd) as Hce.
  pose proof (sub_bounds_sound _ _ _ _ _ Bw H1 Hp) as Hw.
  pose proof (mul_bounds_sound _ _ _ _ _ Bv Hp Hw) as Hv.
  pose proof (div_bounds_sound _ _ _ _ _ Bt Hv Hn) as Ht.
  pose proof (add_bounds_sound _ _ _ _ _ Br Ht Hf) as Hr.
  pose proof (root_with_between pw _ _ _ _ Hpw Bq Bs Hr K2) as Hro.
  pose proof (mul_bounds_sound _ _ _ _ _ Bz Hz Hro) as Hzr.
  pose proof (div_bounds_sound _ _ _ _ _ Bh Hzr Hd) as Hh.
  pose proof (add_bounds_sound _ _ _ _ _ By Hce Hh) as Hy.
  set (c := ((p + shift) / denom)%float) in *.
  set (h := (default_z
             * root_with pw (p * (1 - p) / Py.float_of_Z default_n + floor)
             / denom)%float) in *.
  destruct (between_leb _ _ Hp) as [Hpa Hpb]. cbn [fst snd] in Hpa, Hpb.
  destruct (between_positive _ _ Hp) as (Hppos & _ & _ & _).
  destruct (normal_spec _ Ka) as (_ & Hea & _ & Hca).
  destruct (normal_spec _ Kb) as (_ & Heb & _ & Hcb).
  split.
  - unfold fmax. destruct (0 <? c - h)%float eqn:Ex;
      [| apply ltb_leb; exact Hppos].
    rewrite leb_spec, sub_spec.
    apply SFleb_trans with (y := S754_finite false (fst a) (snd a));
      [| exact Hpa].
    destruct (between_inv _ _ Hce) as (mc & ec & Ec & Hnc & _ & HHc & Hbc).
    destruct (between_inv _ _ Hh) as (mh & eh & Eh & Hnh & HLh & _ & Hbh).
    destruct (normal_spec _ Hnc) as (_ & Hec & _ & _).
    destruct (normal_spec _ Hnh) as (_ & Heh & _ & _).
    destruct (normal_spec _ HHc) as (_ & HeHc & _ & _).
    destruct (normal_spec _ HLh) as (_ & HeLh & _ & _).
    cbn [fst snd] in Hec, Heh.
    apply (dy_leb_sound _ _ 1074) in K4; [| cbn; lia | cbn; lia].
    rewrite dy_value_sub in K4 by (cbn; lia).
    rewrite !dy_value_of in K4.
    rewrite Ec, Eh. apply sub_upper; try assumption; try lia.
    fold (fin_value a). lia.
  - assert (Hpy : SFleb (Prim2SF p) (Prim2SF (c + h)) = true).
    { destruct (between_leb _ _ Hy) as [Hy1 _].
      destruct Hy as (HLy & _ & _).
      destruct (normal_spec _ HLy) as (_ & HeLy & _ & HcLy).
      apply (dy_leb_sound _ _ 1074) in K3; [| cbn; lia | cbn; lia].
      rewrite !dy_value_of in K3.
      apply SFleb_trans with (y := S754_finite false (fst b) (snd b));
        [exact Hpb |].
      apply SFleb_trans
        with (y := S754_finite false (fst (fst byy)) (snd (fst byy)));
        [| exact Hy1].
      apply SFleb_of_scaled; assumption. }
    unfold fmin. destruct (c + h <? 1)%float; [| exact Hp1].
    rewrite leb_spec. exact Hpy.
Qed.

(** ** The chain of cells *)

Lemma last_cons {A : Type} (rest : list A) :
  forall a b : A, last (b :: rest) a = last rest b.
Proof.
  induction rest as [| c rest IH]; intros a b; [reflexivity |].
  change (last (b :: c :: rest) a) with (last (c :: rest) a).
  rewrite (IH a c), (IH b c). reflexivity.
Qed.

Lemma chain_cover (ts : list fin) :
  forall (a : fin) (p : float),
    chain_check (a :: ts) = true -> ts <> [] ->
    SFleb (S754_finite false (fst a) (snd a)) (Prim2SF p) = true ->
    SFleb (Prim2SF p)
          (S754_finite false (fst (last ts a)) (snd (last ts a))) = true ->
    exists c d, cell_check c d = true /\ between (c, d) p.
Proof.
  induction ts as [| b rest IH]; intros a p Hc Hne Ha Hl; [congruence |].
  cbn [chain_check] in Hc. apply andb_prop in Hc. destruct Hc as [Hab Hrest].
  destruct (cell_check_normal a b Hab) as [Hna Hnb].
  destruct (SFleb (Prim2SF p) (S754_finite false (fst b) (snd b))) eqn:Eb.
  - exists a, b. split; [exact Hab |]. apply between_intro; assumption.
  - assert (Hbp : SFleb (S754_finite false (fst b) (snd b)) (Prim2SF p) = true).
    { assert (Hlt : SFltb (S754_finite false (fst b) (snd b)) (Prim2SF p) = true).
      { apply SFleb_false_ltb; [| discriminate | exact Eb].
        intros E. rewrite E in Ha. discriminate Ha. }
      unfold SFltb in Hlt. unfold SFleb.
      destruct (SFcompare _ _) as [[] |]; try discriminate Hlt. reflexivity. }
    rewrite last_cons in Hl.
    destruct rest as [| c rest].
    + cbn [last] in Hl. rewrite Hl in Eb. discriminate Eb.
    + apply (IH b p); [exact Hrest | discriminate | exact Hbp | exact Hl].
Qed.

Lemma breakpoints_ends :
  exists rest, breakpoints = fin_first :: rest /\ rest <> [] /\
               last rest fin_first = fin_last.
Proof.
  exists (tl breakpoints). split; [vm_compute; reflexivity |].
  split; [vm_compute; discriminate | vm_compute; reflexivity].
Qed.

(** Every confidence from [2^-56] to [1 - 2^-51] lies in a checked
    cell. *)
Lemma confidence_in_a_cell (p : float) :
  (0x1p-56 <=? p)%float = true -> (p <=? 0x1.ffffffffffffcp-1)%float = true ->
  exists c d, cell_check c d = true /\ between (c, d) p.
Proof.
  intros Hlo Hhi. rewrite leb_spec in Hlo, Hhi.
  destruct breakpoints_ends as (rest & Eb & Hne & El).
  apply (chain_cover rest fin_first p).
  - rewrite <- Eb. exact chain_checked.
  - exact Hne.
  - exact Hlo.
  - rewrite El. exact Hhi.
Qed.

(** ** The limits at the default arguments *)

(** The two limits enclose the centre. *)
Lemma limits_enclose_centre (c h : float) :
  (c <=? 1)%float = true ->
  sign_clear (Prim2SF c) = true -> sign_clear (Prim2SF h) = true ->
  (fmax 0 (c - h) <=? c)%float = true /\
  (c <=? fmin 1 (c + h))%float = true.
Proof.
  intros Hone Hc Hh.
  assert (Hnan : is_nan c = false).
  { rewrite is_nan_SF. rewrite leb_spec in Hone.
    destruct (Prim2SF c); try reflexivity. discriminate Hone. }
  split.
  - unfold fmax. destruct (0 <? c - h)%float eqn:Ex.
    + rewrite ltb_spec, sub_spec in Ex.
      change (Prim2SF 0) with (S754_zero false) in Ex.
      pose proof Hone as Hone'. rewrite leb_spec in Hone'.
      change (Prim2SF 1) with SFone in Hone'.
      destruct (difference_and_sum (Prim2SF c) (Prim2SF h)
                  (Prim2SF_valid c) (Prim2SF_valid h) Hone' Hc Hh Ex)
        as [Hxc _].
      rewrite leb_spec, sub_spec. exact Hxc.
    + apply sign_clear_leb_zero; assumption.
  - unfold fmin. destruct (c + h <? 1)%float eqn:Ey; [| exact Hone].
    rewrite ltb_spec, add_spec in Ey. rewrite leb_spec, add_spec.
    rewrite leb_spec in Hone. change (Prim2SF 1) with SFone in *.
    pose proof (Prim2SF_valid c) as Hvc. pose proof (Prim2SF_valid h) as Hvh.
    destruct (Prim2SF c) as [[] | [] | | [] mc ec]; try discriminate Hc;
      try discriminate Hone;
      destruct (Prim2SF h) as [[] | [] | | [] mh eh]; try discriminate Hh;
      try discriminate Ey; try reflexivity.
    + apply SFleb_refl. discriminate.
    + apply add_ge_left; assumption.
Qed.

Lemma leb_trans (x y z : float) :
  (x <=? y)%float = true -> (y <=? z)%float = true -> (x <=? z)%float = true.
Proof. rewrite !leb_spec. apply SFleb_trans. Qed.

Lemma leb_not_nan_r (x y : float) : (x <=? y)%float = true -> is_nan y = false.
Proof.
  rewrite leb_spec, is_nan_SF. unfold SFleb, SFcompare.
  destruct (Prim2SF x), (Prim2SF y); try reflexivity; discriminate.
Qed.

(** The limits around the centre of the default interval, for any
    half-width that is not negative. *)
Lemma default_limits_around (p h : float) :
  (0 <=? p)%float = true -> (p <=? 1)%float = true ->
  sign_clear (Prim2SF h) = true ->
  let c := ((p + default_z * default_z / Py.float_of_Z (2 * default_n))
            / (1 + default_z * default_z / Py.float_of_Z default_n))%float in
  (0 <=? fmax 0 (c - h))%float = true /\
  (fmax 0 (c - h) <=? fmin 1 (c + h))%float = true /\
  (0 <=? fmin 1 (c + h))%float = true /\
  (fmin 1 (c + h) <=? 1)%float = true /\
  ((0.5000001 <=? p)%float = true -> (fmax 0 (c - h) <=? p)%float = true) /\
  ((p <=? 0.4999999)%float = true -> (p <=? fmin 1 (c + h))%float = true).
Proof.
  intros H0 H1 Hh c.
  destruct default_arguments_fit as (Hn & Hb & Hz & Hs).
  destruct (sample_size_bounds default_n Hn Hb) as (Hn1 & Hn2 & Hn4).
  assert (Hd : sign_clear (Prim2SF (1 + default_z * default_z
                                        / Py.float_of_Z default_n)) = true).
  { apply denominator_sign_clear, div_float_of_Z_sign_clear;
      [exact Hn1 | apply square_sign_clear]. }
  assert (Hc1 : (c <=? 1)%float = true) by exact (centre_at_most_one p H0 H1).
  assert (Hc : sign_clear (Prim2SF c) = true).
  { unfold c. rewrite div_spec. apply div_sign_clear_gen; [| exact Hd].
    rewrite add_spec. apply add_sign_clear; [apply leb_zero_SF; exact H0 |].
    apply div_float_of_Z_sign_clear; [exact Hn2 | apply square_sign_clear]. }
  destruct (limits_enclose_centre c h Hc1 Hc Hh) as [Hlc Hch].
  destruct (centre_against_confidence p H0 H1) as [Hup Hdown].
  cbv zeta in Hup, Hdown. fold c in Hup, Hdown.
  split; [apply fmax_zero_lower |].
  split; [apply limits_ordered; assumption |].
  split.
  { apply fmin_one_lower. rewrite add_spec. apply add_sign_clear;
      [apply sign_clear_not_negative |]; assumption. }
  split; [apply fmin_one_upper |].
  split; intros Hth.
  - exact (leb_trans _ _ _ Hlc (Hup Hth)).
  - exact (leb_trans _ _ _ (Hdown Hth) Hch).
Qed.

(** ** The interval for a faithful [pow] *)

Lemma faithful_root (pw : float -> float -> float) (r : float) :
  faithful_pow pw -> sign_clear (Prim2SF r) = true ->
  sign_clear (Prim2SF (root_with pw r)) = true /\
  pow_half_with pw r = Ok (Py.Real (root_with pw r)).
Proof.
  intros [_ Hpw] Hs. unfold root_with, pow_half_with.
  destruct (is_nan r) eqn:Enan; [split; [exact Hs | reflexivity] |].
  destruct (is_infinity r) eqn:Einf; [split; reflexivity |].
  destruct (r =? 0)%float eqn:Ez; [split; reflexivity |].
  rewrite (sign_clear_ltb_zero r Hs).
  destruct (r =? 1)%float; [split; reflexivity |].
  assert (Hpos : (0 <? r)%float = true).
  { rewrite ltb_spec. rewrite is_nan_SF in Enan.
    rewrite is_infinity_SF in Einf. rewrite eqb_zero_SF in Ez.
    change (Prim2SF 0) with (S754_zero false).
    destruct (Prim2SF r) as [[] | [] | | [] m e]; try discriminate;
      reflexivity. }
  destruct (Hpw r Hpos Einf) as (Hp & Hf & _).
  cbv zeta. rewrite Hf. split; [| reflexivity].
  apply ltb_zero_sign_clear. exact Hp.
Qed.

Lemma default_sample_fits : 0 < default_n /\ 4 * default_n ^ 2 <= max_float_int.
Proof. split; [reflexivity | apply Z.leb_le; vm_compute; reflexivity]. Qed.

Lemma default_radicand_sign_clear (pw : float -> float -> float) (p : float) :
  faithful_pow pw ->
  (0 <=? p)%float = true -> (p <=? 1)%float = true ->
  sign_clear (Prim2SF (radicand_with pw p default_n default_z)) = true.
Proof.
  intros Hpw H0 H1. destruct default_sample_fits as [Hn Hb].
  apply radicand_with_in_unit_interval; try assumption.
  rewrite (square_with_default pw Hpw). apply square_sign_clear.
Qed.

Lemma wilson_with_default (pw : float -> float -> float) (p : float) :
  faithful_pow pw ->
  (0 <=? p)%float = true -> (p <=? 1)%float = true ->
  wilson_interval_with pw p default_n default_z
    = Ok (wilson_formula pw p default_n default_z).
Proof.
  intros Hpw H0 H1. destruct default_sample_fits as [Hn Hb].
  destruct default_arguments_fit as (_ & _ & Hz & _).
  apply wilson_interval_with_unfolded; try assumption.
  - rewrite (square_with_default pw Hpw). exact Hz.
  - rewrite (square_with_default pw Hpw). apply square_sign_clear.
  - apply faithful_root; [exact Hpw |].
    apply default_radicand_sign_clear; assumption.
Qed.

Lemma default_formula_limits (pw : float -> float -> float) (p : float) :
  faithful_pow pw ->
  (0 <=? p)%float = true -> (p <=? 1)%float = true ->
  let w := wilson_formula pw p default_n default_z in
  (0 <=? fst w)%float = true /\ (fst w <=? snd w)%float = true /\
  (0 <=? snd w)%float = true /\ (snd w <=? 1)%float = true /\
  ((0.5000001 <=? p)%float = true -> (fst w <=? p)%float = true) /\
  ((p <=? 0.4999999)%float = true -> (p <=? snd w)%float = true).
Proof.
  intros Hpw H0 H1.
  destruct default_arguments_fit as (Hn & Hb & Hz & Hs).
  destruct (sample_size_bounds default_n Hn Hb) as (Hn1 & Hn2 & Hn4).
  pose proof (default_radicand_sign_clear pw p Hpw H0 H1) as Hr.
  destruct (faithful_root pw _ Hpw Hr) as [Hroot _].
  unfold radicand_with in Hroot.
  unfold wilson_formula. cbv zeta. cbn [fst snd].
  rewrite (square_with_default pw Hpw) in *.
  apply (default_limits_around p); try assumption.
  rewrite div_spec. apply div_sign_clear_gen.
  - rewrite mul_spec. apply mul_sign_clear; [exact Hs | exact Hroot].
  - apply denominator_sign_clear, div_float_of_Z_sign_clear;
      [exact Hn1 | apply square_sign_clear].
Qed.

(** The correctly rounded powers are faithful. *)
Lemma sqrt_positive (x : float) :
  (0 <? x)%float = true -> is_infinity x = false ->
  (0 <? sqrt x)%float = true.
Proof.
  intros Hpos Hinf. pose proof (sqrt_finite x Hinf) as Hf.
  rewrite ltb_spec in Hpos |- *. rewrite is_infinity_SF in Hf.
  rewrite sqrt_spec in Hf |- *. change (Prim2SF 0) with (S754_zero false) in *.
  pose proof (Prim2SF_valid x) as Hv.
  destruct (Prim2SF x) as [[] | [] | | [] m e]; try discriminate Hpos.
  - reflexivity.
  - destruct (sqrt_core_shape m e Hv) as (_ & Hnz & Hnn).
    pose proof (sqrt_sign_clear (S754_finite false m e) eq_refl) as Hs.
    destruct (SF64sqrt (S754_finite false m e)) as [[] | [] | | [] ? ?];
      try reflexivity; try discriminate Hs; try discriminate Hf;
      congruence.
Qed.

Lemma rounded_pow_faithful : faithful_pow rounded_pow.
Proof.
  split; [reflexivity |]. intros x Hpos Hinf.
  change (rounded_pow x 0.5) with (sqrt x).
  split; [exact (sqrt_positive x Hpos Hinf) |].
  split; [exact (sqrt_finite x Hinf) |].
  split; intros y Hy; apply ltb_leb; exact Hy.
Qed.

(** * The claims on the interval and the labels *)

(** C2, amended: for a sample size n > 0 whose 4 n^2 converts to a float
    (4 n^2 <= (2^53 - 1) 2^971), a z whose square z**2 is finite and not
    negative, and a p whose radicand is not negative and has a finite power
    (...)**0.5, the function returns exactly the pair
    (max(0.0, center - half), min(1.0, center + half)) of the Wilson
    formula, every operation being the binary64 one and the two powers those
    of the C library's [pow], whatever its last bits are; the default
    arguments are n = 100 and z = 1.96. *)
Theorem wilson_interval_matches_formula
  (pw : float -> float -> float) (p : float) (n : Z) (z : float) :
  0 < n -> 4 * n ^ 2 <= max_float_int ->
  is_infinity (square_with pw z) = false ->
  sign_clear (Prim2SF (square_with pw z)) = true ->
  (radicand_with pw p n z <? 0)%float = false ->
  is_infinity (root_with pw (radicand_with pw p n z)) = false ->
  wilson_interval_with pw p n z = Ok (wilson_formula pw p n z) /\
  default_n = 100 /\ default_z = 1.96%float.
Proof.
  intros Hn Hb Hz Hsq Hr Hroot. split; [| split; reflexivity].
  apply wilson_interval_with_steps; try assumption.
  apply radicand_with_never_negative_zero; assumption.
Qed.

Lemma wilson_interval_matches_formula_witness :
  wilson_interval_with rounded_pow 0.7 100 1.96
    = Ok (wilson_formula rounded_pow 0.7 100 1.96) /\
  default_n = 100 /\ default_z = 1.96%float.
Proof.
  apply (wilson_interval_matches_formula rounded_pow 0.7 100 1.96);
    vm_compute; solve [reflexivity | discriminate].
Defined.

(** C6, amended: for p in [0, 1] and a z whose square z**2 is finite and
    not negative, the function raises ZeroDivisionError at n = 0, returns
    the pair of the formula for every n > 0 with 4 n^2 <= (2^53 - 1) 2^971
    whose power (...)**0.5 is finite, and raises OverflowError for every
    n >= 2^511. *)
Theorem wilson_interval_failure_modes
  (pw : float -> float -> float) (p : float) (n : Z) (z : float) :
  (0 <=? p)%float = true -> (p <=? 1)%float = true ->
  is_infinity (square_with pw z) = false ->
  sign_clear (Prim2SF (square_with pw z)) = true ->
  wilson_interval_with pw p 0 z = Raise ZeroDivisionError /\
  (0 < n -> 4 * n ^ 2 <= max_float_int ->
   is_infinity (root_with pw (radicand_with pw p n z)) = false ->
   wilson_interval_with pw p n z = Ok (wilson_formula pw p n z)) /\
  (2 ^ 511 <= n -> wilson_interval_with pw p n z = Raise OverflowError).
Proof.
  intros H0 H1 Hz Hsq. split; [| split].
  - apply zero_sample_size_with. exact Hz.
  - intros Hn Hb Hroot.
    apply wilson_interval_with_steps; try assumption.
    apply radicand_with_in_unit_interval; assumption.
  - intros Hn. apply oversized_sample_with; assumption.
Qed.

Lemma wilson_interval_failure_modes_witness :
  wilson_interval_with rounded_pow 0.7 0 1.96 = Raise ZeroDivisionError /\
  wilson_interval_with rounded_pow 0.7 (3 * 2 ^ 509) 1.96
    = Ok (wilson_formula rounded_pow 0.7 (3 * 2 ^ 509) 1.96) /\
  wilson_interval_with rounded_pow 0.7 (2 ^ 511) 1.96 = Raise OverflowError.
Proof.
  destruct (wilson_interval_failure_modes rounded_pow 0.7 (3 * 2 ^ 509) 1.96)
    as (Hzero & Hmid & _); try (vm_compute; reflexivity).
  destruct (wilson_interval_failure_modes rounded_pow 0.7 (2 ^ 511) 1.96)
    as (_ & _ & Hbig); try (vm_compute; reflexivity).
  split; [exact Hzero |]. split.
  - apply Hmid; vm_compute; solve [reflexivity | discriminate].
  - apply Hbig. vm_compute. discriminate.
Defined.

(** C3, amended: with a faithful [pow], for every p in [0, 1] the default
    interval is returned with 0.0 <= lower <= upper <= 1.0; lower <= p
    holds from p = 2^-56 on and p <= upper holds up to p = 1 - 2^-51, so
    that the interval contains every p from 2^-56 to 1 - 2^-51; with the
    correctly rounded powers it contains 0.70 and 0.75, the two confidences
    the classifier produces by itself. *)
Theorem interval_limits_in_unit_range
  (pw : float -> float -> float) (p : float) :
  faithful_pow pw ->
  (0 <=? p)%float = true -> (p <=? 1)%float = true ->
  (exists lo hi,
     wilson_interval_with pw p default_n default_z = Ok (lo, hi) /\
     (0 <=? lo)%float = true /\ (lo <=? hi)%float = true /\
     (0 <=? hi)%float = true /\ (hi <=? 1)%float = true /\
     ((0x1p-56 <=? p)%float = true -> (lo <=? p)%float = true) /\
     ((p <=? 0x1.ffffffffffffcp-1)%float = true -> (p <=? hi)%float = true)) /\
  contains_confidence 0.70 = true /\
  contains_confidence 0.75 = true.
Proof.
  intros Hpw H0 H1. split; [| split; vm_compute; reflexivity].
  rewrite (wilson_with_default pw p Hpw H0 H1).
  destruct (default_formula_limits pw p Hpw H0 H1)
    as (Hlo & Hord & Hhi0 & Hhi & Hup & Hdown).
  cbv zeta in Hlo, Hord, Hhi0, Hhi, Hup, Hdown.
  assert (Hnan : is_nan p = false) by exact (leb_not_nan_r _ _ H0).
  assert (Hcell : (0x1p-56 <=? p)%float = true ->
                  (p <=? 0x1.ffffffffffffcp-1)%float = true ->
                  (fst (wilson_formula pw p default_n default_z) <=? p)%float
                    = true /\
                  (p <=? snd (wilson_formula pw p default_n default_z))%float
                    = true).
  { intros Ha Hb. destruct (confidence_in_a_cell p Ha Hb) as (c & d & Hc & Hp).
    exact (cell_sound pw c d p Hpw Hc Hp H1). }
  exists (fst (wilson_formula pw p default_n default_z)),
         (snd (wilson_formula pw p default_n default_z)).
  split; [rewrite <- surjective_pairing; reflexivity |].
  repeat (split; [assumption |]). split.
  - intros Ha. destruct (0.5000001 <=? p)%float eqn:Eth; [exact (Hup eq_refl) |].
    apply Hcell; [exact Ha |].
    apply leb_trans with (y := 0.5000001%float); [| vm_compute; reflexivity].
    apply ltb_leb, leb_false_ltb; [reflexivity | exact Hnan | exact Eth].
  - intros Hb. destruct (p <=? 0.4999999)%float eqn:Eth;
      [exact (Hdown eq_refl) |].
    apply Hcell; [| exact Hb].
    apply leb_trans with (y := 0.4999999%float); [vm_compute; reflexivity |].
    apply ltb_leb, leb_false_ltb; [exact Hnan | reflexivity | exact Eth].
Qed.

Lemma interval_limits_in_unit_range_witness :
  (exists lo hi,
     wilson_interval_with rounded_pow 0.7 default_n default_z = Ok (lo, hi) /\
     (0 <=? lo)%float = true /\ (lo <=? hi)%float = true /\
     (0 <=? hi)%float = true /\ (hi <=? 1)%float = true /\
     ((0x1p-56 <=? 0.7)%float = true -> (lo <=? 0.7)%float = true) /\
     ((0.7 <=? 0x1.ffffffffffffcp-1)%float = true -> (0.7 <=? hi)%float = true)) /\
  contains_confidence 0.70 = true /\
  contains_confidence 0.75 = true.
Proof.
  apply (interval_limits_in_unit_range rounded_pow 0.7).
  - exact rounded_pow_faithful.
  - vm_compute; reflexivity.
  - vm_compute; reflexivity.
Defined.

(** C8, as stated, fails with an artifact: a classifier without
    [predict_proba] that answers the class -1 gives the index -1, outside
    {0, 1, 2, 3}, and the label "Business Automation", Python counting a
    negative index from the end of the list; a classifier over five classes
    gives the index 4 and IndexError instead of a label. *)
Lemma artifact_index_outside_the_four :
  valid_request (zeros "x") /\
  classify (Some minus_one_model) (zeros "x") = Ok (-1, 0.75%float) /\
  ~ (0 <= -1 <= 3) /\
  (exists resp,
     predict (Some minus_one_model) (zeros "x") = Ok resp /\
     label resp = "Business Automation"%string) /\
  classify (Some five_class_model) (zeros "x") = Ok (4, 0.6%float) /\
  ~ (0 <= 4 <= 3) /\
  predict (Some five_class_model) (zeros "x") = Raise IndexError.
Proof.
  split; [unfold valid_request; simpl; repeat constructor |].
  split; [reflexivity |]. split; [lia |].
  split; [eexists; split; vm_compute; reflexivity |].
  split; [vm_compute; reflexivity |]. split; [lia |].
  vm_compute. reflexivity.
Qed.

(** C8, amended: for a valid request the heuristic mode gives an index in
    {0, 1, 2, 3} and the label of the fixed list at that index; with an
    artifact, whenever a response is returned the index lies between -4 and
    3 and the label is the entry of the fixed list that Python indexing
    selects, the entry at the index itself when it is not negative; an
    artifact whose [predict_proba] answers a first row of four entries gives
    an index in {0, 1, 2, 3}, and a response with the label at that index
    when the entries are probabilities. *)
Theorem label_is_looked_up_in_the_fixed_list
  (m : option Artifact) (req : PredictRequest) :
  valid_request req ->
  (exists idx resp,
     classify None req = Ok (idx, 0.70%float) /\ 0 <= idx <= 3 /\
     predict None req = Ok resp /\
     nth_error LABELS (Z.to_nat idx) = Some (label resp) /\
     label resp = label_name idx) /\
  (forall idx p resp,
     classify m req = Ok (idx, p) -> predict m req = Ok resp ->
     -4 <= idx <= 3 /\
     label resp = label_name (idx mod 4) /\
     In (label resp) LABELS /\
     (0 <= idx -> nth_error LABELS (Z.to_nat idx) = Some (label resp))) /\
  (forall a proba_of row rest,
     m = Some a -> predict_proba a = Some proba_of ->
     proba_of (vectorize req) = row :: rest -> List.length row = 4%nat ->
     exists idx p,
       classify m req = Ok (idx, p) /\ 0 <= idx <= 3 /\ In p row /\
       (Forall probability row ->
        exists resp,
          predict m req = Ok resp /\
          nth_error LABELS (Z.to_nat idx) = Some (label resp) /\
          label resp = label_name idx)).
Proof.
  intros _.
  assert (Hname : forall idx lab,
             0 <= idx <= 3 -> nth_error LABELS (Z.to_nat idx) = Some lab ->
             lab = label_name idx).
  { intros idx lab Hi Hn.
    assert (Hcases : idx = 0 \/ idx = 1 \/ idx = 2 \/ idx = 3) by lia.
    destruct Hcases as [-> | [-> | [-> | ->]]]; cbn in Hn;
      injection Hn as <-; reflexivity. }
  split; [| split].
  - destruct (heuristic_index_range req) as (idx & Hc & Hi).
    destruct (predict_from_classification None req idx 0.70 _ _ Hc
                wilson_default_at_070 Hi) as (lab & Hp & Hn).
    exists idx. eexists. split; [exact Hc |]. split; [exact Hi |].
    split; [exact Hp |]. cbn [label]. split; [exact Hn |].
    exact (Hname idx lab Hi Hn).
  - intros idx p resp Hc Hp. unfold predict in Hp. rewrite Hc in Hp.
    cbn [bind] in Hp.
    destruct (wilson_interval_default p) as [[lo hi] | err];
      [cbn [bind] in Hp | discriminate Hp].
    pose proof (index_LABELS idx) as Hidx.
    destruct (Py.index LABELS idx) as [lab | err] eqn:El;
      [cbn [bind] in Hp | discriminate Hp].
    injection Hp as <-. cbn [label].
    destruct (Z.leb_spec (-4) idx) as [Hlo | Hlo]; cbn [andb] in Hidx;
      [| discriminate Hidx].
    destruct (Z.leb_spec idx 3) as [Hhi | Hhi]; [| discriminate Hidx].
    injection Hidx as ->.
    split; [lia |]. split; [reflexivity |].
    split; [exact (index_In _ _ _ El) |].
    intros Hnn.
    assert (Hcases : idx = 0 \/ idx = 1 \/ idx = 2 \/ idx = 3) by lia.
    destruct Hcases as [-> | [-> | [-> | ->]]]; reflexivity.
  - intros a proba_of row rest -> Hpp Hrow Hlen.
    assert (Hc : exists idx p,
               classify (Some a) req = Ok (idx, p) /\ 0 <= idx <= 3 /\
               In p row).
    { unfold classify. rewrite Hpp, Hrow, index_head. cbn [bind].
      destruct row as [| x tl]; [discriminate Hlen |].
      destruct (np_argmax_nonempty x tl) as [i Hi]. rewrite Hi. cbn [bind].
      pose proof (np_argmax_range _ _ Hi) as Hr.
      destruct (index_in_range (x :: tl) i Hr) as (q & Hq & Hn).
      rewrite Hq. cbn [bind]. exists i, q.
      split; [reflexivity |]. split; [rewrite Hlen in Hr; lia |].
      exact (nth_error_In _ _ Hn). }
    destruct Hc as (idx & p & Hc & Hi & Hin).
    exists idx, p. split; [exact Hc |]. split; [exact Hi |].
    split; [exact Hin |].
    intros Hall. rewrite Forall_forall in Hall.
    destruct (Hall p Hin) as [H0 H1].
    destruct (wilson_default_in_unit_interval p H0 H1) as [Hw _].
    destruct (wilson_spec p default_n default_z) as [lo hi].
    destruct (predict_from_classification (Some a) req idx p lo hi Hc Hw Hi)
      as (lab & Hp & Hn).
    eexists. split; [exact Hp |]. cbn [label]. split; [exact Hn |].
    exact (Hname idx lab Hi Hn).
Qed.

Lemma label_is_looked_up_in_the_fixed_list_witness :
  (exists idx resp,
     classify None (zeros "x") = Ok (idx, 0.70%float) /\ 0 <= idx <= 3 /\
     predict None (zeros "x") = Ok resp /\
     nth_error LABELS (Z.to_nat idx) = Some (label resp) /\
     label resp = label_name idx) /\
  (forall idx p resp,
     classify (Some steady_model) (zeros "x") = Ok (idx, p) ->
     predict (Some steady_model) (zeros "x") = Ok resp ->
     -4 <= idx <= 3 /\
     label resp = label_name (idx mod 4) /\
     In (label resp) LABELS /\
     (0 <= idx -> nth_error LABELS (Z.to_nat idx) = Some (label resp))) /\
  (forall a proba_of row rest,
     Some steady_model = Some a -> predict_proba a = Some proba_of ->
     proba_of (vectorize (zeros "x")) = row :: rest ->
     List.length row = 4%nat ->
     exists idx p,
       classify (Some steady_model) (zeros "x") = Ok (idx, p) /\
       0 <= idx <= 3 /\ In p row /\
       (Forall probability row ->
        exists resp,
          predict (Some steady_model) (zeros "x") = Ok resp /\
          nth_error LABELS (Z.to_nat idx) = Some (label resp) /\
          label resp = label_name idx)).
Proof.
  apply (label_is_looked_up_in_the_fixed_list (Some steady_model) (zeros "x")).
  unfold valid_request. simpl. repeat constructor.
Defined.

(** * Validated requests *)

Lemma float_of_bit (n : Z) : bit n -> Py.float_of_Z n = answer_float n.
Proof. intros [-> | ->]; reflexivity. Qed.

(** X1: without an artifact every validated request is answered: the
    response carries one of the four names, the confidence 0.70 and the
    same two limits (0.604... and 0.781...) for every such request. *)
Theorem heuristic_mode_always_answers (req : PredictRequest) :
  valid_request req ->
  exists idx,
    0 <= idx <= 3 /\
    predict None req =
      Ok {| label := label_name idx;
            avg_confidence := 0.70;
            ucl := 0.78105246133771877;
            lcl := 0.60414961567188041 |}.
Proof.
  intros _.
  destruct (heuristic_index_range req) as (idx & Hc & Hi).
  exists idx. split; [exact Hi |].
  unfold predict. rewrite Hc. cbn [bind].
  rewrite wilson_default_at_070. cbn [bind].
  rewrite index_LABELS.
  assert (Hc4 : idx = 0 \/ idx = 1 \/ idx = 2 \/ idx = 3) by lia.
  destruct Hc4 as [-> | [-> | [-> | ->]]]; reflexivity.
Qed.

Lemma heuristic_mode_always_answers_witness :
  exists idx,
    0 <= idx <= 3 /\
    predict None (ones "x") =
      Ok {| label := label_name idx;
            avg_confidence := 0.70;
            ucl := 0.78105246133771877;
            lcl := 0.60414961567188041 |}.
Proof.
  apply (heuristic_mode_always_answers (ones "x")).
  unfold valid_request. simpl.
  repeat (apply Forall_cons; [right; reflexivity |]). apply Forall_nil.
Defined.

(** X10: for a validated request [vectorize] returns one row of fifteen
    floats, the answers in the order is_process_simple,
    can_specify_business_rules, will_occasional_errors_be_tolerated,
    will_error_be_propagated, is_use_case_transactional_in_nature,
    are_you_building_learning_system, high_stakes_environment,
    hyper_personalization, unstructured_text_input,
    is_input_data_multi_modal, language_generation,
    are_autonomous_decisions_required, is_reasoning_required,
    tool_integration, dynamic_goals, each 1.0 for the answer 1 and 0.0 for
    the answer 0. *)
Theorem feature_vector_shape (req : PredictRequest) :
  valid_request req ->
  vectorize req =
    [[ answer_float (is_process_simple req);
       answer_float (can_specify_business_rules req);
       answer_float (will_occasional_errors_be_tolerated req);
       answer_float (will_error_be_propagated req);
       answer_float (is_use_case_transactional_in_nature req);
       answer_float (are_you_building_learning_system req);
       answer_float (high_stakes_environment req);
       answer_float (hyper_personalization req);
       answer_float (unstructured_text_input req);
       answer_float (is_input_data_multi_modal req);
       answer_float (language_generation req);
       answer_float (are_autonomous_decisions_required req);
       answer_float (is_reasoning_required req);
       answer_float (tool_integration req);
       answer_float (dynamic_goals req) ]].
Proof.
  unfold valid_request, fields. intros H.
  repeat match type of H with
         | Forall _ (_ :: _) =>
             let Hb := fresh "Hb" in
             apply Forall_cons_iff in H; destruct H as [Hb H]
         end.
  unfold vectorize, fields. cbn [map].
  rewrite !float_of_bit by assumption. reflexivity.
Qed.

Lemma feature_vector_shape_witness :
  vectorize (ones "x") =
    [[ answer_float 1; answer_float 1; answer_float 1; answer_float 1;
       answer_float 1; answer_float 1; answer_float 1; answer_float 1;
       answer_float 1; answer_float 1; answer_float 1; answer_float 1;
       answer_float 1; answer_float 1; answer_float 1 ]].
Proof.
  apply (feature_vector_shape (ones "x")).
  unfold valid_request. simpl.
  repeat (apply Forall_cons; [right; reflexivity |]). apply Forall_nil.
Defined.
